(** * Ethereal Balance storefront: cart, checkout validation, webhook reconciliation

    A shallow embedding of [src/js/cart.js] (the client-side cart) and of
    [src/functions/index.js] (the two HTTPS functions [createCheckoutSession]
    and [stripeWebhook]), with the properties of the checkout / order
    lifecycle stated over it.

    JavaScript code that awaits remote calls and may throw is written in a
    small state-and-exception monad: a computation takes the current state
    and returns the new state together with a completion, which is either a
    normal value or a thrown error.  State changes made before a throw are
    kept, as writes to a document store are. *)

From Stdlib Require Import Ascii.
From stdpp Require Import gmap strings list pretty.

Local Open Scope Z_scope.

(* ===================================================================== *)
(** ** JavaScript control flow: completions, try / catch, for ... of     *)
(* ===================================================================== *)

Module JS.

Inductive completion (A : Type) : Type :=
| Normal (a : A)
| Throw (e : string).
Arguments Normal {A} a.
Arguments Throw {A} e.

Definition M (S A : Type) : Type := S → S * completion A.

Definition ret {S A} (a : A) : M S A := λ s, (s, Normal a).

Definition bind {S A B} (m : M S A) (k : A → M S B) : M S B :=
  λ s, match m s with
       | (s', Normal a) => k a s'
       | (s', Throw e) => (s', Throw e)
       end.

Definition throw {S A} (e : string) : M S A := λ s, (s, Throw e).

(** [try { body } catch (e) { handler }] *)
Definition try_catch {S A} (body : M S A) (handler : string → M S A) : M S A :=
  λ s, match body s with
       | (s', Normal a) => (s', Normal a)
       | (s', Throw e) => handler e s'
       end.

Definition gets {S A} (f : S → A) : M S A := λ s, (s, Normal (f s)).
Definition modify {S} (f : S → S) : M S unit := λ s, (f s, Normal tt).

Definition lift {S A} (c : completion A) : M S A := λ s, (s, c).

Global Instance M_ret {S} : MRet (M S) := λ A, ret.
Global Instance M_bind {S} : MBind (M S) := λ A B k m, bind m k.

(** [for (const x of l) { body }] where the body has no early exit. *)
Fixpoint for_of {S A} (l : list A) (body : A → M S unit) : M S unit :=
  match l with
  | [] => mret tt
  | x :: l' => body x;; for_of l' body
  end.

(** Truthiness of the JavaScript values that occur in the sources. *)
Definition truthy_string (s : string) : bool := negb (String.eqb s "").
Definition truthy_number (n : Z) : bool := negb (n =? 0).

Definition truthy_opt_string (o : option string) : bool :=
  match o with Some s => truthy_string s | None => false end.

(** Numbers are doubles.  [round_double z] is the double nearest to the
    integer [z], ties going to the even significand: every integer up to
    2^53 in magnitude is a double, and beyond that a double is a multiple
    of the power of two that leaves 53 significant bits.  Magnitudes from
    2^1024 on, which are [Infinity] in JavaScript, are not told apart. *)
Definition round_double (z : Z) : Z :=
  if Z.abs z <=? 2 ^ 53 then z
  else
    let ulp := 2 ^ (Z.log2 (Z.abs z) - 52) in
    let q := Z.abs z / ulp in
    let r := Z.abs z mod ulp in
    let q' := if 2 * r <? ulp then q
              else if ulp <? 2 * r then q + 1
              else if Z.even q then q else q + 1 in
    Z.sgn z * (q' * ulp).

(** [a + b], [a - b] and [a * b] on two integers held as doubles. *)
Definition number_add (a b : Z) : Z := round_double (a + b).
Definition number_sub (a b : Z) : Z := round_double (a - b).
Definition number_mul (a b : Z) : Z := round_double (a * b).


End JS.
Import JS.

(* ===================================================================== *)
(** ** src/js/cart.js                                                     *)
(* ===================================================================== *)

Module Cart.

(** The product object handed to [addItem] by the shop page. *)
Module Product.
Record t := mk
  { id : string; name : string; price : Z; category : string;
    images : list string }.
End Product.

Module CartItem.
Record t := mk
  { productId : string; name : string; price : Z; quantity : Z;
    category : string; image : string }.

Definition with_quantity (q : Z) (i : t) : t :=
  mk (productId i) (name i) (price i) q (category i) (image i).
End CartItem.

Record cart := mkCart { items : list CartItem.t; updatedAt : Z }.

Definition with_items (l : list CartItem.t) (c : cart) : cart :=
  mkCart l (updatedAt c).

(** A string held by [localStorage], classified by what the source does
    with it: the empty string is falsy, [JSON.parse] throws on text that is
    not JSON, the text written by [saveCart] parses back to the cart it
    was made from, and any other JSON text parses to a value that is not a
    cart.  [StrayJson] is the JSON of a value without an [items] member:
    [null], a number, a string, a boolean, an array such as [[]], or an
    object such as [{}]; an object with an [items] member is taken to be a
    cart as [saveCart] writes it. *)
Inductive text :=
| EmptyText
| Garbled
| CartJson (c : cart)
| StrayJson.

(** What [JSON.parse] returns: a cart, or a value that has no items.
    Reading [.items] of the latter throws (for [null]) or gives
    [undefined], on which [.find], [.filter], [.reduce] and [.length]
    throw: either way a [TypeError]. *)
Inductive value :=
| Stored (c : cart)
| Stray.

Definition truthy (t : text) : bool :=
  match t with EmptyText => false | _ => true end.

Definition JSON_parse (t : text) : completion value :=
  match t with
  | CartJson c => Normal (Stored c)
  | StrayJson => Normal Stray
  | _ => Throw "SyntaxError"
  end.

Definition JSON_stringify (c : cart) : text := CartJson c.

Definition KEY : string := "eb_cart".

(** The browser state the module owns is [localStorage].  [updateUI],
    [renderDrawer] and [openDrawer] only write to the DOM and are left out. *)
Abbreviation localStorage := (gmap string text).

Definition empty_cart (now : Z) : cart := mkCart [] now.

(** [now] is the value of [Date.now()] during the call. *)
Definition getCart (now : Z) : M localStorage value :=
  try_catch
    (data ← gets (λ ls : localStorage, ls !! KEY);
     match data with
     | Some t =>
         if truthy t then lift (JSON_parse t) else mret (Stored (empty_cart now))
     | None => mret (Stored (empty_cart now))
     end)
    (λ _, mret (Stored (empty_cart now))).

Definition saveCart (now : Z) (c : cart) : M localStorage unit :=
  modify (λ ls : localStorage, <[KEY := JSON_stringify (mkCart (items c) now)]> ls).

Definition is_line (pid : string) (i : CartItem.t) : Prop :=
  CartItem.productId i = pid.

Global Instance is_line_dec pid i : Decision (is_line pid i).
Proof. unfold is_line. apply _. Defined.

(** [addItem(product, quantity = 1)]: an omitted argument is [None].
    On a value without items, [cart.items.find] throws; the same goes for
    [.filter] and [.reduce] in the operations below.
    [existing.quantity += quantity] adds two doubles. *)
Definition addItem (now : Z) (product : Product.t) (quantity_arg : option Z)
  : M localStorage unit :=
  let quantity := default 1 quantity_arg in
  cart ← getCart now;
  match cart with
  | Stray => throw "TypeError"
  | Stored c =>
      match list_find (is_line (Product.id product)) (items c) with
      | Some (k, existing) =>
          saveCart now
            (with_items
               (<[k := CartItem.with_quantity
                         (number_add (CartItem.quantity existing) quantity) existing]>
                  (items c)) c)
      | None =>
          saveCart now
            (with_items
               (items c ++
                  [CartItem.mk (Product.id product) (Product.name product)
                     (Product.price product) quantity (Product.category product)
                     (default "" (head (Product.images product)))]) c)
      end
  end.

Definition removeItem (now : Z) (productId : string) : M localStorage unit :=
  cart ← getCart now;
  match cart with
  | Stray => throw "TypeError"
  | Stored c =>
      saveCart now
        (with_items (filter (λ i, ¬ is_line productId i) (items c)) c)
  end.

Definition updateQuantity (now : Z) (productId : string) (quantity : Z)
  : M localStorage unit :=
  cart ← getCart now;
  match cart with
  | Stray => throw "TypeError"
  | Stored c =>
      match list_find (is_line productId) (items c) with
      | Some (k, item) =>
          if bool_decide (quantity ≤ 0) then removeItem now productId
          else
            saveCart now
              (with_items (<[k := CartItem.with_quantity quantity item]> (items c)) c)
      | None => mret tt
      end
  end.

(** The sums of [getTotal] and [getCount] are sums of doubles. *)
Definition getTotal (now : Z) : M localStorage Z :=
  cart ← getCart now;
  match cart with
  | Stray => throw "TypeError"
  | Stored c =>
      mret (foldl (λ sum item,
                     number_add sum
                       (number_mul (CartItem.price item) (CartItem.quantity item)))
              0 (items c))
  end.

Definition getCount (now : Z) : M localStorage Z :=
  cart ← getCart now;
  match cart with
  | Stray => throw "TypeError"
  | Stored c =>
      mret (foldl (λ sum item, number_add sum (CartItem.quantity item)) 0 (items c))
  end.

Definition clear : M localStorage unit :=
  modify (λ ls : localStorage, delete KEY ls).

(** The mutating operations, as the page invokes them one after another. *)
Inductive op :=
| AddItem (product : Product.t) (quantity_arg : option Z)
| UpdateQuantity (productId : string) (quantity : Z)
| RemoveItem (productId : string)
| Clear.

Definition run_op (now : Z) (o : op) : M localStorage unit :=
  match o with
  | AddItem p q => addItem now p q
  | UpdateQuantity pid q => updateQuantity now pid q
  | RemoveItem pid => removeItem now pid
  | Clear => clear
  end.

(** Each operation comes with the clock reading at the time it runs. *)
Definition run_ops (ops : list (Z * op)) : M localStorage unit :=
  for_of ops (λ '(now, o), run_op now o).

(** The lines of the persisted cart, and the CartItem invariant on them. *)
Definition lines (ls : localStorage) : list CartItem.t :=
  match ls !! KEY with
  | Some (CartJson c) => items c
  | _ => []
  end.

Definition lines_ok (ls : localStorage) : Prop :=
  Forall (λ i, 1 ≤ CartItem.quantity i) (lines ls).


(** [s.replace(/c/g, rep)] for a pattern of one character. *)
Fixpoint replace_all (c : Ascii.ascii) (rep : string) (s : string) : string :=
  match s with
  | EmptyString => EmptyString
  | String a s' =>
      (if Ascii.eqb a c then rep else String a EmptyString) +:+ replace_all c rep s'
  end.

(** The double quote, which a string literal here cannot hold. *)
Definition dquote : Ascii.ascii := Ascii.ascii_of_nat 34.

(** [escapeAttr(text)]: [None] is [undefined] or [null]. *)
Definition escapeAttr (text : option string) : string :=
  match text with
  | None => ""
  | Some t =>
      if negb (truthy_string t) then ""
      else
        replace_all ">"%char "&gt;"
          (replace_all "<"%char "&lt;"
             (replace_all "'"%char "&#39;"
                (replace_all dquote "&quot;"
                   (replace_all "&"%char "&amp;" t))))
  end.


(** *** Vocabulary for the properties of the cart *)

(** The value [getCart] hands out for a given storage. *)
Definition parsed (now : Z) (ls : localStorage) : value :=
  match ls !! KEY with
  | Some (CartJson c) => Stored c
  | Some StrayJson => Stray
  | _ => Stored (empty_cart now)
  end.

(** The cart among them. *)
Definition stored (now : Z) (ls : localStorage) : cart :=
  match ls !! KEY with
  | Some (CartJson c) => c
  | _ => empty_cart now
  end.

(** The record under the cart's key, if there is one, is the empty
    string, text that does not parse, or a cart: not the JSON of a value
    without items. *)
Definition cart_record (ls : localStorage) : Prop := ls !! KEY ≠ Some StrayJson.

(** What each operation leaves in storage, as a function on the lines. *)
Definition added (p : Product.t) (q : Z) (l : list CartItem.t) : list CartItem.t :=
  match list_find (is_line (Product.id p)) l with
  | Some (k, existing) =>
      <[k := CartItem.with_quantity (number_add (CartItem.quantity existing) q) existing]> l
  | None =>
      l ++ [CartItem.mk (Product.id p) (Product.name p) (Product.price p) q
              (Product.category p) (default "" (head (Product.images p)))]
  end.

Definition updated (pid : string) (q : Z) (l : list CartItem.t) : list CartItem.t :=
  match list_find (is_line pid) l with
  | Some (k, item) =>
      if bool_decide (q ≤ 0) then filter (λ i, ¬ is_line pid i) l
      else <[k := CartItem.with_quantity q item]> l
  | None => l
  end.

Definition quantities_ok (l : list CartItem.t) : Prop :=
  Forall (λ i, 1 ≤ CartItem.quantity i) l.

(** A product of the shop page, for the examples. *)
Definition candle : Product.t :=
  Product.mk "p1" "Candle" 1200 "physical" ["candle.png"].

(** The sums [getCount] and [getTotal] reduce the lines to. *)
Definition count_of (l : list CartItem.t) : Z :=
  foldl (λ sum item, number_add sum (CartItem.quantity item)) 0 l.

Definition total_of (l : list CartItem.t) : Z :=
  foldl (λ sum item,
           number_add sum (number_mul (CartItem.price item) (CartItem.quantity item)))
    0 l.

(** The same sums in exact arithmetic. *)
Definition pieces (l : list CartItem.t) : Z :=
  foldr (λ item sum, CartItem.quantity item + sum) 0 l.

Definition worth (l : list CartItem.t) : Z :=
  foldr (λ item sum, CartItem.price item * CartItem.quantity item + sum) 0 l.

(** No quantity and no price is negative. *)
Definition unsigned (l : list CartItem.t) : Prop :=
  Forall (λ i, 0 ≤ CartItem.quantity i ∧ 0 ≤ CartItem.price i) l.

(** Lines whose count stays within the integers a double holds exactly:
    no quantity is negative and the pieces are no more than 2^53. *)
Definition countable (l : list CartItem.t) : Prop :=
  Forall (λ i, 0 ≤ CartItem.quantity i) l ∧ pieces l ≤ 2 ^ 53.

(** The unit price [addItem] goes by: the snapshot of the line already in
    the cart if there is one, the product's price otherwise. *)
Definition unit_price (p : Product.t) (l : list CartItem.t) : Z :=
  match list_find (is_line (Product.id p)) l with
  | Some (_, existing) => CartItem.price existing
  | None => Product.price p
  end.

(** What one character becomes in an attribute value. *)
Definition escape_char (a : Ascii.ascii) : string :=
  if Ascii.eqb a "&"%char then "&amp;"
  else if Ascii.eqb a dquote then "&quot;"
  else if Ascii.eqb a "'"%char then "&#39;"
  else if Ascii.eqb a "<"%char then "&lt;"
  else if Ascii.eqb a ">"%char then "&gt;"
  else String a EmptyString.

Fixpoint escape_each (s : string) : string :=
  match s with
  | EmptyString => EmptyString
  | String a s' => escape_char a +:+ escape_each s'
  end.

(** The five replacements in the order of the source. *)
Definition five_passes (t : string) : string :=
  replace_all ">"%char "&gt;"
    (replace_all "<"%char "&lt;"
       (replace_all "'"%char "&#39;"
          (replace_all dquote "&quot;"
             (replace_all "&"%char "&amp;" t)))).

(** The characters that end or open markup inside a quoted attribute. *)
Definition breaks_attribute (a : Ascii.ascii) : bool :=
  Ascii.eqb a dquote || Ascii.eqb a "'"%char || Ascii.eqb a "<"%char
  || Ascii.eqb a ">"%char.

Fixpoint occurs (P : Ascii.ascii → bool) (s : string) : bool :=
  match s with
  | EmptyString => false
  | String a s' => P a || occurs P s'
  end.


End Cart.

(* ===================================================================== *)
(** ** src/functions/index.js                                             *)
(* ===================================================================== *)

Module Functions.

(** *** Documents and payloads *)

(** A document of the [products] collection; its id is the document key. *)
Module Product.
Record t := mk
  { name : string; price : Z; category : string; inventory : Z;
    isActive : bool; images : list string; digitalFileUrl : option string }.

Definition with_inventory (v : Z) (p : t) : t :=
  mk (name p) (price p) (category p) v (isActive p) (images p) (digitalFileUrl p).
End Product.

(** An element of [req.body.items].  [productId] and [quantity] are read by
    the function and may be absent; [price] and [name] stand for whatever
    else the client chooses to send along. *)
Module Item.
Record t := mk
  { productId : option string; quantity : option Z;
    price : option Z; name : option string }.
End Item.

Module OrderItem.
Record t := mk
  { productId : string; name : string; price : Z; quantity : Z;
    category : string }.
End OrderItem.

(** One entry of [line_items]: [price_data] with its [product_data]
    flattened, and the quantity. *)
Module LineItem.
Record t := mk
  { currency : string; name : string; images : list string;
    firebaseProductId : string; unit_amount : Z; quantity : Z }.
End LineItem.

Module SessionConfig.
Record t := mk
  { payment_method_types : list string;
    line_items : list LineItem.t;
    mode : string;
    success_url : string;
    cancel_url : string;
    billing_address_collection : string;
    metadata_orderItems : list OrderItem.t;
    shipping_address_collection : option (list string) }.
End SessionConfig.

(** [session.metadata.orderItems] as the webhook meets it: absent (or the
    empty string), so that ["[]"] is parsed instead; text on which
    [JSON.parse] throws (a missing [metadata] object throws at the same
    place); or the JSON of a list of order items. *)
Inductive Meta :=
| MetaMissing
| MetaInvalid
| MetaItems (l : list OrderItem.t).

(** What [session.customer_details?.email] evaluates to: [undefined] for a
    session without [customer_details] (or without the field), [null] as
    the payment provider gives it when it has no address, or the address. *)
Inductive Recipient :=
| Undefined
| Null
| Address (email : string).

(** [email || ""] *)
Definition email_or_empty (r : Recipient) : string :=
  match r with Address email => email | _ => "" end.

(** The checkout session object carried by a webhook event.  The optional
    chains [customer_details?.email], [total_details?.amount_shipping],
    [shipping_details?.address] are flattened into fields; for the fields
    other than the e-mail address, which are only read through [||],
    [None] stands for [undefined] and [null] alike. *)
Module Session.
Record t := mk
  { id : string; payment_intent : string;
    customer_email : Recipient; customer_name : option string;
    metadata_orderItems : Meta;
    amount_subtotal : Z; amount_shipping : option Z; amount_total : Z;
    shipping_address : option string; shipping_name : option string }.
End Session.

Module Event.
Record t := mk { type : string; object : Session.t }.
End Event.

(** A document of the [orders] collection (server timestamps left out). *)
Module Order.
Record t := mk
  { stripeSessionId : string; stripePaymentIntentId : string;
    customerEmail : string; customerName : string;
    items : list OrderItem.t;
    subtotal : Z; shipping : Z; total : Z;
    status : string;
    shippingAddress : option string; shippingName : option string;
    trackingNumber : option string; trackingCarrier : option string;
    digitalDelivered : bool; notes : string }.

Definition with_digitalDelivered (b : bool) (o : t) : t :=
  mk (stripeSessionId o) (stripePaymentIntentId o) (customerEmail o)
     (customerName o) (items o) (subtotal o) (shipping o) (total o)
     (status o) (shippingAddress o) (shippingName o) (trackingNumber o)
     (trackingCarrier o) b (notes o).
End Order.

(** A document of the [mail] collection.  The HTML bodies are kept as the
    data they are rendered from. *)
Inductive Message :=
| OrderConfirmation (orderRef : nat) (greeting : string)
    (itemsList : list OrderItem.t) (total : Z)
| DigitalDownloads (links : list (string * string)).

Module Mail.
Record t := mk { to : Recipient; message : Message }.
End Mail.

Definition is_downloads (m : Mail.t) : bool :=
  match Mail.message m with DigitalDownloads _ => true | _ => false end.

(** *** The services behind the functions *)

(** A remote call the functions await. *)
Inductive Call :=
| ProductGet (id : string)
| SessionsCreate
| OrdersAdd
| RunTransaction (id : string)
| MailAdd (m : Mail.t)
| OrderUpdate (ref : nat).

Record Entry := mkEntry { call : Call; ok : bool }.

(** Firestore collections, the sessions created at the payment provider,
    the calls made so far, and the outages to come: the head of [outages]
    tells whether the next remote call is rejected; once the list is used
    up every call goes through. *)
Record World := mkWorld
  { products : gmap string Product.t;
    orders : list Order.t;
    mail : list Mail.t;
    sessions : list SessionConfig.t;
    outages : list bool;
    journal : list Entry }.

Definition set_products (f : gmap string Product.t → gmap string Product.t) (w : World) :=
  mkWorld (f (products w)) (orders w) (mail w) (sessions w) (outages w) (journal w).
Definition set_orders (f : list Order.t → list Order.t) (w : World) :=
  mkWorld (products w) (f (orders w)) (mail w) (sessions w) (outages w) (journal w).
Definition set_mail (f : list Mail.t → list Mail.t) (w : World) :=
  mkWorld (products w) (orders w) (f (mail w)) (sessions w) (outages w) (journal w).
Definition set_sessions (f : list SessionConfig.t → list SessionConfig.t) (w : World) :=
  mkWorld (products w) (orders w) (mail w) (f (sessions w)) (outages w) (journal w).

Definition record (c : Call) (went : bool) (rest : list bool) (w : World) :=
  mkWorld (products w) (orders w) (mail w) (sessions w) rest
    (journal w ++ [mkEntry c went]).

(** Awaiting a remote call: it is journalled, and throws during an outage. *)
Definition remote (c : Call) : M World unit :=
  λ w, match outages w with
       | true :: rest => (record c false rest w, Throw "unavailable")
       | false :: rest => (record c true rest w, Normal tt)
       | [] => (record c true [] w, Normal tt)
       end.

(** The Firestore client.  [doc path] is what
    [db.collection("products").doc(path)] evaluates to: a reference to a
    document, given by the key of that document in the collection, or the
    error the client throws, before any call is made, for a path that does
    not point to a document.  Which paths those are is the client
    library's business, so [doc] is a parameter of the development. *)
Class Firestore := { doc : string → completion string }.

(** The components of a path, which slashes separate. *)
Fixpoint components (path : string) : list string :=
  match path with
  | EmptyString => [EmptyString]
  | String c rest =>
      if Ascii.eqb c "/"%char then EmptyString :: components rest
      else
        match components rest with
        | first :: others => String c first :: others
        | [] => [String c EmptyString]
        end
  end.

(** A client for the examples, which goes by the shape of the path as the
    Firestore client does: under a collection, a path points to a document
    when it has an odd number of components, none of them empty; the
    document is kept under that path.  (Reserved ids are left aside.) *)
Definition plain_client : Firestore :=
  {| doc := λ path,
       if forallb truthy_string (components path)
          && Nat.odd (length (components path))
       then Normal path
       else Throw "Value for argument documentPath must point to a document" |}.

Section Client.

Context `{Firestore}.

(** [db.collection("products").doc(id).get()]; [None] is a snapshot with
    [exists = false]. *)
Definition products_get (id : string) : M World (option Product.t) :=
  productRef ← lift (doc id);
  remote (ProductGet productRef);;
  gets (λ w, products w !! productRef).

(** [stripe.checkout.sessions.create(config)]; the session is named by its
    position, which stands for its URL. *)
Definition sessions_create (cfg : SessionConfig.t) : M World nat :=
  remote SessionsCreate;;
  n ← gets (λ w, length (sessions w));
  modify (set_sessions (λ l, l ++ [cfg]));;
  mret n.

(** [db.collection("orders").add(doc)]; the reference is the position of
    the new document, fresh by construction. *)
Definition orders_add (o : Order.t) : M World nat :=
  remote OrdersAdd;;
  n ← gets (λ w, length (orders w));
  modify (set_orders (λ l, l ++ [o]));;
  mret n.

(** [db.runTransaction(body)] on one product document: the body's read and
    write take effect atomically, or not at all when the call is rejected. *)
Definition runTransaction (productRef : string)
    (body : gmap string Product.t → gmap string Product.t) : M World unit :=
  remote (RunTransaction productRef);;
  modify (set_products body).

(** [db.collection("mail").add(doc)].  The client does not take a document
    with an [undefined] field: it throws before any call is made.  [to] is
    the one field of the two messages that can be [undefined]. *)
Definition mail_add (m : Mail.t) : M World unit :=
  match Mail.to m with
  | Undefined => throw "Cannot use undefined as a Firestore value"
  | _ =>
      remote (MailAdd m);;
      modify (set_mail (λ l, l ++ [m]))
  end.

(** [orderRef.update({ digitalDelivered: b })] *)
Definition order_update (ref : nat) (b : bool) : M World unit :=
  remote (OrderUpdate ref);;
  modify (set_orders (alter (Order.with_digitalDelivered b) ref)).

(** *** HTTP responses *)

Inductive Body :=
| Json_error (error : string)
| Json_sessionUrl (session : nat)
| Json_received
| Send (text : string).

Record Response := mkResponse { status : Z; body : Body }.

(** [res.json(b)] without [res.status] answers 200. *)
Definition res_json (b : Body) : Response := mkResponse 200 b.

(** *** createCheckoutSession *)

Record CheckoutRequest := mkCheckoutRequest
  { method : string;
    items : option (list Item.t);    (* [None]: absent or not an array *)
    successUrl : option string;
    cancelUrl : option string }.

(** [!item.productId || !item.quantity || item.quantity < 1] *)
Definition invalid_item (item : Item.t) : bool :=
  negb (truthy_opt_string (Item.productId item))
  || negb (from_option truthy_number false (Item.quantity item))
  || from_option (λ q, q <? 1) false (Item.quantity item).

Definition bad_request (msg : string) : Response := mkResponse 400 (Json_error msg).

(** What the loop has pushed so far: [lineItems], [orderItems], [hasPhysical]. *)
Record Built := mkBuilt
  { lineItems : list LineItem.t; orderItems : list OrderItem.t; hasPhysical : bool }.

Definition line_item (pid : string) (q : Z) (product : Product.t) : LineItem.t :=
  LineItem.mk "usd" (Product.name product) (take 1 (Product.images product))
    pid (Product.price product) q.

Definition order_item (pid : string) (q : Z) (product : Product.t) : OrderItem.t :=
  OrderItem.mk pid (Product.name product) (Product.price product) q
    (Product.category product).

(** The check of one fetched product against the requested quantity;
    [Some msg] is the business-rule error the loop answers 400 with. *)
Definition product_problem (product : Product.t) (q : Z) : option string :=
  if negb (Product.isActive product) then
    Some (Product.name product +:+ " is no longer available")
  else if String.eqb (Product.category product) "physical"
          && negb (Product.inventory product =? -1)
          && (Product.inventory product <? q) then
    Some (Product.name product +:+ " only has "
            +:+ pretty (Product.inventory product) +:+ " left in stock")
  else None.

(** The [for (const item of items)] loop; [inl r] is an early
    [res.status(400).json(..); return]. *)
Fixpoint validate_items (l : list Item.t) (acc : Built) : M World (Response + Built) :=
  match l with
  | [] => mret (inr acc)
  | item :: rest =>
      if invalid_item item then mret (inl (bad_request "Invalid item data"))
      else
        let pid := default "" (Item.productId item) in
        let q := default 0 (Item.quantity item) in
        productDoc ← products_get pid;
        match productDoc with
        | None => mret (inl (bad_request ("Product not found: " +:+ pid)))
        | Some product =>
            match product_problem product q with
            | Some msg => mret (inl (bad_request msg))
            | None =>
                validate_items rest
                  (mkBuilt (lineItems acc ++ [line_item pid q product])
                           (orderItems acc ++ [order_item pid q product])
                           (hasPhysical acc
                            || String.eqb (Product.category product) "physical"))
            end
        end
  end.

Definition sessionConfig (b : Built) (success cancel : string) : SessionConfig.t :=
  SessionConfig.mk ["card"] (lineItems b) "payment" success cancel "required"
    (orderItems b)
    (if hasPhysical b then Some ["US"] else None).

(** The handler that [corsHandler] runs; the CORS headers it adds and the
    console logging are left out.  The result is the response sent. *)
Definition createCheckoutSession (req : CheckoutRequest) : M World Response :=
  if String.eqb (method req) "OPTIONS" then mret (mkResponse 204 (Send ""))
  else if negb (String.eqb (method req) "POST") then
    mret (mkResponse 405 (Json_error "Method not allowed"))
  else
    try_catch
      (match items req with
       | None | Some [] => mret (bad_request "No items provided")
       | Some l =>
           if negb (truthy_opt_string (successUrl req))
              || negb (truthy_opt_string (cancelUrl req)) then
             mret (bad_request "Missing redirect URLs")
           else
             checked ← validate_items l (mkBuilt [] [] false);
             match checked with
             | inl rejection => mret rejection
             | inr built =>
                 session ← sessions_create
                   (sessionConfig built (default "" (successUrl req))
                      (default "" (cancelUrl req)));
                 mret (res_json (Json_sessionUrl session))
             end
       end)
      (λ _, mret (mkResponse 500 (Json_error "Failed to create checkout session"))).

(** *** stripeWebhook *)

Record WebhookRequest := mkWebhookRequest
  { rawBody : string; stripe_signature : option string }.

Definition JSON_parse (m : Meta) : completion (list OrderItem.t) :=
  match m with
  | MetaMissing => Normal []
  | MetaInvalid => Throw "SyntaxError"
  | MetaItems l => Normal l
  end.

Definition new_order (session : Session.t) (orderItems : list OrderItem.t) : Order.t :=
  Order.mk (Session.id session) (Session.payment_intent session)
    (email_or_empty (Session.customer_email session))
    (default "" (Session.customer_name session))
    orderItems
    (Session.amount_subtotal session)
    (default 0 (Session.amount_shipping session))
    (Session.amount_total session)
    "paid"
    (Session.shipping_address session) (Session.shipping_name session)
    None None false "".

(** The body of the inventory transaction for one order item, on the
    document [productRef]; the subtraction is one of doubles. *)
Definition decrement (productRef : string) (item : OrderItem.t)
    (ps : gmap string Product.t) : gmap string Product.t :=
  match ps !! productRef with
  | Some product =>
      let currentInventory := Product.inventory product in
      if negb (currentInventory =? -1) then
        <[productRef :=
            Product.with_inventory
              (number_sub currentInventory (OrderItem.quantity item)) product]> ps
      else ps
  | None => ps
  end.

Definition decrement_inventory (item : OrderItem.t) : M World unit :=
  if String.eqb (OrderItem.category item) "physical" then
    productRef ← lift (doc (OrderItem.productId item));
    runTransaction productRef (decrement productRef item)
  else mret tt.

Definition is_digital (i : OrderItem.t) : bool :=
  String.eqb (OrderItem.category i) "digital".

Definition link_of (item : OrderItem.t) (productDoc : option Product.t)
  : list (string * string) :=
  match productDoc with
  | Some product =>
      if truthy_opt_string (Product.digitalFileUrl product) then
        [(OrderItem.name item, default "" (Product.digitalFileUrl product))]
      else []
  | None => []
  end.

(** The loop that fills [downloadLinks]. *)
Fixpoint fetch_links (l : list OrderItem.t) (downloadLinks : list (string * string))
  : M World (list (string * string)) :=
  match l with
  | [] => mret downloadLinks
  | item :: rest =>
      productDoc ← products_get (OrderItem.productId item);
      fetch_links rest (downloadLinks ++ link_of item productDoc)
  end.

Definition confirmation (session : Session.t) (orderRef : nat)
    (orderItems : list OrderItem.t) : Mail.t :=
  Mail.mk (Session.customer_email session)
    (OrderConfirmation orderRef
       (if truthy_opt_string (Session.customer_name session)
        then default "" (Session.customer_name session) else "there")
       orderItems (Session.amount_total session)).

Definition downloads (session : Session.t) (links : list (string * string)) : Mail.t :=
  Mail.mk (Session.customer_email session) (DigitalDownloads links).

Definition nonempty {A} (l : list A) : bool :=
  match l with [] => false | _ => true end.

(** The [try] block of the [checkout.session.completed] case. *)
Definition process_completed (session : Session.t) : M World unit :=
  orderItems ← lift (JSON_parse (Session.metadata_orderItems session));
  orderRef ← orders_add (new_order session orderItems);
  for_of orderItems decrement_inventory;;
  mail_add (confirmation session orderRef orderItems);;
  let digitalItems := List.filter is_digital orderItems in
  if nonempty digitalItems then
    downloadLinks ← fetch_links digitalItems [];
    if nonempty downloadLinks then
      mail_add (downloads session downloadLinks);;
      order_update orderRef true
    else mret tt
  else mret tt.

Section Webhook.

(** [stripe.webhooks.constructEvent(rawBody, sig, secret)] of the Stripe
    library: the verified event, or the message of the error it throws. *)
Variable constructEvent : string → option string → string → string + Event.t.
Variable webhookSecret : string.

(** The cases [payment_intent.payment_failed] and [default] of the switch
    only write to the console, as does the [catch] of the first case. *)
Definition stripeWebhook (req : WebhookRequest) : M World Response :=
  match constructEvent (rawBody req) (stripe_signature req) webhookSecret with
  | inl message => mret (mkResponse 400 (Send ("Webhook Error: " +:+ message)))
  | inr event =>
      (if String.eqb (Event.type event) "checkout.session.completed" then
         try_catch (process_completed (Event.object event)) (λ _, mret tt)
       else mret tt);;
      mret (res_json Json_received)
  end.

(** Deliveries handled one after another. *)
Fixpoint deliver (reqs : list WebhookRequest) (w : World) : World :=
  match reqs with
  | [] => w
  | req :: rest => deliver rest (stripeWebhook req w).1
  end.

End Webhook.

(** *** Vocabulary for the properties of [createCheckoutSession] *)

(** No outage ahead: every remote call goes through. *)
Definition calm (w : World) : Prop := outages w = [].

(** The documents are as they were (calls may have been journalled). *)
Definition same_documents (w w' : World) : Prop :=
  products w' = products w ∧ orders w' = orders w
  ∧ mail w' = mail w ∧ sessions w' = sessions w.

(** The fields of an item the function reads. *)
Definition asked (item : Item.t) : option string * option Z :=
  (Item.productId item, Item.quantity item).

(** Two requests that agree on everything the function reads. *)
Definition same_order (r1 r2 : CheckoutRequest) : Prop :=
  method r1 = method r2
  ∧ successUrl r1 = successUrl r2
  ∧ cancelUrl r1 = cancelUrl r2
  ∧ fmap (M := option) (fmap (M := list) asked) (items r1)
    = fmap (M := option) (fmap (M := list) asked) (items r2).

(** The document a path points to, when the client takes the path and
    there is such a document. *)
Definition located (ps : gmap string Product.t) (path : string) : option Product.t :=
  match doc path with
  | Normal productRef => ps !! productRef
  | Throw _ => None
  end.

(** A line item built from the catalog document of the item's product. *)
Definition priced_from (ps : gmap string Product.t) (item : Item.t) (li : LineItem.t)
  : Prop :=
  ∃ pid q product,
    Item.productId item = Some pid ∧ Item.quantity item = Some q
    ∧ located ps pid = Some product
    ∧ LineItem.unit_amount li = Product.price product
    ∧ LineItem.name li = Product.name product
    ∧ LineItem.firebaseProductId li = pid
    ∧ LineItem.quantity li = q.


Definition no_items (req : CheckoutRequest) : Prop :=
  items req = None ∨ items req = Some [].






(** *** Sample data *)

Definition candle : Product.t :=
  Product.mk "Candle" 1200 "physical" 2 true ["candle-1.png"; "candle-2.png"] None.
Definition guide : Product.t :=
  Product.mk "Guide" 900 "digital" (-1) true [] (Some "https://files.example/guide.pdf").
Definition soap : Product.t :=
  Product.mk "Old Soap" 500 "physical" 4 false [] None.

Definition shelf : gmap string Product.t :=
  <["c1" := candle]> (<["g1" := guide]> (<["s1" := soap]> ∅)).

Definition shop : World := mkWorld shelf [] [] [] [] [].

Definition post (l : list Item.t) : CheckoutRequest :=
  mkCheckoutRequest "POST" (Some l)
    (Some "https://shop.example/?checkout=success")
    (Some "https://shop.example/?checkout=cancelled").

Definition want (pid : string) (q : Z) : Item.t := Item.mk (Some pid) (Some q) None None.

(** *** Vocabulary for the properties of [stripeWebhook] *)

(** A computation across which the relation [R] between worlds holds. *)
Definition preserves (R : World → World → Prop) {A} (m : M World A) : Prop :=
  ∀ w, R w (m w).1.

(** A product whose inventory is the unlimited sentinel is found unchanged. *)
Definition unlimited_kept (w w' : World) : Prop :=
  ∀ id product,
    products w !! id = Some product →
    Product.inventory product = -1 →
    products w' !! id = Some product.

(** The inventory transactions an order asks for: one per physical item. *)
Definition is_physical (i : OrderItem.t) : bool :=
  String.eqb (OrderItem.category i) "physical".

(** The items the inventory loop gets through: it is left, by the error
    the client throws, at the first physical item whose product id is not
    a path to a document. *)
Fixpoint reached (l : list OrderItem.t) : list OrderItem.t :=
  match l with
  | [] => []
  | item :: rest =>
      if is_physical item then
        match doc (OrderItem.productId item) with
        | Normal _ => item :: reached rest
        | Throw _ => []
        end
      else item :: reached rest
  end.

(** The product ids of the items are paths to documents: the client
    gives a reference for each. *)
Definition referable (l : list OrderItem.t) : Prop :=
  ∀ item, item ∈ l →
          ∃ productRef, doc (OrderItem.productId item) = Normal productRef.

(** The effect of one item on the catalog when its transaction goes
    through. *)
Definition apply_item (ps : gmap string Product.t) (item : OrderItem.t)
  : gmap string Product.t :=
  if String.eqb (OrderItem.category item) "physical" then
    match doc (OrderItem.productId item) with
    | Normal productRef => decrement productRef item ps
    | Throw _ => ps
    end
  else ps.

Definition apply_items (l : list OrderItem.t) (ps : gmap string Product.t)
  : gmap string Product.t :=
  foldl apply_item ps l.

(** The effect of one order on the catalog when every transaction goes
    through: the loop over the order items, on the products alone. *)
Definition apply_order (l : list OrderItem.t) (ps : gmap string Product.t)
  : gmap string Product.t :=
  apply_items (reached l) ps.

(** The quantity of the product of document [id] bought as a physical item
    in a list of order items. *)
Fixpoint demand (id : string) (l : list OrderItem.t) : Z :=
  match l with
  | [] => 0
  | item :: rest =>
      (if String.eqb (OrderItem.category item) "physical"
          && match doc (OrderItem.productId item) with
             | Normal productRef => String.eqb productRef id
             | Throw _ => false
             end
       then OrderItem.quantity item else 0)
      + demand id rest
  end.

(** The order items the inventory loop of a delivery gets through: those
    of the metadata of a verified [checkout.session.completed] event that
    it reaches, none otherwise. *)
Definition order_of
    (constructEvent : string → option string → string → string + Event.t)
    (secret : string) (req : WebhookRequest) : list OrderItem.t :=
  match constructEvent (rawBody req) (stripe_signature req) secret with
  | inl _ => []
  | inr event =>
      if String.eqb (Event.type event) "checkout.session.completed" then
        match JSON_parse (Session.metadata_orderItems (Event.object event)) with
        | Normal l => reached l
        | Throw _ => []
        end
      else []
  end.


(** All the order items the inventory loops of a sequence of deliveries
    get through. *)
Definition ordered
    (constructEvent : string → option string → string → string + Event.t)
    (secret : string) (reqs : list WebhookRequest) : list OrderItem.t :=
  concat (order_of constructEvent secret <$> reqs).


(** The download links of an order, read off the catalog. *)
Definition links_in (ps : gmap string Product.t) (l : list OrderItem.t)
  : list (string * string) :=
  concat ((λ item, link_of item (located ps (OrderItem.productId item)))
            <$> List.filter is_digital l).

(** Some digital item of the order has a download URL on its product. *)
Definition has_download (ps : gmap string Product.t) (l : list OrderItem.t) : Prop :=
  ∃ item product url,
    item ∈ l
    ∧ OrderItem.category item = "digital"
    ∧ located ps (OrderItem.productId item) = Some product
    ∧ Product.digitalFileUrl product = Some url
    ∧ url ≠ "".

(** Journal entries other than a written download-links message and an
    update of an order. *)
Definition early (e : Entry) : Prop :=
  match call e with
  | OrderUpdate _ => False
  | MailAdd m => is_downloads m = false ∨ ok e = false
  | _ => True
  end.

(** A stretch of the reconciliation before the download-links message:
    orders and download URLs are as they were, and what was journalled
    and mailed is of the early kind. *)
Definition early_step (w w' : World) : Prop :=
  orders w' = orders w
  ∧ (∀ id, Product.digitalFileUrl <$> products w' !! id
           = Product.digitalFileUrl <$> products w !! id)
  ∧ (∃ calls, journal w' = journal w ++ calls ∧ Forall early calls)
  ∧ (∃ news, mail w' = mail w ++ news
             ∧ Forall (λ m, is_downloads m = false) news).


(** What a delivery of a paid session with order items [l] leaves behind,
    as far as the digital delivery goes: [calls] and [news] are the remote
    calls journalled and the messages queued by this delivery, and the
    order it creates, if any, is the one at position [length (orders w)]. *)
Definition delivery_verdict
    (session : Session.t) (l : list OrderItem.t) (w w' : World) : Prop :=
  let ref := length (orders w) in
  let message := downloads session (links_in (products w) l) in
  ∃ calls news,
    journal w' = journal w ++ calls
    ∧ mail w' = mail w ++ news
    ∧ ((∃ went, mkEntry (OrderUpdate ref) went ∈ calls)
       ↔ has_download (products w) l ∧ mkEntry (MailAdd message) true ∈ calls)
    ∧ ((∃ o, orders w' !! ref = Some o ∧ Order.digitalDelivered o = true)
       ↔ mkEntry (OrderUpdate ref) true ∈ calls)
    ∧ (mkEntry (MailAdd message) true ∈ calls → message ∈ news)
    ∧ (¬ has_download (products w) l →
       Forall (λ m, is_downloads m = false) news
       ∧ ∀ o, orders w' !! ref = Some o → Order.digitalDelivered o = false).


(** The Stripe library when it accepts every request as the event [ev]. *)
Definition accepts (ev : Event.t) : string → option string → string → string + Event.t :=
  λ _ _ _, inr ev.

Definition incense : Product.t :=
  Product.mk "Incense" 700 "physical" (-1) true [] None.

Definition paid (id : string) (l : list OrderItem.t) : Event.t :=
  Event.mk "checkout.session.completed"
    (Session.mk id "pi_1" (Address "ann@example.org") (Some "Ann") (MetaItems l)
       2400 None 2400 None None).

Definition bought (pid name : string) (price q : Z) (category : string) : OrderItem.t :=
  OrderItem.mk pid name price q category.

Definition delivery : WebhookRequest := mkWebhookRequest "{..}" (Some "t=1,v1=abc").


(** The Stripe library telling two paid sessions apart by the request body. *)
Definition two_sessions (first second : Event.t)
  : string → option string → string → string + Event.t :=
  λ body _ _, if String.eqb body "evt_1" then inr first else inr second.


Definition audio : Product.t :=
  Product.mk "Meditation Audio" 1500 "digital" (-1) true [] None.


(** *** Vocabulary for further properties of the two functions *)

(** An order item built from the catalog document of the item's product. *)
Definition snapshot_of (ps : gmap string Product.t) (item : Item.t) (oi : OrderItem.t)
  : Prop :=
  ∃ pid q product,
    Item.productId item = Some pid ∧ Item.quantity item = Some q
    ∧ located ps pid = Some product
    ∧ oi = OrderItem.mk pid (Product.name product) (Product.price product) q
             (Product.category product).



(** A product document without its inventory. *)
Definition description (p : Product.t)
  : string * Z * string * bool * list string * option string :=
  (Product.name p, Product.price p, Product.category p, Product.isActive p,
   Product.images p, Product.digitalFileUrl p).

(** The catalog has the same documents, each as it was apart from its
    inventory, and the payment sessions are as they were. *)
Definition same_catalog_shape (w w' : World) : Prop :=
  (∀ id, description <$> products w' !! id = description <$> products w !! id)
  ∧ sessions w' = sessions w.

(** A delivery there is nothing to reconcile for: the signature does not
    verify, the event is of another type, or the metadata of the paid
    session does not parse. *)
Definition nothing_to_reconcile
    (constructEvent : string → option string → string → string + Event.t)
    (secret : string) (req : WebhookRequest) : Prop :=
  match constructEvent (rawBody req) (stripe_signature req) secret with
  | inl _ => True
  | inr event =>
      Event.type event ≠ "checkout.session.completed"
      ∨ JSON_parse (Session.metadata_orderItems (Event.object event))
        = Throw "SyntaxError"
  end.


(** The Stripe library when it refuses every request. *)
Definition refuses : string → option string → string → string + Event.t :=
  λ _ _ _, inl "No signatures found matching the expected signature for payload".

(** The session [createCheckoutSession] sets up for two candles. *)
Definition candle_session : SessionConfig.t :=
  SessionConfig.mk ["card"] [line_item "c1" 2 candle] "payment"
    "https://shop.example/?checkout=success"
    "https://shop.example/?checkout=cancelled" "required"
    [order_item "c1" 2 candle] (Some ["US"]).

(** The shop after the candle has become dearer. *)
Definition dearer_shop : World :=
  mkWorld (<["c1" := Product.mk "Candle" 1500 "physical" 2 true [] None]> shelf)
    [] [] [] [] [].

End Client.

End Functions.

(* ===================================================================== *)
(** ** src/functions/index.js: the SMS and e-mail blasts                  *)
(* ===================================================================== *)

Module Blast.

(** A document of the [subscribers] collection; a flag that is absent is
    [false], as the equality filters of the queries see it. *)
Module Subscriber.
Record t := mk
  { email : option string; phone : option string; smsOptIn : bool; active : bool }.
End Subscriber.

(** [twilioClient.messages.create({ body, from, to })] *)
Module Sms.
Record t := mk { body : string; from : option string; to : string }.
End Sms.

(** [mailTransport.sendMail({ from, to, subject, html })] *)
Module Letter.
Record t := mk { from : string; to : string; subject : string; html : string }.
End Letter.

(** [functions.config()]: the Twilio client exists when [account_sid] is
    set, the mail transport when the Gmail address is. *)
Record Config := mkConfig
  { twilio_account_sid : option string;
    twilio_from_number : option string;
    gmail_email : option string }.

(** The subscribers, what the two providers were handed, and the outages
    to come: the head of [outages] tells whether the next call to the
    store or to a provider is rejected. *)
Record Desk := mkDesk
  { subscribers : list Subscriber.t;
    texts : list Sms.t;
    letters : list Letter.t;
    outages : list bool }.

Definition with_outages (rest : list bool) (d : Desk) : Desk :=
  mkDesk (subscribers d) (texts d) (letters d) rest.

(** Awaiting a store or provider call. *)
Definition await : M Desk unit :=
  λ d, match outages d with
       | true :: rest => (with_outages rest d, Throw "unavailable")
       | false :: rest => (with_outages rest d, Normal tt)
       | [] => (d, Normal tt)
       end.

Definition messages_create (sms : Sms.t) : M Desk unit :=
  await;;
  modify (λ d, mkDesk (subscribers d) (texts d ++ [sms]) (letters d) (outages d)).

Definition sendMail (letter : Letter.t) : M Desk unit :=
  await;;
  modify (λ d, mkDesk (subscribers d) (texts d) (letters d ++ [letter]) (outages d)).

(** [db.collection("subscribers").where(..).get()] with the filter of the
    query, the documents in the order of the collection. *)
Definition subscribers_where (keep : Subscriber.t → bool) : M Desk (list Subscriber.t) :=
  await;;
  gets (λ d, List.filter keep (subscribers d)).

Record Request := mkRequest
  { method : string;
    authorization : option string;
    message : option string;
    subject : option string;
    htmlBody : option string }.

Inductive Body :=
| Json_error (error : string)
| Json_counts (sent failed total : nat)
| Send (text : string).

Record Response := mkResponse { status : Z; body : Body }.

(** [authHeader.startsWith("Bearer ") ? authHeader.slice(7) : null] with
    [authHeader = req.headers.authorization || ""]; [None] is [null]. *)
Definition bearer_token (req : Request) : option string :=
  let authHeader := default "" (authorization req) in
  if String.prefix "Bearer " authHeader
  then Some (String.substring 7 (String.length authHeader - 7) authHeader)
  else None.

Section Handlers.

(** [String.prototype.trim], the configuration, and
    [admin.auth().verifyIdToken], which resolves ([true]) or rejects. *)
Variable trim : string → string.
Variable config : Config.
Variable verifyIdToken : string → bool.

Definition blank (o : option string) : bool :=
  match o with
  | Some s => negb (truthy_string s) || negb (truthy_string (trim s))
  | None => true
  end.

(** The [for (const sub of recipients)] loop with its two counters; each
    send has its own [try] / [catch]. *)
Fixpoint send_each {A} (send : A → M Desk unit) (recipients : list A)
    (sent failed : nat) : M Desk (nat * nat) :=
  match recipients with
  | [] => mret (sent, failed)
  | sub :: rest =>
      went ← try_catch (send sub;; mret true) (λ _, mret false);
      if went : bool then send_each send rest (S sent) failed
      else send_each send rest sent (S failed)
  end.

Definition twilio_not_configured : string :=
  "Twilio not configured. Run: firebase functions:config:set "
  +:+ "twilio.account_sid twilio.auth_token twilio.from_number".

Definition gmail_not_configured : string :=
  "Gmail not configured. Run: firebase functions:config:set gmail.email="
  +:+ String Cart.dquote ("you@gmail.com" +:+ String Cart.dquote
       (" gmail.app_password=" +:+ String Cart.dquote
          ("xxxx xxxx xxxx xxxx" +:+ String Cart.dquote ""))).

Definition sms_for (message : string) (sub : Subscriber.t) : Sms.t :=
  Sms.mk (trim message) (twilio_from_number config)
    (trim (default "" (Subscriber.phone sub))).

Definition sms_recipient (sub : Subscriber.t) : bool :=
  Subscriber.smsOptIn sub && Subscriber.active sub.

Definition sendSmsBlast (req : Request) : M Desk Response :=
  if String.eqb (method req) "OPTIONS" then mret (mkResponse 204 (Send ""))
  else if negb (String.eqb (method req) "POST") then
    mret (mkResponse 405 (Json_error "Method not allowed"))
  else
    match bearer_token req with
    | None => mret (mkResponse 401 (Json_error "Unauthorized"))
    | Some token =>
        if negb (truthy_string token) then
          mret (mkResponse 401 (Json_error "Unauthorized"))
        else if negb (verifyIdToken token) then
          mret (mkResponse 401 (Json_error "Invalid token"))
        else if blank (message req) then
          mret (mkResponse 400 (Json_error "Message is required"))
        else if negb (truthy_opt_string (twilio_account_sid config)) then
          mret (mkResponse 500 (Json_error twilio_not_configured))
        else
          try_catch
            (snap ← subscribers_where sms_recipient;
             let recipients :=
               List.filter (λ s, negb (blank (Subscriber.phone s))) snap in
             counts ← send_each (λ sub, messages_create
                                          (sms_for (default "" (message req)) sub))
                        recipients 0%nat 0%nat;
             mret (mkResponse 200
                     (Json_counts counts.1 counts.2 (length recipients))))
            (λ _, mret (mkResponse 500 (Json_error "Failed to send SMS blast")))
    end.

Definition letter_for (subject html : string) (sub : Subscriber.t) : Letter.t :=
  Letter.mk
    (String Cart.dquote ("Ethereal Balance" +:+ String Cart.dquote
       (" <" +:+ default "" (gmail_email config) +:+ ">")))
    (trim (default "" (Subscriber.email sub))) (trim subject) html.

Definition sendEmailBlast (req : Request) : M Desk Response :=
  if String.eqb (method req) "OPTIONS" then mret (mkResponse 204 (Send ""))
  else if negb (String.eqb (method req) "POST") then
    mret (mkResponse 405 (Json_error "Method not allowed"))
  else
    match bearer_token req with
    | None => mret (mkResponse 401 (Json_error "Unauthorized"))
    | Some token =>
        if negb (truthy_string token) then
          mret (mkResponse 401 (Json_error "Unauthorized"))
        else if negb (verifyIdToken token) then
          mret (mkResponse 401 (Json_error "Invalid token"))
        else if negb (truthy_opt_string (gmail_email config)) then
          mret (mkResponse 500 (Json_error gmail_not_configured))
        else if negb (truthy_opt_string (subject req))
                || negb (truthy_opt_string (htmlBody req)) then
          mret (mkResponse 400 (Json_error "Subject and body are required"))
        else
          try_catch
            (snap ← subscribers_where Subscriber.active;
             let recipients :=
               List.filter (λ s, negb (blank (Subscriber.email s))) snap in
             counts ← send_each (λ sub, sendMail
                                          (letter_for (default "" (subject req))
                                             (default "" (htmlBody req)) sub))
                        recipients 0%nat 0%nat;
             mret (mkResponse 200
                     (Json_counts counts.1 counts.2 (length recipients))))
            (λ _, mret (mkResponse 500 (Json_error "Failed to send email blast")))
    end.

End Handlers.

(** *** Vocabulary for the properties of the blasts *)

(** A request that does not get past the authentication. *)
Definition unauthenticated (verifyIdToken : string → bool) (req : Request) : Prop :=
  match bearer_token req with
  | None => True
  | Some token => token = "" ∨ verifyIdToken token = false
  end.

(** A library [trim] for the examples: it takes spaces off both ends. *)
Fixpoint trim_left (s : string) : string :=
  match s with
  | String a s' => if Ascii.eqb a " "%char then trim_left s' else s
  | EmptyString => EmptyString
  end.

Definition trim_spaces (s : string) : string :=
  String.rev (trim_left (String.rev (trim_left s))).


(** The subscribers a blast goes to, in the order of the collection. *)
Definition sms_audience (trim : string → string) (d : Desk) : list Subscriber.t :=
  List.filter (λ s, negb (blank trim (Subscriber.phone s)))
    (List.filter sms_recipient (subscribers d)).

Definition email_audience (trim : string → string) (d : Desk) : list Subscriber.t :=
  List.filter (λ s, negb (blank trim (Subscriber.email s)))
    (List.filter Subscriber.active (subscribers d)).

(** The statuses a blast answers with. *)
Definition blast_status (s : Z) : Prop :=
  s = 200 ∨ s = 204 ∨ s = 400 ∨ s = 401 ∨ s = 405 ∨ s = 500.

(** Sample data. *)
Definition readers : list Subscriber.t :=
  [Subscriber.mk (Some "ann@example.org") (Some " +15550001 ") true true;
   Subscriber.mk (Some "bob@example.org") (Some "   ") true true;
   Subscriber.mk (Some "cy@example.org") (Some "+15550003") false true;
   Subscriber.mk None (Some "+15550004") true true;
   Subscriber.mk (Some "eve@example.org") (Some "+15550005") true false].

Definition office : Config :=
  mkConfig (Some "AC123") (Some "+15559999") (Some "shop@example.org").

Definition signed_in (token : string) : bool := String.eqb token "good-token".

Definition announce : Request :=
  mkRequest "POST" (Some "Bearer good-token") (Some " New class on Friday ")
    (Some "News") (Some "<p>New class on Friday</p>").

End Blast.


(* ===================================================================== *)
(** ** src/js/shop.js                                                     *)
(* ===================================================================== *)

Module Shop.

(** A product of [allProducts]: what [Cart.addItem] reads of it, and the
    inventory the quantity control of the modal goes by ([None] when the
    document has no such field). *)
Record Listing := mkListing
  { product : Cart.Product.t; inventory : option Z }.

(** The state the handlers of the page read and write.  [modalQuantity] is
    the number shown by the element of that id, [None] when the modal has
    no such element; [checkout] is [params.get('checkout')] of the query
    string; [orderSuccessBanner] tells whether the banner is active,
    [None] when the page has no banner.  [loadProducts], the rendering
    functions and the visual feedback of the buttons are left out. *)
Record Page := mkPage
  { allProducts : list Listing;
    currentModalProduct : option Listing;
    modalQuantity : option Z;
    storage : Cart.localStorage;
    checkout : option string;
    orderSuccessBanner : option bool }.

Definition with_modal (p : option Listing) (shown : option Z) (pg : Page) : Page :=
  mkPage (allProducts pg) p shown (storage pg) (checkout pg) (orderSuccessBanner pg).

Definition with_storage (ls : Cart.localStorage) (pg : Page) : Page :=
  mkPage (allProducts pg) (currentModalProduct pg) (modalQuantity pg) ls
    (checkout pg) (orderSuccessBanner pg).

(** A call into the cart module, which works on [localStorage]. *)
Definition on_storage {A} (m : M Cart.localStorage A) : M Page A :=
  λ pg, let '(ls, r) := m (storage pg) in (with_storage ls pg, r).

Definition has_id (pid : string) (p : Listing) : Prop :=
  Cart.Product.id (product p) = pid.

Global Instance has_id_dec pid p : Decision (has_id pid p).
Proof. unfold has_id. apply _. Defined.

(** [allProducts.find(p => p.id === productId)] *)
Definition find_product (productId : string) : M Page (option Listing) :=
  gets (λ pg, snd <$> list_find (has_id productId) (allProducts pg)).

Definition category (p : Listing) : string := Cart.Product.category (product p).

(** The modal is rendered with the quantity control, showing 1, unless the
    product is a service. *)
Definition openProductModal (productId : string) : M Page unit :=
  found ← find_product productId;
  match found with
  | None => mret tt
  | Some p =>
      modify (with_modal (Some p)
                (if negb (String.eqb (category p) "service") then Some 1 else None))
  end.

Definition closeProductModal : M Page unit :=
  modify (λ pg, with_modal None (modalQuantity pg) pg).

(** [updateModalQuantity(delta)]; without the element, reading its text
    throws.  The sum is one of doubles. *)
Definition updateModalQuantity (delta : Z) : M Page unit :=
  el ← gets modalQuantity;
  match el with
  | None => throw "TypeError"
  | Some shown =>
      let qty := number_add shown delta in
      let qty := if qty <? 1 then 1 else qty in
      let qty := if 99 <? qty then 99 else qty in
      current ← gets currentModalProduct;
      let qty :=
        match current with
        | Some p =>
            match inventory p with
            | Some stock =>
                if String.eqb (category p) "physical" && negb (stock =? -1)
                   && (stock <? qty)
                then stock else qty
            | None => qty
            end
        | None => qty
        end in
      modify (λ pg, with_modal (currentModalProduct pg) (Some qty) pg)
  end.

(** [now] is the value of [Date.now()] during the call. *)
Definition addToCartFromModal (now : Z) : M Page unit :=
  current ← gets currentModalProduct;
  match current with
  | None => mret tt
  | Some p =>
      el ← gets modalQuantity;
      let qty := default 1 el in
      on_storage (Cart.addItem now (product p) (Some qty))
  end.

Definition addToCartFromShop (now : Z) (productId : string) : M Page unit :=
  found ← find_product productId;
  match found with
  | None => mret tt
  | Some p => on_storage (Cart.addItem now (product p) (Some 1))
  end.

(** [handleCheckoutReturn]: the URL it leaves has no query string. *)
Definition handleCheckoutReturn : M Page unit :=
  param ← gets checkout;
  if from_option (String.eqb "success") false param then
    on_storage Cart.clear;;
    modify (λ pg, mkPage (allProducts pg) (currentModalProduct pg) (modalQuantity pg)
                    (storage pg) None ((λ _, true) <$> orderSuccessBanner pg))
  else mret tt.

(** What the visitor can set off on the page: the handlers above, and the
    two callbacks the buttons of the cart drawer are rendered with. *)
Inductive event :=
| OpenProductModal (productId : string)
| CloseProductModal
| UpdateModalQuantity (delta : Z)
| AddToCartFromModal
| AddToCartFromShop (productId : string)
| HandleCheckoutReturn
| DrawerUpdateQuantity (productId : string) (quantity : Z)
| DrawerRemoveItem (productId : string).

Definition handle (now : Z) (e : event) : M Page unit :=
  match e with
  | OpenProductModal pid => openProductModal pid
  | CloseProductModal => closeProductModal
  | UpdateModalQuantity delta => updateModalQuantity delta
  | AddToCartFromModal => addToCartFromModal now
  | AddToCartFromShop pid => addToCartFromShop now pid
  | HandleCheckoutReturn => handleCheckoutReturn
  | DrawerUpdateQuantity pid q => on_storage (Cart.updateQuantity now pid q)
  | DrawerRemoveItem pid => on_storage (Cart.removeItem now pid)
  end.

(** Handlers run one after another, each with the clock reading of its
    time; an error thrown by one is reported and does not stop the next. *)
Definition dispatch (events : list (Z * event)) : M Page unit :=
  for_of events (λ '(now, e), try_catch (handle now e) (λ _, mret tt)).

(** *** Vocabulary for the properties of the shop page *)

(** A physical product with a finite inventory [stock]. *)
Definition limited (p : Listing) (stock : Z) : Prop :=
  category p = "physical" ∧ inventory p = Some stock ∧ stock ≠ -1.

(** No limited product is out of stock. *)
Definition stocked (p : Listing) : Prop :=
  ∀ stock, limited p stock → 1 ≤ stock.

(** The modal shows a listed product, if any, and a quantity of at least
    one, if any. *)
Definition modal_ok (pg : Page) : Prop :=
  (∀ p, currentModalProduct pg = Some p → p ∈ allProducts pg)
  ∧ (∀ q, modalQuantity pg = Some q → 1 ≤ q).

Definition listed (pg : Page) (pid : string) : option Listing :=
  snd <$> list_find (has_id pid) (allProducts pg).

(** Sample listings: a candle with two in stock, one that is sold out, and
    a reading, which is a service. *)
Definition candle : Listing :=
  mkListing (Cart.Product.mk "c1" "Candle" 1200 "physical" ["candle.png"]) (Some 2).
Definition reading : Listing :=
  mkListing (Cart.Product.mk "r1" "Reading" 6000 "service" []) None.

Definition front (l : list Listing) : Page := mkPage l None None ∅ None (Some false).

End Shop.

(* ===================================================================== *)
(** ** src/js/checkout.js                                                 *)
(* ===================================================================== *)

Module Checkout.

Record Button := mkButton { textContent : string; disabled : bool }.

(** Where the tab is: on the site, or on the payment page of a session. *)
Inductive Location :=
| Site
| SessionUrl (session : nat).

(** The browser tab and what it talks to.  [network_error] is the message
    of the error [fetch] rejects with when the request does not get
    through, [None] when it does; [backend] is the world the function
    behind [FUNCTIONS_BASE_URL] runs in. *)
Record Tab := mkTab
  { storage : Cart.localStorage;
    cartCheckoutBtn : option Button;
    origin : string;
    pathname : string;
    href : Location;
    alerts : list string;
    network_error : option string;
    backend : Functions.World }.

Definition with_button (b : Button) (t : Tab) : Tab :=
  mkTab (storage t) (Some b) (origin t) (pathname t) (href t) (alerts t)
    (network_error t) (backend t).

Definition with_href (l : Location) (t : Tab) : Tab :=
  mkTab (storage t) (cartCheckoutBtn t) (origin t) (pathname t) l (alerts t)
    (network_error t) (backend t).

Definition with_backend (w : Functions.World) (t : Tab) : Tab :=
  mkTab (storage t) (cartCheckoutBtn t) (origin t) (pathname t) (href t) (alerts t)
    (network_error t) w.

Definition alert (message : string) (t : Tab) : Tab :=
  mkTab (storage t) (cartCheckoutBtn t) (origin t) (pathname t) (href t)
    (alerts t ++ [message]) (network_error t) (backend t).

Definition on_storage {A} (m : M Cart.localStorage A) : M Tab A :=
  λ t, let '(ls, r) := m (storage t) in
       (mkTab ls (cartCheckoutBtn t) (origin t) (pathname t) (href t) (alerts t)
          (network_error t) (backend t), r).

(** The element of [items] made of a cart line. *)
Definition item_of (item : Cart.CartItem.t) : Functions.Item.t :=
  Functions.Item.mk (Some (Cart.CartItem.productId item))
    (Some (Cart.CartItem.quantity item)) None None.

(** The request [fetch] is called with. *)
Definition checkout_request (origin pathname : string) (cart : Cart.cart)
  : Functions.CheckoutRequest :=
  Functions.mkCheckoutRequest "POST"
    (Some (item_of <$> Cart.items cart))
    (Some ((origin +:+ pathname) +:+ "?checkout=success"))
    (Some ((origin +:+ pathname) +:+ "?checkout=cancelled#shop")).

Section Client.

Context `{Functions.Firestore}.

(** [fetch(url, request)]: the function runs on the request and its
    response comes back, unless the network fails. *)
Definition fetch (req : Functions.CheckoutRequest) : M Tab Functions.Response :=
  λ t, match network_error t with
       | Some message => (t, Throw message)
       | None =>
           let '(w, r) := Functions.createCheckoutSession req (backend t) in
           (with_backend w t, r)
       end.

(** [response.ok] *)
Definition response_ok (r : Functions.Response) : bool :=
  (200 <=? Functions.status r) && (Functions.status r <=? 299).

(** The object [response.json()] resolves to, as far as it is read. *)
Record Json := mkJson { error : option string; sessionUrl : option nat }.

(** [response.json()]; a body sent as text is the empty body of the
    answer to OPTIONS, which does not parse. *)
Definition response_json (r : Functions.Response) : completion Json :=
  match Functions.body r with
  | Functions.Json_error e => Normal (mkJson (Some e) None)
  | Functions.Json_sessionUrl session => Normal (mkJson None (Some session))
  | Functions.Json_received => Normal (mkJson None None)
  | Functions.Send _ => Throw "SyntaxError"
  end.

Definition newline : string := String (Ascii.ascii_of_nat 10) EmptyString.

Definition apology : string :=
  "Something went wrong with checkout. Please try again." +:+ newline +:+ newline.

(** [now] is the value of [Date.now()] during the call.  On a value
    without items, [cart.items.length] throws; without the button, reading
    its text throws; both before the [try]. *)
Definition initiateCheckout (now : Z) : M Tab unit :=
  read ← on_storage (Cart.getCart now);
  match read with
  | Cart.Stray => throw "TypeError"
  | Cart.Stored cart =>
      if (length (Cart.items cart) =? 0)%nat then mret tt
      else
        el ← gets cartCheckoutBtn;
        match el with
        | None => throw "TypeError"
        | Some btn =>
            let originalText := textContent btn in
            modify (with_button (mkButton "Processing..." true));;
            try_catch
              (here ← gets (λ t, (origin t, pathname t));
               response ← fetch (checkout_request here.1 here.2 cart);
               (if negb (response_ok response) then
                  let errorData :=
                    match response_json response with
                    | Normal data => data
                    | Throw _ => mkJson None None
                    end in
                  throw (if truthy_opt_string (error errorData)
                         then default "" (error errorData) else "Checkout failed")
                else mret tt);;
               data ← lift (response_json response);
               match sessionUrl data with
               | Some url => modify (with_href (SessionUrl url))
               | None => throw "No checkout URL received"
               end)
              (λ message,
                 modify (alert (apology +:+ message));;
                 modify (with_button (mkButton originalText false)))
        end
  end.

(** *** Vocabulary for the properties of the checkout *)





(** A tab on the site with a cart of two candles at a stale price and a
    guide, talking to the sample shop. *)
Definition basket : Cart.localStorage :=
  <[Cart.KEY := Cart.CartJson
      (Cart.mkCart
         [Cart.CartItem.mk "c1" "Candle" 100 2 "physical" "candle-1.png";
          Cart.CartItem.mk "g1" "Guide" 900 1 "digital" ""] 7)]> ∅.

Definition visitor (ls : Cart.localStorage) : Tab :=
  mkTab ls (Some (mkButton "Checkout" false)) "https://shop.example" "/"
    Site [] None Functions.shop.

End Client.

End Checkout.


(* ===================================================================== *)
(** ** Running monadic code                                               *)
(* ===================================================================== *)

Module JSProps.

Lemma bind_eq {S A B} (m : M S A) (k : A → M S B) s :
  (m ≫= k) s
  = match m s with
    | (s', Normal a) => k a s'
    | (s', Throw e) => (s', Throw e)
    end.
Proof. reflexivity. Qed.

Lemma bind_run {S A B} (m : M S A) (k : A → M S B) s s' a :
  m s = (s', Normal a) → (m ≫= k) s = k a s'.
Proof. intros H. rewrite bind_eq. by rewrite H. Qed.

Lemma bind_throw {S A B} (m : M S A) (k : A → M S B) s s' e :
  m s = (s', Throw e) → (m ≫= k) s = (s', Throw e).
Proof. intros H. rewrite bind_eq. by rewrite H. Qed.

Lemma try_catch_eq {S A} (body : M S A) (handler : string → M S A) s :
  try_catch body handler s
  = match body s with
    | (s', Normal a) => (s', Normal a)
    | (s', Throw e) => handler e s'
    end.
Proof. reflexivity. Qed.

Lemma round_double_safe z : Z.abs z ≤ 2 ^ 53 → round_double z = z.
Proof.
  unfold round_double. intros Hz.
  by destruct (Z.leb_spec (Z.abs z) (2 ^ 53)); [|lia].
Qed.

Lemma round_double_positive z : 1 ≤ z → 1 ≤ round_double z.
Proof.
  intros Hz. unfold round_double.
  destruct (Z.leb_spec (Z.abs z) (2 ^ 53)) as [|Hbig]; [done|].
  rewrite Z.abs_eq in * by lia. rewrite Z.sgn_pos by lia.
  pose proof (Z.log2_spec z ltac:(lia)) as [Hlow _].
  assert (Hk : 53 ≤ Z.log2 z).
  { apply Z.log2_le_pow2; lia. }
  set (k := Z.log2 z) in *.
  assert (Hulp : 0 < 2 ^ (k - 52)) by (apply Z.pow_pos_nonneg; lia).
  assert (Hle : 2 ^ (k - 52) ≤ z).
  { etrans; [|exact Hlow]. apply Z.pow_le_mono_r; lia. }
  assert (Hq : 1 ≤ z / 2 ^ (k - 52)).
  { apply Z.div_le_lower_bound; lia. }
  set (q := z / 2 ^ (k - 52)) in *. set (ulp := 2 ^ (k - 52)) in *.
  destruct (_ <? _); [nia|]. destruct (_ <? _); [nia|]. destruct (Z.even q); nia.
Qed.

Lemma round_double_opp z : round_double (- z) = - round_double z.
Proof.
  unfold round_double. rewrite Z.abs_opp, Z.sgn_opp.
  destruct (_ <=? _); [done|]. by rewrite Z.mul_opp_l.
Qed.

Lemma round_double_negative z : z < 0 → round_double z < 0.
Proof.
  intros Hz. pose proof (round_double_positive (- z) ltac:(lia)) as Hpos.
  rewrite round_double_opp in Hpos. lia.
Qed.

Lemma number_add_safe a b : Z.abs (a + b) ≤ 2 ^ 53 → number_add a b = a + b.
Proof. apply round_double_safe. Qed.

Lemma number_sub_safe a b : Z.abs (a - b) ≤ 2 ^ 53 → number_sub a b = a - b.
Proof. apply round_double_safe. Qed.

Lemma number_mul_safe a b : Z.abs (a * b) ≤ 2 ^ 53 → number_mul a b = a * b.
Proof. apply round_double_safe. Qed.

End JSProps.
Import JSProps.

(* ===================================================================== *)
(** ** Properties of the cart                                             *)
(* ===================================================================== *)

Module CartProps.
Import Cart.

Lemma getCart_run now ls : getCart now ls = (ls, Normal (parsed now ls)).
Proof.
  unfold getCart, parsed, try_catch, mbind, M_bind, bind, gets. simpl.
  destruct (ls !! KEY) as [[| |c|]|]; reflexivity.
Qed.

Lemma parsed_cart now ls : cart_record ls → parsed now ls = Stored (stored now ls).
Proof.
  unfold cart_record, parsed, stored.
  destruct (ls !! KEY) as [[| |c|]|]; done.
Qed.

Lemma parsed_stray now ls : ¬ cart_record ls → parsed now ls = Stray.
Proof.
  unfold cart_record, parsed. intros Hstray.
  destruct (ls !! KEY) as [[| |c|]|]; try done; by destruct Hstray.
Qed.

Lemma cart_record_dec ls : cart_record ls ∨ ¬ cart_record ls.
Proof.
  unfold cart_record. destruct (ls !! KEY) as [[| |c|]|]; try (by left).
  right. intros Hne. by apply Hne.
Qed.

Lemma stray_lines ls : ¬ cart_record ls → lines ls = [].
Proof.
  unfold cart_record, lines. intros Hstray.
  destruct (ls !! KEY) as [[| |c|]|]; try done. by destruct Hstray.
Qed.

Lemma lines_cart_record ls : lines ls ≠ [] → cart_record ls.
Proof.
  intros Hne. destruct (cart_record_dec ls) as [|Hstray]; [done|].
  by apply stray_lines in Hstray.
Qed.

Lemma stored_items now ls : items (stored now ls) = lines ls.
Proof.
  unfold stored, lines. destruct (ls !! KEY) as [[| |c|]|]; reflexivity.
Qed.

Lemma saveCart_run now c ls :
  saveCart now c ls = (<[KEY := CartJson (mkCart (items c) now)]> ls, Normal tt).
Proof. reflexivity. Qed.

Lemma lines_saved now c (ls : localStorage) :
  lines (<[KEY := CartJson (mkCart (items c) now)]> ls) = items c.
Proof. unfold lines. by rewrite lookup_insert_eq. Qed.

Lemma saved_record now c (ls : localStorage) :
  cart_record (<[KEY := CartJson (mkCart (items c) now)]> ls).
Proof. unfold cart_record. by rewrite lookup_insert_eq. Qed.

Lemma cleared_record (ls : localStorage) : cart_record (delete KEY ls).
Proof. unfold cart_record. by rewrite lookup_delete_eq. Qed.

(** Reading the cart at the start of an operation. *)
Ltac read_cart now ls Hrec :=
  rewrite (bind_run _ _ _ _ _ (getCart_run now ls)), (parsed_cart now ls Hrec).

Ltac read_stray now ls Hstray :=
  rewrite (bind_run _ _ _ _ _ (getCart_run now ls)), (parsed_stray now ls Hstray).

Lemma addItem_run now p q ls :
  cart_record ls →
  ∃ ls', addItem now p q ls = (ls', Normal tt)
         ∧ lines ls' = added p (default 1 q) (lines ls)
         ∧ cart_record ls'.
Proof.
  intros Hrec. unfold addItem. read_cart now ls Hrec.
  unfold added. rewrite stored_items.
  destruct (list_find _ (lines ls)) as [[k existing]|];
    rewrite saveCart_run; eexists; (split; [reflexivity|]);
    (split; [|apply saved_record]);
    by rewrite lines_saved; simpl; rewrite ?stored_items.
Qed.

Lemma removeItem_run now pid ls :
  cart_record ls →
  ∃ ls', removeItem now pid ls = (ls', Normal tt)
         ∧ lines ls' = filter (λ i, ¬ is_line pid i) (lines ls)
         ∧ cart_record ls'.
Proof.
  intros Hrec. unfold removeItem. read_cart now ls Hrec.
  rewrite saveCart_run. eexists; split; [reflexivity|].
  split; [|apply saved_record].
  by rewrite lines_saved; simpl; rewrite stored_items.
Qed.

Lemma updateQuantity_run now pid q ls :
  cart_record ls →
  ∃ ls', updateQuantity now pid q ls = (ls', Normal tt)
         ∧ lines ls' = updated pid q (lines ls)
         ∧ cart_record ls'.
Proof.
  intros Hrec. unfold updateQuantity. read_cart now ls Hrec.
  unfold updated. rewrite stored_items.
  destruct (list_find _ (lines ls)) as [[k item]|].
  - case_bool_decide.
    + by apply removeItem_run.
    + rewrite saveCart_run. eexists; split; [reflexivity|].
      split; [|apply saved_record]. by rewrite lines_saved.
  - by exists ls.
Qed.

Lemma clear_run ls :
  ∃ ls', clear ls = (ls', Normal tt) ∧ lines ls' = [] ∧ cart_record ls'.
Proof.
  eexists; split; [reflexivity|]. split; [|apply cleared_record].
  unfold lines. by rewrite lookup_delete_eq.
Qed.

(** On a record that holds a value without items, the operations that
    read the cart throw and leave storage as it was. *)
Lemma addItem_stray now p q ls :
  ¬ cart_record ls → addItem now p q ls = (ls, Throw "TypeError").
Proof. intros Hstray. unfold addItem. by read_stray now ls Hstray. Qed.

Lemma removeItem_stray now pid ls :
  ¬ cart_record ls → removeItem now pid ls = (ls, Throw "TypeError").
Proof. intros Hstray. unfold removeItem. by read_stray now ls Hstray. Qed.

Lemma updateQuantity_stray now pid q ls :
  ¬ cart_record ls → updateQuantity now pid q ls = (ls, Throw "TypeError").
Proof. intros Hstray. unfold updateQuantity. by read_stray now ls Hstray. Qed.

Lemma added_ok p q l : 1 ≤ q → quantities_ok l → quantities_ok (added p q l).
Proof.
  intros Hq Hl. unfold added, quantities_ok in *.
  destruct (list_find _ l) as [[k existing]|] eqn:Hfind.
  - apply list_find_Some in Hfind as (Hk & _ & _).
    apply Forall_insert; [done|]. simpl.
    pose proof (Forall_lookup_1 _ _ _ _ Hl Hk) as Hex. simpl in Hex.
    apply round_double_positive. lia.
  - apply Forall_app; split; [done|]. by apply Forall_singleton.
Qed.

Lemma removed_ok pid l :
  quantities_ok l → quantities_ok (filter (λ i, ¬ is_line pid i) l).
Proof.
  intros Hl. apply Forall_forall. intros i Hi.
  apply list_elem_of_filter in Hi as [_ Hi].
  by apply (proj1 (Forall_forall _ _) Hl).
Qed.

Lemma updated_ok pid q l : quantities_ok l → quantities_ok (updated pid q l).
Proof.
  intros Hl. unfold updated.
  destruct (list_find _ l) as [[k item]|]; [|done].
  case_bool_decide; [by apply removed_ok|].
  apply Forall_insert; [done|]. simpl. lia.
Qed.


(** On a record without items an operation throws and changes nothing,
    except [clear], which removes the record. *)
Lemma run_op_stray now o ls :
  ¬ cart_record ls →
  run_op now o ls = (ls, Throw "TypeError")
  ∨ ∃ ls', run_op now o ls = (ls', Normal tt) ∧ lines ls' = [] ∧ cart_record ls'.
Proof.
  intros Hstray. destruct o as [p q|pid q|pid|]; simpl.
  - left. by apply addItem_stray.
  - left. by apply updateQuantity_stray.
  - left. by apply removeItem_stray.
  - right. apply clear_run.
Qed.



(** The round trip of the cart: two candles added, the cart read back
    has one line of quantity 2; the line removed, the count is 0. *)
Example cart_round_trip :
  let ls := (addItem 1 candle (Some 2) ∅).1 in
  (CartItem.productId <$> lines ls, CartItem.quantity <$> lines ls) = (["p1"], [2])
  ∧ (getCount 3 (removeItem 2 "p1" ls).1).2 = Normal 0.
Proof. by vm_compute. Qed.




End CartProps.

(* ===================================================================== *)
(** ** Properties of the checkout validator                               *)
(* ===================================================================== *)

Module ValidatorProps.
Import Functions.

Ltac run_primitive :=
  unfold mbind, M_bind, bind, remote, gets, modify, mret, M_ret, ret; simpl.

Lemma same_documents_refl w : same_documents w w.
Proof. by repeat split. Qed.

Lemma same_documents_trans w1 w2 w3 :
  same_documents w1 w2 → same_documents w2 w3 → same_documents w1 w3.
Proof. intros (?&?&?&?) (?&?&?&?). repeat split; congruence. Qed.

Lemma remote_calm c w :
  calm w → remote c w = (record c true [] w, Normal tt).
Proof. unfold calm, remote. by intros ->. Qed.

Lemma calm_record c went w : calm (record c went [] w).
Proof. done. Qed.

Lemma sessions_create_any cfg w :
  ∃ w1 r, sessions_create cfg w = (w1, r)
          ∧ (∀ n, r = Normal n →
                  n = length (sessions w)
                  ∧ sessions w1 = sessions w ++ [cfg]
                  ∧ products w1 = products w).
Proof.
  unfold sessions_create. run_primitive.
  destruct (outages w) as [|[] rest]; simpl; eexists _, _;
    (split; [reflexivity|]); intros n [= <-]; done.
Qed.

Lemma invalid_item_asked i j : asked i = asked j → invalid_item i = invalid_item j.
Proof. unfold asked, invalid_item. by intros [= -> ->]. Qed.

Lemma valid_item_fields item :
  invalid_item item = false →
  ∃ pid q, Item.productId item = Some pid ∧ Item.quantity item = Some q
           ∧ pid ≠ "" ∧ 1 ≤ q.
Proof.
  unfold invalid_item. destruct item as [[pid|] [q|] ? ?]; simpl; try done.
  - intros H. apply orb_false_iff in H as [H Hq].
    apply orb_false_iff in H as [Hp _].
    exists pid, q. repeat split; [|lia].
    intros ->. done.
  - intros H. apply orb_false_iff in H as [H _].
    apply orb_false_iff in H as [_ H]. done.
Qed.








Section Validator.

Context `{Firestore}.



(** A read of the catalog: through a path that is not one to a document
    nothing is called. *)
Lemma products_get_eq id w :
  products_get id w
  = match doc id with
    | Normal productRef =>
        match remote (ProductGet productRef) w with
        | (w1, Normal _) => (w1, Normal (products w1 !! productRef))
        | (w1, Throw e) => (w1, Throw e)
        end
    | Throw e => (w, Throw e)
    end.
Proof.
  unfold products_get, lift. rewrite bind_eq.
  destruct (doc id) as [productRef|e]; [|done].
  rewrite bind_eq. by destruct (remote _ w) as [w1 [[]|e]].
Qed.

Lemma products_get_throws id e w :
  doc id = Throw e → products_get id w = (w, Throw e).
Proof. intros Hdoc. by rewrite products_get_eq, Hdoc. Qed.

Lemma products_get_calm id productRef w :
  calm w →
  doc id = Normal productRef →
  products_get id w
  = (record (ProductGet productRef) true [] w, Normal (products w !! productRef)).
Proof.
  intros Hc Hdoc. by rewrite products_get_eq, Hdoc, (remote_calm _ _ Hc).
Qed.

Lemma products_get_any id w :
  ∃ w1 r, products_get id w = (w1, r)
          ∧ same_documents w w1
          ∧ (∀ d, r = Normal d → d = located (products w) id).
Proof.
  rewrite products_get_eq. unfold located.
  destruct (doc id) as [productRef|e].
  - unfold remote. destruct (outages w) as [|[] rest]; simpl; eexists _, _;
      (split; [reflexivity|]); (split; [by repeat split|]);
      intros d [= <-]; done.
  - exists w, (Throw e). split; [done|]. split; [apply same_documents_refl|done].
Qed.

Lemma validate_items_asked l1 l2 acc w :
  asked <$> l1 = asked <$> l2 → validate_items l1 acc w = validate_items l2 acc w.
Proof.
  revert l2 acc w. induction l1 as [|i l1 IH]; intros [|j l2] acc w Heq; try done.
  simpl in Heq. injection Heq as Hp Hq Hl. simpl.
  rewrite (invalid_item_asked i j) by (unfold asked; congruence).
  rewrite Hp, Hq.
  destruct (invalid_item j); [done|].
  rewrite !bind_eq. destruct (products_get _ w) as [w1 [[product|]|e]]; try done.
  destruct (product_problem _ _); [done|]. by apply IH.
Qed.

Lemma createCheckoutSession_same_order r1 r2 w :
  same_order r1 r2 → createCheckoutSession r1 w = createCheckoutSession r2 w.
Proof.
  intros (Hm & Hs & Hc & Hi). unfold createCheckoutSession.
  rewrite Hm, Hs, Hc.
  destruct (String.eqb _ _); [done|]. destruct (negb _); [done|].
  rewrite !try_catch_eq.
  destruct (items r1) as [l1|], (items r2) as [l2|]; try done.
  simpl in Hi. injection Hi as Hi.
  destruct l1 as [|i1 l1], l2 as [|i2 l2]; try done.
  destruct (_ || _); [done|].
  rewrite !bind_eq. by rewrite (validate_items_asked _ _ _ _ Hi).
Qed.

Lemma validate_items_accepts l acc w w' built :
  validate_items l acc w = (w', Normal (inr built)) →
  same_documents w w'
  ∧ ∃ new, lineItems built = lineItems acc ++ new
           ∧ Forall2 (priced_from (products w)) l new.
Proof.
  revert acc w. induction l as [|item l IH]; intros acc w Hrun; simpl in Hrun.
  - injection Hrun as <- <-. split; [apply same_documents_refl|].
    exists []. by rewrite app_nil_r.
  - destruct (invalid_item item) eqn:Hinv; [done|].
    destruct (valid_item_fields _ Hinv) as (pid & q & Hpid & Hq & _ & _).
    rewrite Hpid, Hq in Hrun. simpl in Hrun. rewrite bind_eq in Hrun.
    destruct (products_get_any pid w) as (w1 & r & Hget & Hdocs & Hr).
    rewrite Hget in Hrun. destruct r as [[product|]|e]; try done.
    specialize (Hr _ eq_refl).
    destruct (product_problem product q); [done|].
    apply IH in Hrun as (Hdocs' & new & Hnew & Hall). simpl in Hnew.
    split; [by eapply same_documents_trans|].
    exists (line_item pid q product :: new). split.
    + by rewrite Hnew, <- app_assoc.
    + constructor.
      * by exists pid, q, product.
      * destruct Hdocs as (Hp & _). by rewrite Hp in Hall.
Qed.

Lemma validate_items_rejects l acc w w' rejection :
  validate_items l acc w = (w', Normal (inl rejection)) →
  same_documents w w' ∧ ∃ msg, rejection = bad_request msg.
Proof.
  revert acc w. induction l as [|item l IH]; intros acc w Hrun; simpl in Hrun;
    [done|].
  destruct (invalid_item item).
  { injection Hrun as <- <-. split; [apply same_documents_refl|]. by eexists. }
  rewrite bind_eq in Hrun.
  destruct (products_get_any (default "" (Item.productId item)) w)
    as (w1 & r & Hget & Hdocs & _).
  rewrite Hget in Hrun. destruct r as [[product|]|e]; try done.
  - destruct (product_problem _ _).
    + injection Hrun as <- <-. split; [done|]. by eexists.
    + apply IH in Hrun as [Hdocs' Hmsg].
      split; [by eapply same_documents_trans|done].
  - injection Hrun as <- <-. split; [done|]. by eexists.
Qed.

(** C3.  Price integrity: when [createCheckoutSession] accepts a request,
    the one session it creates has, item by item, line items whose unit
    amount and name are those of the catalog document read during
    validation; and a request that differs only in the price or name
    fields the client attached to its items gets the very same outcome
    (same session, same line items, same response). *)
Theorem price_integrity
    (req forged : CheckoutRequest) (w w' : World) (session : nat) :
  same_order req forged →
  createCheckoutSession req w = (w', Normal (res_json (Json_sessionUrl session))) →
  createCheckoutSession forged w = createCheckoutSession req w
  ∧ products w' = products w
  ∧ ∃ l cfg,
      items req = Some l
      ∧ sessions w' = sessions w ++ [cfg]
      ∧ session = length (sessions w)
      ∧ Forall2 (priced_from (products w)) l (SessionConfig.line_items cfg).
Proof.
  intros Hsame Hrun.
  split; [symmetry; by apply createCheckoutSession_same_order|].
  unfold createCheckoutSession in Hrun.
  destruct (String.eqb _ "OPTIONS"); [done|]. destruct (negb _); [done|].
  rewrite try_catch_eq in Hrun.
  destruct (items req) as [[|item l]|] eqn:Hitems; try done.
  destruct (_ || _); [done|].
  rewrite bind_eq in Hrun.
  destruct (validate_items _ _ w) as [w1 [[rej|built]|e]] eqn:Hval; try done.
  { apply validate_items_rejects in Hval as [_ [msg ->]]. done. }
  apply validate_items_accepts in Hval as ((Hp & _ & _ & Hs) & new & Hnew & Hall).
  simpl in Hnew. subst new.
  destruct (sessions_create_any (sessionConfig built (default "" (successUrl req))
              (default "" (cancelUrl req))) w1) as (w2 & r & Hcreate & Hr).
  rewrite bind_eq, Hcreate in Hrun. destruct r as [n|e]; [|done].
  injection Hrun as <- <-.
  destruct (Hr _ eq_refl) as (-> & Hs2 & Hp2).
  split; [congruence|]. eexists _, _. split; [done|].
  split; [by rewrite Hs2, Hs|]. split; [by rewrite Hs|]. done.
Qed.

End Validator.

Section PriceSample.

#[local] Existing Instance plain_client.

Lemma price_integrity_witness :
  let honest := post [want "c1" 2; want "g1" 1] in
  let forged :=
    post [Item.mk (Some "c1") (Some 2) (Some 1) (Some "Free candle");
          Item.mk (Some "g1") (Some 1) (Some 0) None] in
  createCheckoutSession forged shop = createCheckoutSession honest shop
  ∧ products (createCheckoutSession honest shop).1 = products shop
  ∧ ∃ l cfg,
      items honest = Some l
      ∧ sessions (createCheckoutSession honest shop).1 = sessions shop ++ [cfg]
      ∧ 0%nat = length (sessions shop)
      ∧ Forall2 (priced_from (products shop)) l (SessionConfig.line_items cfg).
Proof.
  intros honest forged.
  apply (price_integrity honest forged shop _ 0%nat).
  - by repeat split.
  - by vm_compute.
Defined.

End PriceSample.

Section Rejections.

Context `{Firestore}.




(** Whatever the state of the services, a POST without items is turned
    down on the spot. *)
Lemma no_items_turned_down_at_once req w :
  method req = "POST" → no_items req →
  createCheckoutSession req w = (w, Normal (bad_request "No items provided")).
Proof.
  intros Hm Hno. unfold createCheckoutSession. rewrite Hm. simpl.
  rewrite try_catch_eq. by destruct Hno as [-> | ->].
Qed.


End Rejections.

Section RejectionSamples.

#[local] Existing Instance plain_client.



End RejectionSamples.

Section BusinessRules.

Context `{Firestore}.






End BusinessRules.

Section BusinessRuleSamples.

#[local] Existing Instance plain_client.



End BusinessRuleSamples.

End ValidatorProps.

(* ===================================================================== *)
(** ** Properties of the webhook reconciler                               *)
(* ===================================================================== *)

Module WebhookProps.
Import Functions.
Import ValidatorProps.

(** *** What every run of the reconciler preserves

    A relation between worlds that is reflexive and transitive and holds
    across each elementary change holds across the whole function. *)
Section Frame.

Context `{Firestore}.

Variable R : World → World → Prop.
Hypothesis R_refl : ∀ w, R w w.
Hypothesis R_trans : ∀ w1 w2 w3, R w1 w2 → R w2 w3 → R w1 w3.
Hypothesis R_record : ∀ c went rest w, R w (record c went rest w).
Hypothesis R_orders : ∀ f w, R w (set_orders f w).
Hypothesis R_mail : ∀ f w, R w (set_mail f w).
Hypothesis R_decrement :
  ∀ productRef item w, R w (set_products (decrement productRef item) w).

Local Abbreviation preserves := (preserves R).

Lemma preserves_ret {A} (a : A) : preserves (mret a).
Proof. intros w. apply R_refl. Qed.

Lemma preserves_lift {A} (c : completion A) : preserves (lift c).
Proof. intros w. apply R_refl. Qed.

Lemma preserves_throw {A} e : preserves (throw (A := A) e).
Proof. intros w. apply R_refl. Qed.

Lemma preserves_gets {A} (f : World → A) : preserves (gets f).
Proof. intros w. apply R_refl. Qed.

Lemma preserves_bind {A B} (m : M World A) (k : A → M World B) :
  preserves m → (∀ a, preserves (k a)) → preserves (m ≫= k).
Proof.
  intros Hm Hk w. rewrite bind_eq. specialize (Hm w).
  destruct (m w) as [w1 [a|e]]; simpl in *; [|done].
  eapply R_trans; [done|apply Hk].
Qed.

Lemma preserves_try_catch {A} (body : M World A) handler :
  preserves body → (∀ e, preserves (handler e)) →
  preserves (try_catch body handler).
Proof.
  intros Hb Hh w. rewrite try_catch_eq. specialize (Hb w).
  destruct (body w) as [w1 [a|e]]; simpl in *; [done|].
  eapply R_trans; [done|apply Hh].
Qed.

Lemma preserves_for_of {A} (l : list A) (body : A → M World unit) :
  (∀ a, preserves (body a)) → preserves (for_of l body).
Proof.
  intros Hb. induction l as [|a l IH]; simpl.
  - apply preserves_ret.
  - apply preserves_bind; [apply Hb|by intros _].
Qed.

Lemma preserves_remote c : preserves (remote c).
Proof.
  intros w. unfold remote. destruct (outages w) as [|[] rest]; apply R_record.
Qed.

Lemma preserves_products_get id : preserves (products_get id).
Proof.
  apply preserves_bind; [apply preserves_lift|intros productRef].
  apply preserves_bind; [apply preserves_remote|intros _; apply preserves_gets].
Qed.

Lemma preserves_orders_add o : preserves (orders_add o).
Proof.
  apply preserves_bind; [apply preserves_remote|intros _].
  apply preserves_bind; [apply preserves_gets|intros n].
  apply preserves_bind; [intros w; apply R_orders|intros _; apply preserves_ret].
Qed.

Lemma preserves_mail_add m : preserves (mail_add m).
Proof.
  unfold mail_add. destruct (Mail.to m); [apply preserves_throw| |];
    (apply preserves_bind; [apply preserves_remote|intros _ w; apply R_mail]).
Qed.

Lemma preserves_order_update ref b : preserves (order_update ref b).
Proof.
  apply preserves_bind; [apply preserves_remote|intros _ w; apply R_orders].
Qed.

Lemma preserves_decrement_inventory item : preserves (decrement_inventory item).
Proof.
  unfold decrement_inventory. destruct (String.eqb _ _); [|apply preserves_ret].
  apply preserves_bind; [apply preserves_lift|intros productRef].
  apply preserves_bind; [apply preserves_remote|intros _ w; apply R_decrement].
Qed.

Lemma preserves_fetch_links l acc : preserves (fetch_links l acc).
Proof.
  revert acc. induction l as [|item l IH]; intros acc; simpl.
  - apply preserves_ret.
  - apply preserves_bind; [apply preserves_products_get|intros d; apply IH].
Qed.

Lemma preserves_process_completed session : preserves (process_completed session).
Proof.
  unfold process_completed.
  apply preserves_bind; [apply preserves_lift|intros orderItems].
  apply preserves_bind; [apply preserves_orders_add|intros orderRef].
  apply preserves_bind;
    [apply preserves_for_of, preserves_decrement_inventory|intros _].
  apply preserves_bind; [apply preserves_mail_add|intros _].
  destruct (nonempty _); [|apply preserves_ret].
  apply preserves_bind; [apply preserves_fetch_links|intros links].
  destruct (nonempty _); [|apply preserves_ret].
  apply preserves_bind;
    [apply preserves_mail_add|intros _; apply preserves_order_update].
Qed.

Lemma preserves_stripeWebhook constructEvent secret req :
  preserves (stripeWebhook constructEvent secret req).
Proof.
  unfold stripeWebhook. destruct (constructEvent _ _ _) as [msg|event].
  - apply preserves_ret.
  - apply preserves_bind; [|intros _; apply preserves_ret].
    destruct (String.eqb _ _); [|apply preserves_ret].
    apply preserves_try_catch;
      [apply preserves_process_completed|intros _; apply preserves_ret].
Qed.

Lemma preserves_deliver constructEvent secret reqs w :
  R w (deliver constructEvent secret reqs w).
Proof.
  revert w. induction reqs as [|req reqs IH]; intros w; simpl.
  - apply R_refl.
  - eapply R_trans; [apply preserves_stripeWebhook|apply IH].
Qed.

End Frame.

Lemma unlimited_kept_decrement productRef item w :
  unlimited_kept w (set_products (decrement productRef item) w).
Proof.
  intros id product Hid Hunl. simpl. unfold decrement.
  destruct (products w !! productRef) as [p|] eqn:Hp; [|done].
  destruct (Z.eqb_spec (Product.inventory p) (-1)) as [Hi|Hi]; simpl; [done|].
  rewrite lookup_insert_ne; [done|]. intros <-. congruence.
Qed.

Section Reconciler.

Context `{Firestore}.

Variable constructEvent : string → option string → string → string + Event.t.
Variable webhookSecret : string.

Local Abbreviation stripeWebhook := (stripeWebhook constructEvent webhookSecret).
Local Abbreviation deliver := (deliver constructEvent webhookSecret).

(** C5.  A product whose inventory is the unlimited sentinel -1 is left
    exactly as it was, inventory included, by any number of webhook
    deliveries, whatever the events, the ordered items (their category
    and quantity) and the outages met on the way. *)
Theorem unlimited_inventory_untouched
    (reqs : list WebhookRequest) (w : World) (id : string) (product : Product.t) :
  products w !! id = Some product →
  Product.inventory product = -1 →
  products (deliver reqs w) !! id = Some product
  ∧ Product.inventory product = -1.
Proof.
  intros Hid Hunl. split; [|done].
  revert id product Hid Hunl.
  apply (preserves_deliver unlimited_kept).
  - by intros w0 id product.
  - intros w1 w2 w3 H12 H23 id product Hid Hunl. eauto.
  - by intros c went rest w0 id product.
  - by intros f w0 id product.
  - by intros f w0 id product.
  - apply unlimited_kept_decrement.
Qed.

(** C2, amended.  A request whose signature fails verification is
    answered 400 with the library's message and nothing is touched; a
    verified request is always answered 200 [{received: true}], also
    when its processing threw: the error is caught and logged, and the
    provider is not asked to deliver again. *)
Theorem webhook_response (req : WebhookRequest) (w : World) :
  match constructEvent (rawBody req) (stripe_signature req) webhookSecret with
  | inl message =>
      stripeWebhook req w
      = (w, Normal (mkResponse 400 (Send ("Webhook Error: " +:+ message))))
  | inr event =>
      ∃ w', stripeWebhook req w = (w', Normal (mkResponse 200 Json_received))
  end.
Proof.
  unfold Functions.stripeWebhook.
  destruct (constructEvent _ _ _) as [message|event]; [done|].
  rewrite bind_eq.
  destruct (String.eqb _ _); [|by eexists].
  rewrite try_catch_eq.
  destruct (process_completed _ w) as [w1 [[]|e]]; by eexists.
Qed.

End Reconciler.

Section ReconcilerSamples.

#[local] Existing Instance plain_client.

Lemma unlimited_inventory_untouched_witness :
  let w := mkWorld (<["i1" := incense]> shelf) [] [] [] [] [] in
  let ev := paid "cs_1" [bought "i1" "Incense" 700 40 "physical"] in
  products w !! "i1" = Some incense
  ∧ Product.inventory incense = -1
  ∧ products (deliver (accepts ev) "whsec" [delivery; delivery; delivery] w) !! "i1"
    = Some incense
  ∧ Product.inventory incense = -1.
Proof.
  intros w ev. split; [reflexivity|]. split; [reflexivity|].
  apply (unlimited_inventory_untouched (accepts ev) "whsec"
           [delivery; delivery; delivery] w "i1" incense); reflexivity.
Defined.

(** C2 as stated fails: a verified [checkout.session.completed] event whose
    order cannot be written (the store rejects the call) is still answered
    200 [{received: true}]; no order exists afterwards. *)
Lemma processing_failure_acknowledged :
  let w := mkWorld shelf [] [] [] [true] [] in
  let ev := paid "cs_1" [bought "c1" "Candle" 1200 1 "physical"] in
  (process_completed (Event.object ev) w).2 = Throw "unavailable"
  ∧ (stripeWebhook (accepts ev) "whsec" delivery w).2
    = Normal (mkResponse 200 Json_received)
  ∧ orders (stripeWebhook (accepts ev) "whsec" delivery w).1 = []
  ∧ journal (stripeWebhook (accepts ev) "whsec" delivery w).1
    = [mkEntry OrdersAdd false].
Proof. by vm_compute. Qed.

(** The same when the order is written and the inventory transaction is
    then rejected: 200, the order stands, the candle is not taken off. *)
Example decrement_failure_acknowledged :
  let w := mkWorld shelf [] [] [] [false; true] [] in
  let ev := paid "cs_1" [bought "c1" "Candle" 1200 1 "physical"] in
  let w' := (stripeWebhook (accepts ev) "whsec" delivery w).1 in
  (stripeWebhook (accepts ev) "whsec" delivery w).2
  = Normal (mkResponse 200 Json_received)
  ∧ Order.stripeSessionId <$> orders w' = ["cs_1"]
  ∧ Product.inventory <$> products w' !! "c1" = Some 2
  ∧ ok <$> journal w' = [true; false]
  ∧ mail w' = [].
Proof. by vm_compute. Qed.

End ReconcilerSamples.

(** *** Runs without outage *)

Lemma orders_add_calm o w :
  calm w →
  orders_add o w
  = (set_orders (λ l, l ++ [o]) (record OrdersAdd true [] w),
     Normal (length (orders w))).
Proof. unfold calm, orders_add. run_primitive. by intros ->. Qed.

Lemma mail_add_calm m w :
  calm w →
  Mail.to m ≠ Undefined →
  mail_add m w = (set_mail (λ l, l ++ [m]) (record (MailAdd m) true [] w), Normal tt).
Proof.
  unfold calm, mail_add. intros Hc Hto.
  destruct (Mail.to m); [done| |]; run_primitive; by rewrite Hc.
Qed.

Lemma undefined_or_not (r : Recipient) : r = Undefined ∨ r ≠ Undefined.
Proof. destruct r; [by left|by right..]. Qed.

Lemma mail_add_undefined m w :
  Mail.to m = Undefined →
  mail_add m w = (w, Throw "Cannot use undefined as a Firestore value").
Proof. unfold mail_add. by intros ->. Qed.

Lemma order_update_calm ref b w :
  calm w →
  order_update ref b w
  = (set_orders (alter (Order.with_digitalDelivered b) ref)
       (record (OrderUpdate ref) true [] w), Normal tt).
Proof. unfold calm, order_update. run_primitive. by intros ->. Qed.

Lemma decrement_url productRef item ps id :
  Product.digitalFileUrl <$> decrement productRef item ps !! id
  = Product.digitalFileUrl <$> ps !! id.
Proof.
  unfold decrement.
  destruct (ps !! productRef) as [p|] eqn:Hp; [|done].
  destruct (negb _); [|done].
  destruct (decide (productRef = id)) as [<-|Hne].
  - by rewrite lookup_insert_eq, Hp.
  - by rewrite lookup_insert_ne.
Qed.

Lemma decrement_other productRef item ps id :
  productRef ≠ id → decrement productRef item ps !! id = ps !! id.
Proof.
  intros Hne. unfold decrement.
  destruct (ps !! productRef) as [p|]; [|done].
  destruct (negb _); [|done]. by rewrite lookup_insert_ne.
Qed.

Lemma link_of_url item d1 d2 :
  Product.digitalFileUrl <$> d1 = Product.digitalFileUrl <$> d2 →
  link_of item d1 = link_of item d2.
Proof.
  destruct d1 as [p1|], d2 as [p2|]; simpl; try done.
  intros [= ->]. done.
Qed.

Lemma link_of_nonempty item d :
  link_of item d ≠ [] ↔
  ∃ product url, d = Some product ∧ Product.digitalFileUrl product = Some url ∧ url ≠ "".
Proof.
  unfold link_of, truthy_opt_string, truthy_string. split.
  - destruct d as [product|]; [|done].
    destruct (Product.digitalFileUrl product) as [url|] eqn:Hurl; [|done].
    destruct (String.eqb_spec url ""); [done|]. intros _. by exists product, url.
  - intros (product & url & -> & -> & Hne).
    destruct (String.eqb_spec url ""); done.
Qed.

Lemma nonempty_true {A} (l : list A) : nonempty l = true ↔ l ≠ [].
Proof. by destruct l. Qed.

Section Calm.

Context `{Firestore}.

Lemma referable_nil : referable [].
Proof. intros item Hin. by apply elem_of_nil in Hin. Qed.

Lemma referable_cons item l :
  referable (item :: l)
  ↔ (∃ productRef, doc (OrderItem.productId item) = Normal productRef)
    ∧ referable l.
Proof.
  split.
  - intros Hl. split; [apply Hl; by left|]. intros i Hi. apply Hl. by right.
  - intros [Hitem Hl] i Hi. apply elem_of_cons in Hi as [->|Hi]; [done|by apply Hl].
Qed.

Lemma referable_app l1 l2 : referable (l1 ++ l2) ↔ referable l1 ∧ referable l2.
Proof.
  split.
  - intros Hl. split; intros i Hi; apply Hl, elem_of_app; [by left|by right].
  - intros [H1 H2] i Hi. apply elem_of_app in Hi as [Hi|Hi]; [by apply H1|by apply H2].
Qed.

(** The inventory loop gets through the whole order when the ids of its
    physical items are paths to documents. *)
Lemma referable_reached l : referable (List.filter is_physical l) → reached l = l.
Proof.
  induction l as [|item l IH]; [done|]. cbn [List.filter reached].
  destruct (is_physical item).
  - intros [[productRef ->] Hl]%referable_cons. by rewrite IH.
  - intros Hl. by rewrite IH.
Qed.

Lemma reached_physical l : referable (List.filter is_physical (reached l)).
Proof.
  induction l as [|item l IH]; [apply referable_nil|]. cbn [reached].
  destruct (is_physical item) eqn:Hphys.
  - destruct (doc (OrderItem.productId item)) as [productRef|e] eqn:Hdoc;
      [|apply referable_nil].
    cbn [List.filter]. rewrite Hphys. apply referable_cons.
    split; [by exists productRef|done].
  - cbn [List.filter]. by rewrite Hphys.
Qed.

Lemma apply_items_cons item l ps :
  apply_items (item :: l) ps = apply_items l (apply_item ps item).
Proof. reflexivity. Qed.

Lemma apply_items_app l1 l2 ps :
  apply_items (l1 ++ l2) ps = apply_items l2 (apply_items l1 ps).
Proof. unfold apply_items. apply foldl_app. Qed.

Lemma decrement_inventory_calm item productRef w :
  calm w →
  is_physical item = true →
  doc (OrderItem.productId item) = Normal productRef →
  decrement_inventory item w
  = (set_products (decrement productRef item)
       (record (RunTransaction productRef) true [] w), Normal tt).
Proof.
  unfold is_physical, decrement_inventory, runTransaction, lift.
  intros Hc -> Hdoc. rewrite bind_eq, Hdoc, bind_eq, (remote_calm _ _ Hc). done.
Qed.

Lemma decrement_inventory_stuck item e w :
  is_physical item = true →
  doc (OrderItem.productId item) = Throw e →
  decrement_inventory item w = (w, Throw e).
Proof.
  unfold is_physical, decrement_inventory, lift.
  intros -> Hdoc. by rewrite bind_eq, Hdoc.
Qed.

Lemma decrement_inventory_skip item w :
  is_physical item = false → decrement_inventory item w = (w, Normal tt).
Proof. unfold is_physical, decrement_inventory. by intros ->. Qed.

Lemma decrement_loop_calm l w :
  calm w →
  ∃ w' r, for_of l decrement_inventory w = (w', r)
          ∧ calm w'
          ∧ products w' = apply_order l (products w)
          ∧ orders w' = orders w ∧ mail w' = mail w ∧ sessions w' = sessions w
          ∧ (referable (List.filter is_physical l) → r = Normal tt).
Proof.
  revert w. induction l as [|item l IH]; intros w Hc.
  { exists w, (Normal tt). by repeat split. }
  cbn [for_of]. rewrite bind_eq. unfold apply_order. cbn [reached List.filter].
  destruct (is_physical item) eqn:Hphys.
  - destruct (doc (OrderItem.productId item)) as [productRef|e] eqn:Hdoc.
    + rewrite (decrement_inventory_calm _ _ _ Hc Hphys Hdoc).
      match goal with
      | |- ∃ w' r, for_of l _ ?w1 = _ ∧ _ =>
          destruct (IH w1 eq_refl) as (w' & r & -> & Hc' & Hp & Ho & Hm & Hs & Hr)
      end.
      exists w', r. split; [done|]. split; [done|].
      split.
      { rewrite Hp, apply_items_cons. unfold apply_order, apply_item.
        fold (is_physical item). by rewrite Hphys, Hdoc. }
      repeat (split; [done|]).
      intros [_ Hl]%referable_cons. by apply Hr.
    + rewrite (decrement_inventory_stuck _ _ _ Hphys Hdoc).
      exists w, (Throw e). repeat (split; [done|]).
      intros [[productRef Hok] _]%referable_cons. congruence.
  - rewrite (decrement_inventory_skip _ _ Hphys).
    destruct (IH w Hc) as (w' & r & -> & Hc' & Hp & Ho & Hm & Hs & Hr).
    exists w', r. split; [done|]. split; [done|].
    split.
    { rewrite Hp, apply_items_cons. unfold apply_order, apply_item.
      fold (is_physical item). by rewrite Hphys. }
    done.
Qed.

Lemma fetch_links_calm l acc w :
  calm w →
  ∃ w' r, fetch_links l acc w = (w', r)
          ∧ calm w' ∧ same_documents w w'
          ∧ (referable l → ∃ links, r = Normal links).
Proof.
  revert acc w. induction l as [|item l IH]; intros acc w Hc; simpl.
  - exists w, (Normal acc). split; [done|]. split; [done|].
    split; [apply same_documents_refl|]. intros _. by exists acc.
  - rewrite bind_eq.
    destruct (doc (OrderItem.productId item)) as [productRef|e] eqn:Hdoc.
    + rewrite (products_get_calm _ _ _ Hc Hdoc).
      match goal with
      | |- ∃ w' r, fetch_links _ ?acc' ?w1 = _ ∧ _ =>
          destruct (IH acc' w1 (calm_record _ _ _))
            as (w' & r & -> & Hc' & Hdocs & Hr)
      end.
      exists w', r. split; [done|]. split; [done|].
      split; [eapply same_documents_trans; [|done]; by repeat split|].
      intros [_ Hl]%referable_cons. by apply Hr.
    + rewrite (products_get_throws _ _ _ Hdoc).
      exists w, (Throw e). split; [done|]. split; [done|].
      split; [apply same_documents_refl|].
      intros [[productRef Hok] _]%referable_cons. congruence.
Qed.

Lemma located_url ps1 ps2 id :
  (∀ id, Product.digitalFileUrl <$> ps1 !! id = Product.digitalFileUrl <$> ps2 !! id) →
  Product.digitalFileUrl <$> located ps1 id = Product.digitalFileUrl <$> located ps2 id.
Proof. intros Hu. unfold located. by destruct (doc id). Qed.

Lemma apply_items_url l ps id :
  Product.digitalFileUrl <$> apply_items l ps !! id
  = Product.digitalFileUrl <$> ps !! id.
Proof.
  revert ps. induction l as [|item l IH]; intros ps; [done|].
  rewrite apply_items_cons, IH. unfold apply_item.
  destruct (String.eqb _ _); [|done].
  destruct (doc _); [apply decrement_url|done].
Qed.

Lemma apply_order_url l ps id :
  Product.digitalFileUrl <$> apply_order l ps !! id
  = Product.digitalFileUrl <$> ps !! id.
Proof. apply apply_items_url. Qed.

Lemma links_in_urls ps1 ps2 l :
  (∀ id, Product.digitalFileUrl <$> ps1 !! id = Product.digitalFileUrl <$> ps2 !! id) →
  links_in ps1 l = links_in ps2 l.
Proof.
  intros Hu. unfold links_in. f_equal.
  apply list_fmap_ext. intros _ item _. by apply link_of_url, located_url.
Qed.

Lemma fetch_links_result l acc w w' links :
  fetch_links l acc w = (w', Normal links) →
  links
  = acc ++ concat ((λ item, link_of item (located (products w) (OrderItem.productId item)))
                     <$> l).
Proof.
  revert acc w. induction l as [|item l IH]; intros acc w Hrun; simpl in Hrun.
  - injection Hrun as _ <-. simpl. by rewrite app_nil_r.
  - rewrite bind_eq in Hrun.
    destruct (products_get_any (OrderItem.productId item) w)
      as (w1 & r & Hget & (Hp & _) & Hr).
    rewrite Hget in Hrun. destruct r as [d|e]; [|done].
    rewrite (Hr d eq_refl) in Hrun.
    apply IH in Hrun. rewrite Hp in Hrun. rewrite Hrun. simpl.
    by rewrite <- app_assoc.
Qed.

Lemma links_in_nonempty ps l : links_in ps l ≠ [] ↔ has_download ps l.
Proof.
  unfold links_in, has_download. split.
  - intros Hne.
    assert (∃ item, item ∈ List.filter is_digital l
                    ∧ link_of item (located ps (OrderItem.productId item)) ≠ [])
      as (item & Hin & Hlink).
    { induction (List.filter is_digital l) as [|i f IH]; [done|].
      simpl in Hne.
      destruct (link_of i (located ps (OrderItem.productId i))) as [|x xs] eqn:Hi.
      - destruct IH as (item & Hin & Hlink); [done|].
        exists item. split; [by right|done].
      - exists i. split; [by left|]. by rewrite Hi. }
    apply list_elem_of_In, filter_In in Hin as [Hin Hdig].
    apply link_of_nonempty in Hlink as (product & url & Hp & Hurl & Hu).
    exists item, product, url. split; [by apply list_elem_of_In|].
    split; [by apply String.eqb_eq|]. done.
  - intros (item & product & url & Hin & Hcat & Hp & Hurl & Hu) Hnil.
    assert (Hf : item ∈ List.filter is_digital l).
    { apply list_elem_of_In, filter_In. split; [by apply list_elem_of_In|].
      by apply String.eqb_eq. }
    assert (Hlink : link_of item (located ps (OrderItem.productId item)) ≠ []).
    { apply link_of_nonempty. by exists product, url. }
    induction Hf as [item f|item i f Hf IH]; simpl in Hnil.
    + by apply app_eq_nil in Hnil as [? _].
    + apply app_eq_nil in Hnil as [_ Hnil]. by apply IH.
Qed.

(** A delivery with every call going through.  The order is written and
    the inventory loop runs as far as it gets; the rest is done when the
    session has a customer e-mail and the product ids of the physical and
    of the digital items are paths to documents. *)
Lemma process_completed_calm session l w :
  calm w →
  JSON_parse (Session.metadata_orderItems session) = Normal l →
  ∃ w' r b,
    process_completed session w = (w', r)
    ∧ calm w'
    ∧ products w' = apply_order l (products w)
    ∧ orders w' = orders w ++ [Order.with_digitalDelivered b (new_order session l)]
    ∧ sessions w' = sessions w
    ∧ (Session.customer_email session = Undefined → mail w' = mail w)
    ∧ (Session.customer_email session ≠ Undefined →
       referable (List.filter is_physical l) →
       referable (List.filter is_digital l) →
       r = Normal tt
       ∧ b = nonempty (links_in (products w) l)
       ∧ mail w'
         = mail w ++ confirmation session (length (orders w)) l
             :: (if nonempty (links_in (products w) l)
                 then [downloads session (links_in (products w) l)] else [])).
Proof.
  intros Hc Hparse. unfold process_completed, lift.
  rewrite bind_eq, Hparse.
  rewrite (bind_run _ _ _ _ _ (orders_add_calm _ _ Hc)).
  set (w0 := set_orders _ _).
  destruct (decrement_loop_calm l w0 eq_refl)
    as (w1 & r1 & Hrun1 & Hc1 & Hp1 & Ho1 & Hm1 & Hs1 & Hr1).
  simpl in Hp1, Ho1, Hm1, Hs1.
  rewrite bind_eq, Hrun1.
  destruct r1 as [[]|e1].
  2:{ exists w1, (Throw e1), false. repeat (split; [done|]).
      intros _ Hphys _. by specialize (Hr1 Hphys). }
  rewrite bind_eq.
  destruct (undefined_or_not (Session.customer_email session)) as [Hto|Hto].
  { rewrite (mail_add_undefined (confirmation session _ l) w1 Hto).
    eexists w1, _, false. repeat (split; [done|]). done. }
  rewrite (mail_add_calm (confirmation session _ l) w1 Hc1 Hto).
  set (w1' := set_mail _ _) in *.
  assert (Hlinks : links_in (products w1') l = links_in (products w) l).
  { apply links_in_urls. intros id. simpl. rewrite Hp1. apply apply_order_url. }
  destruct (nonempty (List.filter is_digital l)) eqn:Hdig.
  - destruct (fetch_links_calm (List.filter is_digital l) [] w1' eq_refl)
      as (w2 & r2 & Hrun2 & Hc2 & (Hp2 & Ho2 & Hm2 & Hs2) & Hr2).
    rewrite bind_eq, Hrun2. simpl in Hp2, Ho2, Hm2, Hs2.
    destruct r2 as [links|e2].
    2:{ exists w2, (Throw e2), false. split; [done|]. split; [done|].
        rewrite Hp2, Ho2, Hs2, Hp1, Ho1, Hs1. repeat (split; [done|]).
        intros _ _ Hdigital. by destruct (Hr2 Hdigital). }
    apply fetch_links_result in Hrun2.
    change (links = links_in (products w1') l) in Hrun2.
    rewrite Hlinks in Hrun2. subst links.
    destruct (nonempty (links_in (products w) l)).
    + rewrite (bind_run _ _ _ _ _ (mail_add_calm (downloads session _) _ Hc2 Hto)).
      rewrite order_update_calm by done.
      eexists _, _, true. split; [reflexivity|]. simpl.
      rewrite Hp2, Ho2, Hm2, Hs2, Hp1, Ho1, Hm1, Hs1.
      split; [done|]. split; [done|].
      split; [rewrite alter_app_r_alt by done; by rewrite Nat.sub_diag|].
      split; [done|]. split; [done|].
      intros _ _ _. by rewrite <- app_assoc.
    + exists w2, (Normal tt), false. rewrite Hp2, Ho2, Hm2, Hs2, Hp1, Ho1, Hm1, Hs1.
      by repeat split.
  - assert (Hnone : links_in (products w) l = []).
    { unfold links_in. by destruct (List.filter is_digital l). }
    rewrite Hnone. eexists _, _, false. split; [reflexivity|]. simpl.
    rewrite Hp1, Ho1, Hm1, Hs1. by repeat split.
Qed.

Lemma demand_nonneg id l :
  Forall (λ i, 0 ≤ OrderItem.quantity i) l → 0 ≤ demand id l.
Proof.
  induction 1 as [|item l Hq _ IH]; simpl; [done|].
  destruct (_ && _); lia.
Qed.

Lemma demand_app id l1 l2 : demand id (l1 ++ l2) = demand id l1 + demand id l2.
Proof. induction l1 as [|item l1 IH]; simpl; [done|]. rewrite IH. lia. Qed.

(** One item on one document: the document it is taken off, if any. *)
Lemma apply_item_cases ps item id :
  (∃ productRef,
      String.eqb (OrderItem.category item) "physical" = true
      ∧ doc (OrderItem.productId item) = Normal productRef
      ∧ productRef = id
      ∧ apply_item ps item = decrement id item ps
      ∧ demand id [item] = OrderItem.quantity item)
  ∨ (apply_item ps item !! id = ps !! id ∧ demand id [item] = 0).
Proof.
  unfold apply_item. cbn [demand].
  destruct (String.eqb (OrderItem.category item) "physical"); [|right; by simpl].
  destruct (doc (OrderItem.productId item)) as [productRef|e]; [|right; by simpl].
  destruct (String.eqb_spec productRef id) as [->|Hne].
  - left. exists id. repeat split; simpl; lia.
  - right. split; [by apply decrement_other|simpl; lia].
Qed.

Lemma demand_cons id item l : demand id (item :: l) = demand id [item] + demand id l.
Proof. cbn [demand]. lia. Qed.

(** With enough stock for everything bought, the decrements subtract the
    total quantity bought from the inventory: within the integers a double
    holds exactly, no subtraction rounds. *)
Lemma apply_items_inventory l ps id product :
  ps !! id = Some product →
  0 ≤ Product.inventory product ≤ 2 ^ 53 →
  Forall (λ i, 0 ≤ OrderItem.quantity i) l →
  demand id l ≤ Product.inventory product →
  apply_items l ps !! id
  = Some (Product.with_inventory (Product.inventory product - demand id l) product).
Proof.
  intros Hid Hinv Hq. revert ps product Hid Hinv.
  induction Hq as [|item l Hitem Hq IH]; intros ps product Hid Hinv Hdemand.
  - simpl. rewrite Hid, Z.sub_0_r. by destruct product.
  - rewrite demand_cons in Hdemand. pose proof (demand_nonneg id l Hq) as Hrest.
    rewrite apply_items_cons, demand_cons.
    destruct (apply_item_cases ps item id)
      as [(productRef & _ & _ & _ & -> & Hd)|[Hsame Hd]]; rewrite Hd in *.
    + unfold decrement. rewrite Hid.
      destruct (Z.eqb_spec (Product.inventory product) (-1)) as [?|_]; [lia|].
      simpl. rewrite number_sub_safe by lia.
      erewrite IH; [|apply lookup_insert_eq|simpl; lia|simpl; lia].
      unfold Product.with_inventory. simpl. do 2 f_equal. lia.
    + rewrite (IH _ product); [f_equal; f_equal; lia|by rewrite Hsame|done|lia].
Qed.

Lemma apply_items_unlimited l ps id product :
  ps !! id = Some product →
  Product.inventory product = -1 →
  apply_items l ps !! id = Some product.
Proof.
  revert ps. induction l as [|item l IH]; intros ps Hid Hunl; [done|].
  rewrite apply_items_cons. apply IH; [|done].
  destruct (apply_item_cases ps item id)
    as [(productRef & _ & _ & _ & -> & _)|[-> _]]; [|done].
  unfold decrement. rewrite Hid.
  by destruct (Z.eqb_spec (Product.inventory product) (-1)).
Qed.

(** An inventory below zero stays below zero. *)
Lemma apply_items_negative l ps id product :
  ps !! id = Some product →
  Product.inventory product < 0 →
  Forall (λ i, 0 ≤ OrderItem.quantity i) l →
  ∃ product',
    apply_items l ps !! id = Some product' ∧ Product.inventory product' < 0.
Proof.
  intros Hid Hneg Hq. revert ps product Hid Hneg.
  induction Hq as [|item l Hitem Hq IH]; intros ps product Hid Hneg.
  { by exists product. }
  rewrite apply_items_cons.
  destruct (apply_item_cases ps item id)
    as [(productRef & _ & _ & _ & -> & _)|[Hsame _]].
  - unfold decrement. rewrite Hid.
    destruct (negb _); [|by apply (IH _ product)].
    eapply IH; [apply lookup_insert_eq|]. simpl.
    apply round_double_negative. lia.
  - apply (IH _ product); [by rewrite Hsame|done].
Qed.

(** Without any assumption on the stock: the inventory ends at the old one
    minus the total bought, or below zero when more was bought than there
    was. *)
Lemma apply_items_outcome l ps id product :
  ps !! id = Some product →
  0 ≤ Product.inventory product ≤ 2 ^ 53 →
  Forall (λ i, 0 ≤ OrderItem.quantity i) l →
  ∃ product',
    apply_items l ps !! id = Some product'
    ∧ ((demand id l ≤ Product.inventory product
        ∧ Product.inventory product' = Product.inventory product - demand id l)
       ∨ (Product.inventory product < demand id l
          ∧ Product.inventory product' < 0)).
Proof.
  intros Hid Hinv Hq.
  destruct (Z.le_gt_cases (demand id l) (Product.inventory product)) as [Hle|Hgt].
  { eexists. split; [by apply apply_items_inventory|]. left. by split. }
  revert ps product Hid Hinv Hgt.
  induction Hq as [|item l Hitem Hq IH]; intros ps product Hid Hinv Hgt.
  { simpl in Hgt. lia. }
  rewrite demand_cons in Hgt. pose proof (demand_nonneg id l Hq) as Hrest.
  rewrite apply_items_cons, demand_cons.
  destruct (apply_item_cases ps item id)
    as [(productRef & _ & _ & _ & -> & Hd)|[Hsame Hd]]; rewrite Hd in *.
  - unfold decrement. rewrite Hid.
    destruct (Z.eqb_spec (Product.inventory product) (-1)) as [?|_]; [lia|].
    simpl negb. cbv iota.
    set (product1 := Product.with_inventory _ product).
    destruct (Z.le_gt_cases (OrderItem.quantity item) (Product.inventory product))
      as [Hfits|Hover].
    + assert (Hinv1 : Product.inventory product1
                      = Product.inventory product - OrderItem.quantity item).
      { unfold product1. simpl. apply number_sub_safe. lia. }
      destruct (IH (<[id := product1]> ps) product1)
        as (product' & Hlook & [[Hle _]|[_ Hneg]]);
        [apply lookup_insert_eq|lia|lia|lia|].
      exists product'. split; [done|]. right. split; [lia|done].
    + destruct (apply_items_negative l (<[id := product1]> ps) id product1)
        as (product' & Hlook & Hneg); [apply lookup_insert_eq| |done|].
      { unfold product1. simpl. apply round_double_negative. lia. }
      exists product'. split; [done|]. right. split; [lia|done].
  - destruct (IH (apply_item ps item) product)
      as (product' & Hlook & [[Hle _]|[_ Hneg]]);
      [by rewrite Hsame|done|lia|lia|].
    exists product'. split; [done|]. right. split; [lia|done].
Qed.

Section Deliveries.

Variable constructEvent : string → option string → string → string + Event.t.
Variable webhookSecret : string.

Local Abbreviation stripeWebhook := (stripeWebhook constructEvent webhookSecret).
Local Abbreviation deliver := (deliver constructEvent webhookSecret).
Local Abbreviation order_of := (order_of constructEvent webhookSecret).
Local Abbreviation ordered := (ordered constructEvent webhookSecret).

Lemma stripeWebhook_paid req event w :
  constructEvent (rawBody req) (stripe_signature req) webhookSecret = inr event →
  Event.type event = "checkout.session.completed" →
  stripeWebhook req w
  = ((process_completed (Event.object event) w).1,
     Normal (mkResponse 200 Json_received)).
Proof.
  intros Hev Htype. unfold Functions.stripeWebhook. rewrite Hev, Htype. simpl.
  rewrite bind_eq, try_catch_eq.
  by destruct (process_completed _ w) as [w1 [[]|e]].
Qed.

Lemma stripeWebhook_paid_calm req event l w :
  calm w →
  constructEvent (rawBody req) (stripe_signature req) webhookSecret = inr event →
  Event.type event = "checkout.session.completed" →
  JSON_parse (Session.metadata_orderItems (Event.object event)) = Normal l →
  ∃ w' b,
    stripeWebhook req w = (w', Normal (mkResponse 200 Json_received))
    ∧ calm w'
    ∧ products w' = apply_order l (products w)
    ∧ orders w'
      = orders w ++ [Order.with_digitalDelivered b (new_order (Event.object event) l)].
Proof.
  intros Hc Hev Htype Hparse.
  destruct (process_completed_calm _ _ _ Hc Hparse)
    as (w' & r & b & Hrun & Hc' & Hp & Ho & _).
  exists w', b. rewrite (stripeWebhook_paid _ _ _ Hev Htype), Hrun. done.
Qed.

(** The same for a session with a customer e-mail whose items are all
    found by their ids. *)
Lemma stripeWebhook_served_calm req event l w :
  calm w →
  constructEvent (rawBody req) (stripe_signature req) webhookSecret = inr event →
  Event.type event = "checkout.session.completed" →
  JSON_parse (Session.metadata_orderItems (Event.object event)) = Normal l →
  Session.customer_email (Event.object event) ≠ Undefined →
  referable (List.filter is_physical l) →
  referable (List.filter is_digital l) →
  orders (stripeWebhook req w).1
  = orders w ++ [Order.with_digitalDelivered
                   (nonempty (links_in (products w) l))
                   (new_order (Event.object event) l)]
  ∧ mail (stripeWebhook req w).1
    = mail w ++ confirmation (Event.object event) (length (orders w)) l
        :: (if nonempty (links_in (products w) l)
            then [downloads (Event.object event) (links_in (products w) l)]
            else []).
Proof.
  intros Hc Hev Htype Hparse Hto Hphys Hdig.
  destruct (process_completed_calm _ _ _ Hc Hparse)
    as (w' & r & b & Hrun & _ & _ & Ho & _ & _ & Hserved).
  destruct (Hserved Hto Hphys Hdig) as (_ & -> & Hm).
  rewrite (stripeWebhook_paid _ _ _ Hev Htype), Hrun. done.
Qed.

Lemma stripeWebhook_products_calm req w :
  calm w →
  calm (stripeWebhook req w).1
  ∧ products (stripeWebhook req w).1 = apply_items (order_of req) (products w).
Proof.
  intros Hc. unfold Functions.order_of.
  destruct (constructEvent _ _ _) as [msg|event] eqn:Hev.
  - unfold Functions.stripeWebhook. by rewrite Hev.
  - destruct (String.eqb_spec (Event.type event) "checkout.session.completed")
      as [Htype|Htype].
    + destruct (JSON_parse _) as [l|e] eqn:Hparse.
      * destruct (stripeWebhook_paid_calm _ _ _ _ Hc Hev Htype Hparse)
          as (w' & b & -> & Hc' & Hp & _). done.
      * unfold Functions.stripeWebhook, process_completed, lift.
        rewrite Hev, Htype. simpl.
        rewrite bind_eq, try_catch_eq, bind_eq, Hparse. done.
    + unfold Functions.stripeWebhook. rewrite Hev.
      destruct (String.eqb_spec (Event.type event) "checkout.session.completed");
        done.
Qed.

Lemma deliver_products_calm reqs w :
  calm w →
  calm (deliver reqs w)
  ∧ products (deliver reqs w) = apply_items (ordered reqs) (products w).
Proof.
  revert w. induction reqs as [|req reqs IH]; intros w Hc; [done|].
  destruct (stripeWebhook_products_calm req w Hc) as [Hc1 Hp1].
  destruct (IH _ Hc1) as [Hc' Hp'].
  split; [done|]. simpl. rewrite Hp', Hp1.
  unfold Functions.ordered. simpl. by rewrite apply_items_app.
Qed.

(** C4, amended.  The transactional decrement subtracts the purchased
    quantity from a finite inventory and has no floor of its own.  So, with
    every call going through and no negative quantity ordered: after the
    deliveries the inventory of a product that had a finite, non-negative
    inventory (an integer a double holds exactly, so at most 2^53) is at
    least 0 exactly when the quantities of it bought as a physical item
    add up to no more than that inventory, and it is then the old
    inventory minus that total. *)
Theorem inventory_nonnegative_iff_within_stock
    (reqs : list WebhookRequest) (w : World) (id : string) (product : Product.t) :
  calm w →
  products w !! id = Some product →
  0 ≤ Product.inventory product ≤ 2 ^ 53 →
  Forall (λ i, 0 ≤ OrderItem.quantity i) (ordered reqs) →
  ∃ product',
    products (deliver reqs w) !! id = Some product'
    ∧ (0 ≤ Product.inventory product'
       ↔ demand id (ordered reqs) ≤ Product.inventory product)
    ∧ (demand id (ordered reqs) ≤ Product.inventory product →
       Product.inventory product'
       = Product.inventory product - demand id (ordered reqs)).
Proof.
  intros Hc Hid Hinv Hq.
  destruct (deliver_products_calm reqs w Hc) as [_ ->].
  destruct (apply_items_outcome (ordered reqs) _ _ _ Hid Hinv Hq)
    as (product' & Hlook & Hout).
  exists product'. split; [done|]. split; [split|]; lia.
Qed.


End Deliveries.

End Calm.

Section DeliverySamples.

#[local] Existing Instance plain_client.

Lemma inventory_nonnegative_iff_within_stock_witness :
  let ev := paid "cs_1" [bought "c1" "Candle" 1200 1 "physical"] in
  let reqs := [delivery; delivery] in
  calm shop
  ∧ products shop !! "c1" = Some candle
  ∧ 0 ≤ Product.inventory candle ≤ 2 ^ 53
  ∧ Forall (λ i, 0 ≤ OrderItem.quantity i) (ordered (accepts ev) "whsec" reqs)
  ∧ ∃ product',
      products (deliver (accepts ev) "whsec" reqs shop) !! "c1" = Some product'
      ∧ (0 ≤ Product.inventory product'
         ↔ demand "c1" (ordered (accepts ev) "whsec" reqs) ≤ Product.inventory candle)
      ∧ (demand "c1" (ordered (accepts ev) "whsec" reqs) ≤ Product.inventory candle →
         Product.inventory product'
         = Product.inventory candle - demand "c1" (ordered (accepts ev) "whsec" reqs)).
Proof.
  intros ev reqs.
  assert (Hq : Forall (λ i, 0 ≤ OrderItem.quantity i) (ordered (accepts ev) "whsec" reqs)).
  { repeat constructor; simpl; lia. }
  split; [reflexivity|]. split; [reflexivity|]. split; [simpl; lia|].
  split; [exact Hq|].
  apply (inventory_nonnegative_iff_within_stock (accepts ev) "whsec" reqs shop
           "c1" candle); [reflexivity|reflexivity|simpl; lia|exact Hq].
Defined.

(** Beyond 2^53 the subtraction rounds: an inventory of 2^53 + 2 less one
    candle is 2^53, not 2^53 + 1. *)
Example decrement_rounds_beyond_2_53 :
  let plenty := Product.with_inventory (2 ^ 53 + 2) candle in
  Product.inventory
  <$> decrement "c1" (bought "c1" "Candle" 1200 1 "physical") (<["c1" := plenty]> shelf)
      !! "c1"
  = Some (2 ^ 53).
Proof. by vm_compute. Qed.

(** C4 as stated fails: two checkouts of 2 candles each are both accepted
    while the inventory is 2, both are paid, and reconciling the two
    sessions, every call succeeding, leaves the inventory at -2. *)
Lemma paid_twice_oversells :
  let checkout := post [want "c1" 2] in
  let w1 := (createCheckoutSession checkout shop).1 in
  let w2 := (createCheckoutSession checkout w1).1 in
  let first := paid "cs_1" [bought "c1" "Candle" 1200 2 "physical"] in
  let second := paid "cs_2" [bought "c1" "Candle" 1200 2 "physical"] in
  let w3 :=
    deliver (two_sessions first second) "whsec"
      [mkWebhookRequest "evt_1" (Some "t=1,v1=abc");
       mkWebhookRequest "evt_2" (Some "t=2,v1=def")] w2 in
  Product.category candle = "physical"
  ∧ Product.inventory <$> products shop !! "c1" = Some 2
  ∧ (createCheckoutSession checkout shop).2 = Normal (res_json (Json_sessionUrl 0))
  ∧ (createCheckoutSession checkout w1).2 = Normal (res_json (Json_sessionUrl 1))
  ∧ Order.stripeSessionId <$> orders w3 = ["cs_1"; "cs_2"]
  ∧ forallb ok (journal w3) = true
  ∧ Product.inventory <$> products w3 !! "c1" = Some (-2).
Proof. by vm_compute. Qed.



End DeliverySamples.

(** *** Runs under arbitrary outages: the digital delivery *)

Lemma early_step_refl w : early_step w w.
Proof.
  split; [done|]. split; [done|].
  split; exists []; by rewrite app_nil_r.
Qed.

Lemma early_step_trans w1 w2 w3 :
  early_step w1 w2 → early_step w2 w3 → early_step w1 w3.
Proof.
  intros (Ho1 & Hu1 & (c1 & Hj1 & He1) & (n1 & Hm1 & Hn1))
         (Ho2 & Hu2 & (c2 & Hj2 & He2) & (n2 & Hm2 & Hn2)).
  split; [congruence|]. split; [intros id; by rewrite Hu2|].
  split.
  - exists (c1 ++ c2). rewrite Hj2, Hj1, <- app_assoc.
    split; [done|by apply Forall_app].
  - exists (n1 ++ n2). rewrite Hm2, Hm1, <- app_assoc.
    split; [done|by apply Forall_app].
Qed.

Lemma early_step_record c went rest w :
  early (mkEntry c went) → early_step w (record c went rest w).
Proof.
  intros He. split; [done|]. split; [done|]. split.
  - exists [mkEntry c went]. split; [done|by apply Forall_singleton].
  - exists []. by rewrite app_nil_r.
Qed.

Lemma early_step_remote c :
  (∀ went, early (mkEntry c went)) → preserves early_step (remote c).
Proof.
  intros He w. unfold remote.
  destruct (outages w) as [|[] rest]; by apply early_step_record.
Qed.

Lemma early_step_decrement productRef item w :
  early_step w (set_products (decrement productRef item) w).
Proof.
  split; [done|]. split; [|split; exists []; by rewrite app_nil_r].
  intros id. apply decrement_url.
Qed.

Lemma early_step_mail_add m :
  is_downloads m = false → preserves early_step (mail_add m).
Proof.
  intros Hm w. unfold mail_add.
  destruct (Mail.to m); [apply early_step_refl| |]; run_primitive;
    (destruct (outages w) as [|[] rest]; simpl;
     [|apply early_step_record; by right|];
     (split; [done|]; split; [done|]; split;
      [exists [mkEntry (MailAdd m) true]; split; [done|];
       apply Forall_singleton; by left
      |exists [m]; split; [done|]; by apply Forall_singleton])).
Qed.

Lemma orders_add_any o w :
  ∃ rest,
    orders_add o w = (record OrdersAdd false rest w, Throw "unavailable")
    ∨ orders_add o w
      = (set_orders (λ l, l ++ [o]) (record OrdersAdd true rest w),
         Normal (length (orders w))).
Proof.
  unfold orders_add. run_primitive.
  destruct (outages w) as [|[] rest]; simpl; eexists; eauto.
Qed.

Lemma mail_add_any m w :
  mail_add m w = (w, Throw "Cannot use undefined as a Firestore value")
  ∨ ∃ rest,
      mail_add m w = (record (MailAdd m) false rest w, Throw "unavailable")
      ∨ mail_add m w
        = (set_mail (λ l, l ++ [m]) (record (MailAdd m) true rest w), Normal tt).
Proof.
  unfold mail_add. destruct (Mail.to m); [by left| |]; right; run_primitive;
    destruct (outages w) as [|[] rest]; simpl; eexists; eauto.
Qed.

Lemma order_update_any ref b w :
  ∃ rest,
    order_update ref b w = (record (OrderUpdate ref) false rest w, Throw "unavailable")
    ∨ order_update ref b w
      = (set_orders (alter (Order.with_digitalDelivered b) ref)
           (record (OrderUpdate ref) true rest w), Normal tt).
Proof.
  unfold order_update. run_primitive.
  destruct (outages w) as [|[] rest]; simpl; eexists; eauto.
Qed.

Lemma early_not_update calls ref went :
  Forall early calls → mkEntry (OrderUpdate ref) went ∉ calls.
Proof.
  intros He Hin. by apply (proj1 (Forall_forall _ _) He) in Hin.
Qed.

Lemma early_not_sent calls m :
  Forall early calls → is_downloads m = true → mkEntry (MailAdd m) true ∉ calls.
Proof.
  intros He Hm Hin. apply (proj1 (Forall_forall _ _) He) in Hin.
  destruct Hin as [Hin|Hin]; simpl in Hin; congruence.
Qed.

Lemma last_two {A} (x y z : A) (l : list A) :
  y ∈ x :: l ++ [y; z] ∧ z ∈ x :: l ++ [y; z].
Proof.
  split; apply elem_of_cons; right; apply elem_of_app; right;
    apply elem_of_cons; [by left|right]. apply elem_of_cons. by left.
Qed.

Section Outages.

Context `{Firestore}.

Lemma early_step_decrement_loop l :
  preserves early_step (for_of l decrement_inventory).
Proof.
  apply preserves_for_of; [apply early_step_refl|apply early_step_trans|].
  intros item. unfold decrement_inventory.
  destruct (String.eqb _ _); [|apply preserves_ret, early_step_refl].
  apply preserves_bind;
    [apply early_step_trans|apply preserves_lift, early_step_refl|].
  intros productRef.
  apply preserves_bind; [apply early_step_trans|by apply early_step_remote|].
  intros _ w. apply early_step_decrement.
Qed.

Lemma early_step_products_get id : preserves early_step (products_get id).
Proof.
  apply preserves_bind;
    [apply early_step_trans|apply preserves_lift, early_step_refl|].
  intros productRef.
  apply preserves_bind; [apply early_step_trans|by apply early_step_remote|].
  intros _. apply preserves_gets, early_step_refl.
Qed.

Lemma early_step_fetch_links l acc : preserves early_step (fetch_links l acc).
Proof.
  revert acc. induction l as [|item l IH]; intros acc; simpl.
  - apply preserves_ret, early_step_refl.
  - apply preserves_bind;
      [apply early_step_trans|apply early_step_products_get|intros d; apply IH].
Qed.

(** The delivery stopped, or ended, before a download-links message was
    written. *)
Lemma verdict_quiet session l w w' calls news :
  journal w' = journal w ++ calls → Forall early calls →
  mail w' = mail w ++ news → Forall (λ m, is_downloads m = false) news →
  (∀ o, orders w' !! length (orders w) = Some o → Order.digitalDelivered o = false) →
  delivery_verdict session l w w'.
Proof.
  intros Hj He Hm Hn Ho. exists calls, news.
  split; [done|]. split; [done|]. split; [|split; [|split]].
  - split.
    + intros [went Hin]. by apply early_not_update in Hin.
    + intros [_ Hin]. by apply early_not_sent in Hin.
  - split.
    + intros (o & Hlook & Hflag). apply Ho in Hlook. congruence.
    + intros Hin. by apply early_not_update in Hin.
  - intros Hin. by apply early_not_sent in Hin.
  - done.
Qed.

Lemma verdict_quiet_added session l w w1 w2 o :
  orders w1 = orders w ++ [o] → Order.digitalDelivered o = false →
  journal w1 = journal w ++ [mkEntry OrdersAdd true] →
  mail w1 = mail w →
  early_step w1 w2 →
  delivery_verdict session l w w2.
Proof.
  intros Ho Hflag Hj Hm (Ho2 & _ & (calls & Hj2 & He) & (news & Hm2 & Hn)).
  apply (verdict_quiet _ _ _ _ (mkEntry OrdersAdd true :: calls) news).
  - rewrite Hj2, Hj, <- app_assoc. done.
  - by constructor.
  - by rewrite Hm2, Hm.
  - done.
  - intros o'. rewrite Ho2, Ho, lookup_app_r, Nat.sub_diag by done.
    simpl. by intros [= <-].
Qed.

Lemma process_completed_verdict session l w :
  JSON_parse (Session.metadata_orderItems session) = Normal l →
  delivery_verdict session l w (process_completed session w).1.
Proof.
  intros Hparse. unfold process_completed, lift. rewrite bind_eq, Hparse.
  rewrite bind_eq.
  destruct (orders_add_any (new_order session l) w) as (rest0 & [Hadd|Hadd]);
    rewrite Hadd.
  { apply (verdict_quiet _ _ _ _ [mkEntry OrdersAdd false] []); simpl.
    - done.
    - by apply Forall_singleton.
    - by rewrite app_nil_r.
    - done.
    - intros o. by rewrite lookup_ge_None_2. }
  set (ref := length (orders w)).
  set (w1 := set_orders _ _).
  assert (Hquiet : ∀ w2, early_step w1 w2 → delivery_verdict session l w w2).
  { intros w2. by apply (verdict_quiet_added _ _ _ _ _ (new_order session l)). }
  rewrite bind_eq.
  pose proof (early_step_decrement_loop l w1) as H2.
  destruct (for_of l decrement_inventory w1) as [w2 [[]|e]]; simpl in H2;
    [|by apply Hquiet].
  rewrite bind_eq.
  pose proof (early_step_mail_add (confirmation session ref l) eq_refl w2) as H3.
  destruct (mail_add _ w2) as [w3 [[]|e]]; simpl in H3;
    [|apply Hquiet; by eapply early_step_trans].
  pose proof (early_step_trans _ _ _ H2 H3) as H13.
  destruct (nonempty (List.filter is_digital l)); [|by apply Hquiet].
  rewrite bind_eq.
  pose proof (early_step_fetch_links (List.filter is_digital l) [] w3) as H4.
  destruct (fetch_links _ _ w3) as [w4 [links|e]] eqn:Hfetch; simpl in H4;
    [|apply Hquiet; by eapply early_step_trans].
  pose proof (early_step_trans _ _ _ H13 H4) as H14.
  apply fetch_links_result in Hfetch. simpl in Hfetch.
  assert (Hlinks : links = links_in (products w) l).
  { rewrite Hfetch. apply (links_in_urls (products w3) (products w)).
    intros id. by destruct H13 as (_ & -> & _). }
  clear Hfetch. subst links.
  destruct (nonempty (links_in (products w) l)) eqn:Hsome; [|by apply Hquiet].
  apply nonempty_true, links_in_nonempty in Hsome.
  set (message := downloads session (links_in (products w) l)).
  rewrite bind_eq.
  destruct (mail_add_any message w4) as [Hmail|(rest5 & [Hmail|Hmail])];
    rewrite Hmail.
  { by apply Hquiet. }
  { destruct H14 as (Ho4 & _ & (calls & Hj4 & He) & (news & Hm4 & Hn)).
    apply (verdict_quiet _ _ _ _
             (mkEntry OrdersAdd true :: calls ++ [mkEntry (MailAdd message) false])
             news); simpl.
    - rewrite Hj4. simpl. by rewrite <- !app_assoc.
    - constructor; [done|]. apply Forall_app. split; [done|].
      apply Forall_singleton. by right.
    - by rewrite Hm4.
    - done.
    - intros o. rewrite Ho4. simpl.
      rewrite lookup_app_r, Nat.sub_diag by done. simpl. by intros [= <-]. }
  destruct H14 as (Ho4 & _ & (calls & Hj4 & He) & (news & Hm4 & Hn)).
  set (w5 := set_mail _ _).
  assert (Hnews : message ∈ news ++ [message]).
  { apply elem_of_app. right. by left. }
  destruct (order_update_any ref true w5) as (rest6 & [Hupd|Hupd]); rewrite Hupd.
  - exists (mkEntry OrdersAdd true :: calls
            ++ [mkEntry (MailAdd message) true; mkEntry (OrderUpdate ref) false]),
           (news ++ [message]).
    simpl. split; [rewrite Hj4; simpl; by rewrite <- !app_assoc|].
    split; [rewrite Hm4; simpl; by rewrite <- app_assoc|].
    split; [|split; [|done]].
    + split; [intros _|intros _; exists false]; [split; [done|]|];
        apply last_two.
    + split.
      * intros (o & Hlook & Hflag). rewrite Ho4 in Hlook. simpl in Hlook.
        rewrite lookup_app_r, Nat.sub_diag in Hlook by done.
        simpl in Hlook. injection Hlook as <-. done.
      * intros Hin. apply elem_of_cons in Hin as [Hin|Hin]; [done|].
        apply elem_of_app in Hin as [Hin|Hin];
          [by apply early_not_update in Hin|].
        apply elem_of_cons in Hin as [Hin|Hin]; [done|].
        apply elem_of_cons in Hin as [Hin|Hin]; [done|].
        by apply elem_of_nil in Hin.
  - exists (mkEntry OrdersAdd true :: calls
            ++ [mkEntry (MailAdd message) true; mkEntry (OrderUpdate ref) true]),
           (news ++ [message]).
    simpl. split; [rewrite Hj4; simpl; by rewrite <- !app_assoc|].
    split; [rewrite Hm4; simpl; by rewrite <- app_assoc|].
    split; [|split; [|done]].
    + split; [intros _|intros _; exists true]; [split; [done|]|];
        apply last_two.
    + split; [intros _; apply last_two|]. intros _.
      exists (Order.with_digitalDelivered true (new_order session l)).
      split; [|done]. rewrite Ho4. simpl.
      rewrite alter_app_r_alt by done. fold ref. rewrite Nat.sub_diag. simpl.
      by rewrite lookup_app_r, Nat.sub_diag.
Qed.

Section Delivery.

Variable constructEvent : string → option string → string → string + Event.t.
Variable webhookSecret : string.

Local Abbreviation stripeWebhook := (stripeWebhook constructEvent webhookSecret).

(** C10, amended.  In the delivery of a verified
    [checkout.session.completed] event, whatever outages occur: the
    reconciler issues the update that sets [digitalDelivered] to true on
    the order it created exactly when some digital item of the order has a
    [digitalFileUrl] on its product document and the download-links
    message was written successfully; the flag of that order is true
    afterwards exactly when that update went through, so only if the
    message was written, and not always then; a message written is in the
    mail collection; and when no digital item has a URL, no download-links
    message is queued and the flag of the order stays false.  With every
    call going through, a customer e-mail on the session and product ids
    of the physical and digital items that are paths to documents, the
    flag is true exactly when some digital item has a URL. *)
Theorem digital_delivery_flag
    (req : WebhookRequest) (event : Event.t) (l : list OrderItem.t) (w : World) :
  constructEvent (rawBody req) (stripe_signature req) webhookSecret = inr event →
  Event.type event = "checkout.session.completed" →
  JSON_parse (Session.metadata_orderItems (Event.object event)) = Normal l →
  let w' := (stripeWebhook req w).1 in
  let ref := length (orders w) in
  let message := downloads (Event.object event) (links_in (products w) l) in
  ∃ calls news,
    journal w' = journal w ++ calls
    ∧ mail w' = mail w ++ news
    ∧ ((∃ went, mkEntry (OrderUpdate ref) went ∈ calls)
       ↔ has_download (products w) l ∧ mkEntry (MailAdd message) true ∈ calls)
    ∧ ((∃ o, orders w' !! ref = Some o ∧ Order.digitalDelivered o = true)
       ↔ mkEntry (OrderUpdate ref) true ∈ calls)
    ∧ ((∃ o, orders w' !! ref = Some o ∧ Order.digitalDelivered o = true) →
       has_download (products w) l
       ∧ mkEntry (MailAdd message) true ∈ calls
       ∧ message ∈ news)
    ∧ (¬ has_download (products w) l →
       Forall (λ m, is_downloads m = false) news
       ∧ ∀ o, orders w' !! ref = Some o → Order.digitalDelivered o = false)
    ∧ (calm w →
       Session.customer_email (Event.object event) ≠ Undefined →
       referable (List.filter is_physical l) →
       referable (List.filter is_digital l) →
       ((∃ o, orders w' !! ref = Some o ∧ Order.digitalDelivered o = true)
        ↔ has_download (products w) l)).
Proof.
  intros Hev Htype Hparse w' ref message.
  assert (Hw' : w' = (process_completed (Event.object event) w).1).
  { unfold w'. by rewrite (stripeWebhook_paid _ _ _ _ _ Hev Htype). }
  destruct (process_completed_verdict (Event.object event) l w Hparse)
    as (calls & news & Hj & Hm & Hissue & Hflag & Hsent & Hnone).
  rewrite <- Hw' in Hj, Hm, Hflag, Hnone.
  exists calls, news. repeat (split; [done|]).
  split.
  { intros Hset. apply Hflag in Hset.
    assert (Hissued : ∃ went, mkEntry (OrderUpdate ref) went ∈ calls)
      by (by exists true).
    apply Hissue in Hissued as [Hdown Hwritten].
    split; [done|]. split; [done|by apply Hsent]. }
  split; [done|].
  intros Hc Hto Hphys Hdig.
  destruct (stripeWebhook_served_calm constructEvent webhookSecret req event l w
              Hc Hev Htype Hparse Hto Hphys Hdig) as [Ho _].
  unfold w'. rewrite Ho, lookup_app_r, Nat.sub_diag by done. simpl.
  rewrite <- links_in_nonempty, <- nonempty_true. split.
  - by intros (o & [= <-] & Hb).
  - intros Hb. eexists. split; [reflexivity|done].
Qed.

End Delivery.

End Outages.

Section DigitalSamples.

#[local] Existing Instance plain_client.

Lemma digital_delivery_flag_witness :
  let l := [bought "c1" "Candle" 1200 1 "physical"; bought "g1" "Guide" 900 1 "digital"] in
  let ev := paid "cs_7" l in
  let w' := (stripeWebhook (accepts ev) "whsec" delivery shop).1 in
  let ref := length (orders shop) in
  let message := downloads (Event.object ev) (links_in (products shop) l) in
  accepts ev (rawBody delivery) (stripe_signature delivery) "whsec" = inr ev
  ∧ Event.type ev = "checkout.session.completed"
  ∧ JSON_parse (Session.metadata_orderItems (Event.object ev)) = Normal l
  ∧ (calm shop
     ∧ Session.customer_email (Event.object ev) ≠ Undefined
     ∧ referable (List.filter is_physical l)
     ∧ referable (List.filter is_digital l))
  ∧ ∃ calls news,
      journal w' = journal shop ++ calls
      ∧ mail w' = mail shop ++ news
      ∧ ((∃ went, mkEntry (OrderUpdate ref) went ∈ calls)
         ↔ has_download (products shop) l ∧ mkEntry (MailAdd message) true ∈ calls)
      ∧ ((∃ o, orders w' !! ref = Some o ∧ Order.digitalDelivered o = true)
         ↔ mkEntry (OrderUpdate ref) true ∈ calls)
      ∧ ((∃ o, orders w' !! ref = Some o ∧ Order.digitalDelivered o = true) →
         has_download (products shop) l
         ∧ mkEntry (MailAdd message) true ∈ calls
         ∧ message ∈ news)
      ∧ (¬ has_download (products shop) l →
         Forall (λ m, is_downloads m = false) news
         ∧ ∀ o, orders w' !! ref = Some o → Order.digitalDelivered o = false)
      ∧ (calm shop →
         Session.customer_email (Event.object ev) ≠ Undefined →
         referable (List.filter is_physical l) →
         referable (List.filter is_digital l) →
         ((∃ o, orders w' !! ref = Some o ∧ Order.digitalDelivered o = true)
          ↔ has_download (products shop) l)).
Proof.
  intros l ev w' ref message. do 3 (split; [reflexivity|]).
  split.
  { split; [reflexivity|]. split; [discriminate|].
    split; intros item Hin; apply list_elem_of_singleton in Hin; subst item;
      by eexists. }
  apply (digital_delivery_flag (accepts ev) "whsec" delivery ev l shop); reflexivity.
Defined.

(** C10 as stated fails in one direction: a digital item has a download
    URL and the download-links message is written, and the flag is still
    false, because the update of the order that follows the message was
    rejected.  The customer has the links; the order says undelivered. *)
Lemma links_sent_flag_unset :
  let l := [bought "g1" "Guide" 900 1 "digital"] in
  let ev := paid "cs_7" l in
  let w := mkWorld shelf [] [] [] [false; false; false; false; true] [] in
  let w' := (stripeWebhook (accepts ev) "whsec" delivery w).1 in
  let message := downloads (Event.object ev) (links_in (products w) l) in
  has_download (products w) l
  ∧ links_in (products w) l = [("Guide", "https://files.example/guide.pdf")]
  ∧ journal w'
    = [mkEntry OrdersAdd true;
       mkEntry (MailAdd (confirmation (Event.object ev) 0 l)) true;
       mkEntry (ProductGet "g1") true;
       mkEntry (MailAdd message) true;
       mkEntry (OrderUpdate 0) false]
  ∧ mail w' = [confirmation (Event.object ev) 0 l; message]
  ∧ Order.digitalDelivered <$> orders w' = [false].
Proof.
  intros l ev w w' message. split; [|by vm_compute].
  exists (bought "g1" "Guide" 900 1 "digital"), guide, "https://files.example/guide.pdf".
  split; [by left|]. by vm_compute.
Qed.

(** Two runs of the digital delivery: a guide with a file is delivered and
    flagged; an audio product without a file gets the confirmation only
    and the order stays undelivered. *)
Example digital_item_with_file_delivered :
  let ev := paid "cs_7" [bought "g1" "Guide" 900 1 "digital"] in
  let w' := (stripeWebhook (accepts ev) "whsec" delivery shop).1 in
  Order.digitalDelivered <$> orders w' = [true]
  ∧ is_downloads <$> mail w' = [false; true].
Proof. by vm_compute. Qed.

Example digital_item_without_file_skipped :
  let w := mkWorld (<["a1" := audio]> shelf) [] [] [] [] [] in
  let ev := paid "cs_8" [bought "a1" "Meditation Audio" 1500 1 "digital"] in
  let w' := (stripeWebhook (accepts ev) "whsec" delivery w).1 in
  Order.digitalDelivered <$> orders w' = [false]
  ∧ is_downloads <$> mail w' = [false]
  ∧ call <$> journal w'
    = [OrdersAdd;
       MailAdd (confirmation (Event.object ev) 0
                  [bought "a1" "Meditation Audio" 1500 1 "digital"]);
       ProductGet "a1"].
Proof. by vm_compute. Qed.

(** A session without [customer_details]: the order is written and the
    inventory taken off, then the mail client refuses the confirmation
    with its undefined recipient before any call; nothing is mailed and the
    guide, which has a file, is not delivered.  The delivery is answered
    200. *)
Example session_without_customer_nothing_mailed :
  let l := [bought "c1" "Candle" 1200 1 "physical"; bought "g1" "Guide" 900 1 "digital"] in
  let ev :=
    Event.mk "checkout.session.completed"
      (Session.mk "cs_9" "pi_9" Undefined None (MetaItems l) 2100 None 2100 None None) in
  let run := stripeWebhook (accepts ev) "whsec" delivery shop in
  run.2 = Normal (mkResponse 200 Json_received)
  ∧ (process_completed (Event.object ev) shop).2
    = Throw "Cannot use undefined as a Firestore value"
  ∧ call <$> journal run.1 = [OrdersAdd; RunTransaction "c1"]
  ∧ Order.customerEmail <$> orders run.1 = [""]
  ∧ Order.digitalDelivered <$> orders run.1 = [false]
  ∧ Product.inventory <$> products run.1 !! "c1" = Some 1
  ∧ mail run.1 = [].
Proof. by vm_compute. Qed.

(** An order item whose product id is not a path to a document: the
    inventory loop is left there, by the error of the client; the items
    after it are not taken off and nothing is mailed. *)
Example item_off_the_path_stops_the_loop :
  let l := [bought "c1" "Candle" 1200 1 "physical";
            bought "a/b" "Stray" 100 1 "physical";
            bought "c1" "Candle" 1200 1 "physical"] in
  let ev := paid "cs_10" l in
  let run := stripeWebhook (accepts ev) "whsec" delivery shop in
  run.2 = Normal (mkResponse 200 Json_received)
  ∧ reached l = [bought "c1" "Candle" 1200 1 "physical"]
  ∧ call <$> journal run.1 = [OrdersAdd; RunTransaction "c1"]
  ∧ Product.inventory <$> products run.1 !! "c1" = Some 1
  ∧ length (orders run.1) = 1%nat
  ∧ mail run.1 = [].
Proof. by vm_compute. Qed.

End DigitalSamples.

End WebhookProps.

(* ===================================================================== *)
(** ** More on the cart: counts, totals, one line per product, escaping   *)
(* ===================================================================== *)

Module CartMore.
Import Cart.
Import CartProps.

(** *** Counting in doubles *)

Lemma pieces_cons i l : pieces (i :: l) = CartItem.quantity i + pieces l.
Proof. reflexivity. Qed.

Lemma worth_cons i l :
  worth (i :: l) = CartItem.price i * CartItem.quantity i + worth l.
Proof. reflexivity. Qed.

Lemma pieces_app l1 l2 : pieces (l1 ++ l2) = pieces l1 + pieces l2.
Proof.
  induction l1 as [|i l1 IH]; [done|].
  rewrite <- app_comm_cons, !pieces_cons, IH. lia.
Qed.

Lemma worth_app l1 l2 : worth (l1 ++ l2) = worth l1 + worth l2.
Proof.
  induction l1 as [|i l1 IH]; [done|].
  rewrite <- app_comm_cons, !worth_cons, IH. lia.
Qed.

Lemma pieces_nonneg l : Forall (λ i, 0 ≤ CartItem.quantity i) l → 0 ≤ pieces l.
Proof. induction 1 as [|i l Hi _ IH]; [done|]. rewrite pieces_cons. lia. Qed.

Lemma worth_nonneg l : unsigned l → 0 ≤ worth l.
Proof. induction 1 as [|i l [Hq Hp] _ IH]; [done|]. rewrite worth_cons. nia. Qed.

Lemma unsigned_quantities l : unsigned l → Forall (λ i, 0 ≤ CartItem.quantity i) l.
Proof. intros Hl. eapply Forall_impl; [exact Hl|]. by intros i [Hq _]. Qed.

Lemma pieces_insert l k old new :
  l !! k = Some old →
  pieces (<[k := new]> l) = pieces l - CartItem.quantity old + CartItem.quantity new.
Proof.
  intros Hk. rewrite <- (take_drop_middle l k old Hk) at 2.
  rewrite insert_take_drop by (by eapply lookup_lt_Some).
  rewrite !pieces_app, !pieces_cons. lia.
Qed.

Lemma worth_insert l k old new :
  l !! k = Some old →
  worth (<[k := new]> l)
  = worth l - CartItem.price old * CartItem.quantity old
    + CartItem.price new * CartItem.quantity new.
Proof.
  intros Hk. rewrite <- (take_drop_middle l k old Hk) at 2.
  rewrite insert_take_drop by (by eapply lookup_lt_Some).
  rewrite !worth_app, !worth_cons. lia.
Qed.

(** One line is no more than the whole. *)
Lemma pieces_line l k i :
  Forall (λ i, 0 ≤ CartItem.quantity i) l → l !! k = Some i →
  CartItem.quantity i ≤ pieces l.
Proof.
  intros Hq Hk. rewrite <- (take_drop_middle l k i Hk) in Hq |- *.
  apply Forall_app in Hq as [Hq1 Hq2]. apply Forall_cons in Hq2 as [_ Hq2].
  rewrite pieces_app, pieces_cons.
  pose proof (pieces_nonneg _ Hq1). pose proof (pieces_nonneg _ Hq2). lia.
Qed.

Lemma pieces_filter (P : CartItem.t → Prop) `{!∀ i, Decision (P i)} l :
  pieces (filter (λ i, ¬ P i) l) = pieces l - pieces (filter P l).
Proof.
  induction l as [|i l IH]; [done|].
  rewrite !filter_cons. destruct (decide (P i)) as [Hi|Hi].
  - rewrite decide_False by tauto. rewrite !pieces_cons. lia.
  - rewrite decide_True by done. rewrite !pieces_cons. lia.
Qed.

Lemma count_from (l : list CartItem.t) (a : Z) :
  Forall (λ i, 0 ≤ CartItem.quantity i) l →
  0 ≤ a → a + pieces l ≤ 2 ^ 53 →
  foldl (λ sum item, number_add sum (CartItem.quantity item)) a l = a + pieces l.
Proof.
  intros Hq. revert a. induction Hq as [|i l Hi Hq IH]; intros a Ha Hsum.
  { simpl. lia. }
  rewrite pieces_cons in Hsum. pose proof (pieces_nonneg _ Hq) as Hrest.
  cbn [foldl]. rewrite number_add_safe by lia.
  rewrite IH by lia. rewrite pieces_cons. lia.
Qed.

Lemma total_from (l : list CartItem.t) (a : Z) :
  unsigned l →
  0 ≤ a → a + worth l ≤ 2 ^ 53 →
  foldl (λ sum item,
           number_add sum (number_mul (CartItem.price item) (CartItem.quantity item)))
    a l
  = a + worth l.
Proof.
  intros Hq. revert a. induction Hq as [|i l [Hi Hp] Hq IH]; intros a Ha Hsum.
  { simpl. lia. }
  rewrite worth_cons in Hsum. pose proof (worth_nonneg _ Hq) as Hrest.
  assert (0 ≤ CartItem.price i * CartItem.quantity i) by nia.
  cbn [foldl]. rewrite number_mul_safe by lia. rewrite number_add_safe by lia.
  rewrite IH by lia. rewrite worth_cons. lia.
Qed.

(** Within 2^53 the count is the number of pieces and the total their
    worth. *)
Lemma count_exact l : countable l → count_of l = pieces l.
Proof. intros [Hq Hsum]. unfold count_of. rewrite count_from; [lia|done|lia|lia]. Qed.

Lemma total_exact l : unsigned l → worth l ≤ 2 ^ 53 → total_of l = worth l.
Proof. intros Hq Hsum. unfold total_of. rewrite total_from; [lia|done|lia|lia]. Qed.

Lemma countable_filter (P : CartItem.t → Prop) `{!∀ i, Decision (P i)} l :
  countable l → countable (filter P l).
Proof.
  intros [Hq Hsum].
  assert (Hf : Forall (λ i, 0 ≤ CartItem.quantity i) (filter P l)).
  { apply Forall_forall. intros i Hi. apply list_elem_of_filter in Hi as [_ Hi].
    by apply (proj1 (Forall_forall _ _) Hq). }
  split; [done|].
  assert (Hrest : 0 ≤ pieces (filter (λ i, ¬ P i) l)).
  { apply pieces_nonneg, Forall_forall. intros i Hi.
    apply list_elem_of_filter in Hi as [_ Hi].
    by apply (proj1 (Forall_forall _ _) Hq). }
  rewrite pieces_filter in Hrest. lia.
Qed.

Lemma getCount_run now ls :
  cart_record ls → getCount now ls = (ls, Normal (count_of (lines ls))).
Proof.
  intros Hrec. unfold getCount. read_cart now ls Hrec. by rewrite stored_items.
Qed.

Lemma getTotal_run now ls :
  cart_record ls → getTotal now ls = (ls, Normal (total_of (lines ls))).
Proof.
  intros Hrec. unfold getTotal. read_cart now ls Hrec. by rewrite stored_items.
Qed.

(** What [addItem] does to the lines when the count has room for the
    quantity added: the sum of its [+=] is exact. *)
Lemma added_pieces p q l :
  Forall (λ i, 0 ≤ CartItem.quantity i) l →
  0 ≤ q → pieces l + q ≤ 2 ^ 53 →
  Forall (λ i, 0 ≤ CartItem.quantity i) (added p q l)
  ∧ pieces (added p q l) = pieces l + q.
Proof.
  intros Hl Hq Hsum. unfold added.
  destruct (list_find _ l) as [[k existing]|] eqn:Hfind.
  - apply list_find_Some in Hfind as (Hk & _ & _).
    pose proof (pieces_line _ _ _ Hl Hk) as Hline.
    assert (Hold : 0 ≤ CartItem.quantity existing).
    { apply (proj1 (Forall_forall _ _) Hl). by eapply list_elem_of_lookup_2. }
    rewrite number_add_safe by lia. split.
    + apply Forall_insert; [done|]. simpl. lia.
    + rewrite (pieces_insert _ _ _ _ Hk). simpl. lia.
  - split.
    + apply Forall_app. split; [done|]. by apply Forall_singleton.
    + rewrite pieces_app. simpl. lia.
Qed.

Lemma added_worth p q l :
  unsigned l →
  0 ≤ q → 0 ≤ Product.price p → pieces l + q ≤ 2 ^ 53 →
  unsigned (added p q l)
  ∧ worth (added p q l) = worth l + unit_price p l * q.
Proof.
  intros Hl Hq Hp Hsum. unfold added, unit_price.
  pose proof (unsigned_quantities _ Hl) as Hquantities.
  destruct (list_find _ l) as [[k existing]|] eqn:Hfind.
  - apply list_find_Some in Hfind as (Hk & _ & _).
    pose proof (pieces_line _ _ _ Hquantities Hk) as Hline.
    assert (Hold : 0 ≤ CartItem.quantity existing ∧ 0 ≤ CartItem.price existing).
    { apply (proj1 (Forall_forall _ _) Hl). by eapply list_elem_of_lookup_2. }
    rewrite number_add_safe by lia. split.
    + apply Forall_insert; [done|]. simpl. lia.
    + rewrite (worth_insert _ _ _ _ Hk). simpl. lia.
  - split.
    + apply Forall_app. split; [done|]. by apply Forall_singleton.
    + rewrite worth_app. simpl. lia.
Qed.

Lemma added_count p q l :
  countable l → 0 ≤ q → pieces l + q ≤ 2 ^ 53 →
  count_of (added p q l) = count_of l + q.
Proof.
  intros [Hl Hbound] Hq Hsum.
  destruct (added_pieces p q l Hl Hq Hsum) as [Hl' Hpieces].
  rewrite !count_exact; [done|by split|split; [done|lia]].
Qed.

(** X1.  While the sums stay within the integers a double holds exactly
    (no negative quantity or price, and no more than 2^53 pieces, or
    cents, after the addition), [addItem] raises the count of the cart by
    the quantity added (1 when omitted) and its total by that quantity
    times the unit price, which is the price snapshot of the line already
    in the cart when the product has one, and the product's price only
    when it is new to the cart. *)
Theorem addItem_count_and_total
    (now later : Z) (p : Product.t) (q : option Z) (ls : localStorage) :
  cart_record ls →
  unsigned (lines ls) →
  0 ≤ default 1 q →
  0 ≤ Product.price p →
  pieces (lines ls) + default 1 q ≤ 2 ^ 53 →
  worth (lines ls) + unit_price p (lines ls) * default 1 q ≤ 2 ^ 53 →
  ∃ (n t : Z) (ls' : localStorage),
    getCount now ls = (ls, Normal n)
    ∧ getTotal now ls = (ls, Normal t)
    ∧ addItem now p q ls = (ls', Normal tt)
    ∧ getCount later ls' = (ls', Normal (n + default 1 q))
    ∧ getTotal later ls'
      = (ls', Normal (t + unit_price p (lines ls) * default 1 q)).
Proof.
  intros Hrec Hl Hq Hp Hpieces Hworth.
  destruct (addItem_run now p q ls Hrec) as (ls' & Hrun & Hlines & Hrec').
  pose proof (unsigned_quantities _ Hl) as Hquantities.
  destruct (added_pieces p _ _ Hquantities Hq Hpieces) as [_ Hcount].
  destruct (added_worth p _ _ Hl Hq Hp Hpieces) as [Hl' Htotal].
  assert (Hunit : 0 ≤ unit_price p (lines ls) * default 1 q).
  { unfold unit_price.
    destruct (list_find _ (lines ls)) as [[k existing]|] eqn:Hfind; [|nia].
    apply list_find_Some in Hfind as (Hk & _ & _).
    assert (0 ≤ CartItem.price existing); [|nia].
    apply (proj1 (Forall_forall _ _) Hl). by eapply list_elem_of_lookup_2. }
  exists (count_of (lines ls)), (total_of (lines ls)), ls'.
  rewrite !getCount_run, !getTotal_run, Hlines by done.
  repeat (split; [done|]).
  rewrite (added_count p _ _) by (try split; try done; lia).
  split; [done|].
  rewrite !total_exact; [by rewrite Htotal|done|lia|done|lia].
Qed.

Lemma addItem_count_and_total_witness :
  let ls := (addItem 1 candle (Some 2) ∅).1 in
  cart_record ls
  ∧ unsigned (lines ls)
  ∧ 0 ≤ default 1 (Some 3)
  ∧ 0 ≤ Product.price candle
  ∧ pieces (lines ls) + default 1 (Some 3) ≤ 2 ^ 53
  ∧ worth (lines ls) + unit_price candle (lines ls) * default 1 (Some 3) ≤ 2 ^ 53
  ∧ ∃ (n t : Z) (ls' : localStorage),
      getCount 2 ls = (ls, Normal n)
      ∧ getTotal 2 ls = (ls, Normal t)
      ∧ addItem 2 candle (Some 3) ls = (ls', Normal tt)
      ∧ getCount 3 ls' = (ls', Normal (n + default 1 (Some 3)))
      ∧ getTotal 3 ls'
        = (ls', Normal (t + unit_price candle (lines ls) * default 1 (Some 3))).
Proof.
  intros ls.
  assert (Hrec : cart_record ls) by done.
  assert (Hl : unsigned (lines ls)).
  { apply Forall_singleton. by vm_compute. }
  assert (Hq : 0 ≤ default 1 (Some 3)) by (simpl; lia).
  assert (Hp : 0 ≤ Product.price candle) by (simpl; lia).
  assert (Hpieces : pieces (lines ls) + default 1 (Some 3) ≤ 2 ^ 53)
    by (by vm_compute).
  assert (Hworth : worth (lines ls) + unit_price candle (lines ls) * default 1 (Some 3)
                   ≤ 2 ^ 53) by (by vm_compute).
  do 6 (split; [assumption|]).
  exact (addItem_count_and_total 2 3 candle (Some 3) ls Hrec Hl Hq Hp Hpieces Hworth).
Defined.

(** Past 2^53 the count does not follow: a line of 2^53 pieces stays at
    2^53 when one more is added. *)
Example addItem_rounds_beyond_2_53 :
  let ls := (addItem 1 candle (Some (2 ^ 53)) ∅).1 in
  let ls' := (addItem 2 candle (Some 1) ls).1 in
  (getCount 3 ls).2 = Normal (2 ^ 53)
  ∧ (getCount 3 ls').2 = Normal (2 ^ 53).
Proof. by vm_compute. Qed.

(** *** One line per product *)

Lemma not_found_fresh pid (l : list CartItem.t) :
  list_find (is_line pid) l = None → pid ∉ CartItem.productId <$> l.
Proof.
  intros Hnone Hin. apply list_find_None in Hnone.
  apply list_elem_of_fmap in Hin as (i & -> & Hi).
  by apply (proj1 (Forall_forall _ _) Hnone) in Hi.
Qed.

Lemma added_ids p q l :
  NoDup (CartItem.productId <$> l) → NoDup (CartItem.productId <$> added p q l).
Proof.
  intros Hnd. unfold added.
  destruct (list_find _ l) as [[k existing]|] eqn:Hfind.
  - apply list_find_Some in Hfind as (Hk & _ & _).
    rewrite list_fmap_insert. simpl.
    rewrite list_insert_id; [done|]. by rewrite list_lookup_fmap, Hk.
  - rewrite fmap_app. apply NoDup_app. split; [done|]. split.
    + intros pid Hin Hpid. apply list_elem_of_singleton in Hpid. subst pid.
      by apply not_found_fresh in Hfind.
    + apply NoDup_singleton.
Qed.

Lemma filtered_ids (P : CartItem.t → Prop) `{!∀ i, Decision (P i)} l :
  NoDup (CartItem.productId <$> l) → NoDup (CartItem.productId <$> filter P l).
Proof.
  induction l as [|i l IH]; [done|]. rewrite fmap_cons, NoDup_cons.
  intros [Hi Hnd]. rewrite filter_cons. destruct (decide (P i)); [|by apply IH].
  rewrite fmap_cons. apply NoDup_cons. split; [|by apply IH].
  intros Hin. apply Hi.
  apply list_elem_of_fmap in Hin as (j & Hj & Hin).
  apply list_elem_of_filter in Hin as [_ Hin].
  apply list_elem_of_fmap. by exists j.
Qed.

Lemma updated_ids pid q l :
  NoDup (CartItem.productId <$> l) → NoDup (CartItem.productId <$> updated pid q l).
Proof.
  intros Hnd. unfold updated.
  destruct (list_find _ l) as [[k item]|] eqn:Hfind; [|done].
  case_bool_decide; [by apply filtered_ids|].
  apply list_find_Some in Hfind as (Hk & _ & _).
  rewrite list_fmap_insert. simpl.
  rewrite list_insert_id; [done|]. by rewrite list_lookup_fmap, Hk.
Qed.

(** X2.  The cart keeps one line per product: from a persisted cart whose
    lines have distinct product ids (the empty cart, for one), any sequence
    of [addItem], [updateQuantity], [removeItem] and [clear] calls, with
    any arguments, leaves a cart whose lines have distinct product ids;
    and it completes without throwing when the record is one the cart
    reads as a cart. *)
Theorem cart_ops_keep_one_line_per_product
    (ops : list (Z * op)) (ls : localStorage) :
  NoDup (CartItem.productId <$> lines ls) →
  ∃ ls' r,
    run_ops ops ls = (ls', r)
    ∧ NoDup (CartItem.productId <$> lines ls')
    ∧ (cart_record ls → r = Normal tt).
Proof.
  revert ls. induction ops as [|[now o] ops IH]; intros ls Hnd.
  { by exists ls, (Normal tt). }
  unfold run_ops in *. simpl.
  destruct (cart_record_dec ls) as [Hrec|Hstray].
  - assert (∃ ls1, run_op now o ls = (ls1, Normal tt)
                   ∧ NoDup (CartItem.productId <$> lines ls1))
      as (ls1 & Hrun & Hnd1).
    { destruct o as [p q|pid q|pid|]; simpl.
      - destruct (addItem_run now p q ls Hrec) as (ls1 & Hrun & Hl & _).
        exists ls1. split; [done|]. rewrite Hl. by apply added_ids.
      - destruct (updateQuantity_run now pid q ls Hrec) as (ls1 & Hrun & Hl & _).
        exists ls1. split; [done|]. rewrite Hl. by apply updated_ids.
      - destruct (removeItem_run now pid ls Hrec) as (ls1 & Hrun & Hl & _).
        exists ls1. split; [done|]. rewrite Hl. by apply filtered_ids.
      - destruct (clear_run ls) as (ls1 & Hrun & Hl & _).
        exists ls1. split; [done|]. rewrite Hl. constructor. }
    destruct (IH ls1 Hnd1) as (ls' & r & Hrun' & Hnd' & Hr).
    exists ls', r. rewrite (bind_run _ _ _ _ _ Hrun).
    split; [done|]. split; [done|]. intros _. apply Hr.
    destruct o as [p q|pid q|pid|]; simpl in Hrun.
    + by destruct (addItem_run now p q ls Hrec) as (? & Hrun2 & _ & ?);
        rewrite Hrun in Hrun2; injection Hrun2 as <-.
    + by destruct (updateQuantity_run now pid q ls Hrec) as (? & Hrun2 & _ & ?);
        rewrite Hrun in Hrun2; injection Hrun2 as <-.
    + by destruct (removeItem_run now pid ls Hrec) as (? & Hrun2 & _ & ?);
        rewrite Hrun in Hrun2; injection Hrun2 as <-.
    + by destruct (clear_run ls) as (? & Hrun2 & _ & ?);
        rewrite Hrun in Hrun2; injection Hrun2 as <-.
  - destruct (run_op_stray now o ls Hstray) as [Hrun|(ls1 & Hrun & Hl & Hrec1)].
    + exists ls, (Throw "TypeError").
      rewrite (bind_throw _ _ _ _ _ Hrun). by repeat split.
    + assert (Hnd1 : NoDup (CartItem.productId <$> lines ls1))
        by (rewrite Hl; constructor).
      destruct (IH ls1 Hnd1) as (ls' & r & Hrun' & Hnd' & Hr).
      exists ls', r. rewrite (bind_run _ _ _ _ _ Hrun). by repeat split.
Qed.

Lemma cart_ops_keep_one_line_per_product_witness :
  let ops :=
    [(1, AddItem candle None); (2, AddItem candle (Some 2));
     (3, AddItem (Product.mk "p2" "Soap" 500 "physical" []) (Some (-1)));
     (4, UpdateQuantity "p1" 5); (5, RemoveItem "p2");
     (6, AddItem candle (Some 0))] in
  NoDup (CartItem.productId <$> lines ∅)
  ∧ ∃ ls' r,
      run_ops ops ∅ = (ls', r)
      ∧ NoDup (CartItem.productId <$> lines ls')
      ∧ (cart_record ∅ → r = Normal tt).
Proof.
  intros ops.
  assert (Hnd : NoDup (CartItem.productId <$> lines ∅)) by constructor.
  split; [exact Hnd|].
  exact (cart_ops_keep_one_line_per_product ops ∅ Hnd).
Defined.

(** X3.  [removeItem] takes every line of the product out of the persisted
    cart and leaves the lines of the other products as they were, in their
    order; the count read back is the old one less the quantities
    removed, as long as the old one is within the integers a double holds
    exactly (no negative quantity, no more than 2^53 pieces). *)
Theorem removeItem_removes_the_product
    (now later : Z) (pid : string) (ls : localStorage) :
  cart_record ls →
  ∃ ls',
    removeItem now pid ls = (ls', Normal tt)
    ∧ list_find (is_line pid) (lines ls') = None
    ∧ lines ls' = filter (λ i, ¬ is_line pid i) (lines ls)
    ∧ getCount later ls' = (ls', Normal (count_of (lines ls')))
    ∧ (countable (lines ls) →
       count_of (lines ls')
       = count_of (lines ls) - count_of (filter (is_line pid) (lines ls))).
Proof.
  intros Hrec.
  destruct (removeItem_run now pid ls Hrec) as (ls' & Hrun & Hl & Hrec').
  exists ls'. split; [done|]. rewrite getCount_run, Hl by done.
  split; [|split; [done|split; [done|]]].
  - apply list_find_None, Forall_forall. intros i Hi.
    by apply list_elem_of_filter in Hi as [Hi _].
  - intros Hcount.
    rewrite !count_exact by (done || by apply countable_filter).
    apply (pieces_filter (is_line pid)).
Qed.

Lemma removeItem_removes_the_product_witness :
  let ls := (addItem 1 candle (Some 2) ∅).1 in
  cart_record ls
  ∧ countable (lines ls)
  ∧ ∃ ls',
      removeItem 2 "p1" ls = (ls', Normal tt)
      ∧ list_find (is_line "p1") (lines ls') = None
      ∧ lines ls' = filter (λ i, ¬ is_line "p1" i) (lines ls)
      ∧ getCount 3 ls' = (ls', Normal (count_of (lines ls')))
      ∧ (countable (lines ls) →
         count_of (lines ls')
         = count_of (lines ls) - count_of (filter (is_line "p1") (lines ls))).
Proof.
  intros ls.
  assert (Hrec : cart_record ls) by done.
  split; [exact Hrec|].
  split; [split; [apply Forall_singleton|]; by vm_compute|].
  exact (removeItem_removes_the_product 2 3 "p1" ls Hrec).
Defined.

Lemma found_member pid (l : list CartItem.t) :
  pid ∈ CartItem.productId <$> l → ∃ k item, list_find (is_line pid) l = Some (k, item).
Proof.
  intros Hin. apply list_elem_of_fmap in Hin as (i & Hpid & Hi).
  destruct (list_find (is_line pid) l) as [[k item]|] eqn:Hfind; [by eauto|].
  apply list_find_None in Hfind.
  apply (proj1 (Forall_forall _ _) Hfind) in Hi. by destruct Hi.
Qed.

Lemma member_record pid ls : pid ∈ CartItem.productId <$> lines ls → cart_record ls.
Proof.
  intros Hin. apply lines_cart_record. intros Hnil. rewrite Hnil in Hin.
  by apply elem_of_nil in Hin.
Qed.

(** X4.  [updateQuantity] with a quantity of at least 1, for a product in
    the cart, sets the quantity of that product's line to it and changes
    nothing else: the line stays where it was, the number of lines is the
    same, and the count read back is the old one with the line's old
    quantity replaced by the new one, as long as both counts are within
    the integers a double holds exactly. *)
Theorem updateQuantity_sets_the_quantity
    (now later : Z) (pid : string) (q : Z) (ls : localStorage) :
  pid ∈ CartItem.productId <$> lines ls →
  1 ≤ q →
  ∃ ls' k item,
    updateQuantity now pid q ls = (ls', Normal tt)
    ∧ list_find (is_line pid) (lines ls) = Some (k, item)
    ∧ lines ls' = <[k := CartItem.with_quantity q item]> (lines ls)
    ∧ list_find (is_line pid) (lines ls') = Some (k, CartItem.with_quantity q item)
    ∧ length (lines ls') = length (lines ls)
    ∧ getCount later ls' = (ls', Normal (count_of (lines ls')))
    ∧ (countable (lines ls) →
       pieces (lines ls) - CartItem.quantity item + q ≤ 2 ^ 53 →
       count_of (lines ls') = count_of (lines ls) - CartItem.quantity item + q).
Proof.
  intros Hin Hq. destruct (found_member _ _ Hin) as (k & item & Hfind).
  pose proof (member_record _ _ Hin) as Hrec.
  destruct (updateQuantity_run now pid q ls Hrec) as (ls' & Hrun & Hl & Hrec').
  exists ls', k, item. split; [done|]. split; [done|].
  unfold updated in Hl. rewrite Hfind in Hl.
  rewrite bool_decide_eq_false_2 in Hl by lia.
  pose proof Hfind as Hfound.
  apply list_find_Some in Hfound as (Hk & Hline & Hfirst).
  rewrite getCount_run, Hl by done. split; [done|]. split; [|split; [|split]].
  - apply list_find_Some. split; [|split].
    + apply list_lookup_insert_eq. by eapply lookup_lt_Some.
    + done.
    + intros j y Hj Hlt. rewrite list_lookup_insert_ne in Hj by lia. eauto.
  - by rewrite length_insert.
  - done.
  - intros [Hquantities Hbound] Hroom.
    assert (Hpieces : pieces (<[k := CartItem.with_quantity q item]> (lines ls))
                      = pieces (lines ls) - CartItem.quantity item + q)
      by (by rewrite (pieces_insert _ _ _ _ Hk)).
    rewrite !count_exact; [done|by split|].
    split; [|lia]. apply Forall_insert; [done|]. simpl. lia.
Qed.

Lemma updateQuantity_sets_the_quantity_witness :
  let ls := (addItem 1 candle (Some 2) ∅).1 in
  "p1" ∈ CartItem.productId <$> lines ls
  ∧ 1 ≤ 7
  ∧ countable (lines ls)
  ∧ ∃ ls' k item,
      updateQuantity 2 "p1" 7 ls = (ls', Normal tt)
      ∧ list_find (is_line "p1") (lines ls) = Some (k, item)
      ∧ lines ls' = <[k := CartItem.with_quantity 7 item]> (lines ls)
      ∧ list_find (is_line "p1") (lines ls') = Some (k, CartItem.with_quantity 7 item)
      ∧ length (lines ls') = length (lines ls)
      ∧ getCount 3 ls' = (ls', Normal (count_of (lines ls')))
      ∧ (countable (lines ls) →
         pieces (lines ls) - CartItem.quantity item + 7 ≤ 2 ^ 53 →
         count_of (lines ls') = count_of (lines ls) - CartItem.quantity item + 7).
Proof.
  intros ls.
  assert (Hin : "p1" ∈ CartItem.productId <$> lines ls).
  { vm_compute. by left. }
  split; [exact Hin|]. split; [lia|].
  split; [split; [apply Forall_singleton|]; by vm_compute|].
  apply (updateQuantity_sets_the_quantity 2 3 "p1" 7 ls Hin). lia.
Defined.

(** X5.  [updateQuantity] for a product that has no line in the cart does
    nothing at all: no line is created and the stored record is not
    rewritten, whatever the quantity.  (On a record that holds a value
    without items there is no cart to look in, and the call throws.) *)
Theorem updateQuantity_unknown_product
    (now : Z) (pid : string) (q : Z) (ls : localStorage) :
  cart_record ls →
  pid ∉ CartItem.productId <$> lines ls →
  updateQuantity now pid q ls = (ls, Normal tt).
Proof.
  intros Hrec Hnot. unfold updateQuantity.
  read_cart now ls Hrec. rewrite stored_items.
  destruct (list_find _ (lines ls)) as [[k item]|] eqn:Hfind; [|done].
  apply list_find_Some in Hfind as (Hk & Hline & _).
  destruct Hnot. apply list_elem_of_fmap. exists item.
  split; [done|]. by eapply list_elem_of_lookup_2.
Qed.

Lemma updateQuantity_unknown_product_witness :
  let ls := (addItem 1 candle (Some 2) ∅).1 in
  cart_record ls
  ∧ ("p9" ∉ CartItem.productId <$> lines ls)
  ∧ updateQuantity 2 "p9" 3 ls = (ls, Normal tt).
Proof.
  intros ls.
  assert (Hrec : cart_record ls) by done.
  assert (Hnot : "p9" ∉ CartItem.productId <$> lines ls).
  { vm_compute. intros Hin. apply list_elem_of_singleton in Hin. discriminate Hin. }
  split; [exact Hrec|]. split; [exact Hnot|].
  exact (updateQuantity_unknown_product 2 "p9" 3 ls Hrec Hnot).
Defined.

(** *** The cart and the rest of [localStorage] *)

Lemma run_op_other_keys now o ls k :
  k ≠ KEY → (run_op now o ls).1 !! k = ls !! k.
Proof.
  intros Hk. destruct (cart_record_dec ls) as [Hrec|Hstray].
  - destruct o as [p q|pid q|pid|]; simpl.
    + unfold addItem. read_cart now ls Hrec.
      destruct (list_find _ _) as [[? ?]|]; rewrite saveCart_run; simpl;
        by rewrite lookup_insert_ne.
    + unfold updateQuantity. read_cart now ls Hrec.
      destruct (list_find _ _) as [[? ?]|]; [|done].
      case_bool_decide.
      * unfold removeItem. read_cart now ls Hrec.
        rewrite saveCart_run. simpl. by rewrite lookup_insert_ne.
      * rewrite saveCart_run. simpl. by rewrite lookup_insert_ne.
    + unfold removeItem. read_cart now ls Hrec.
      rewrite saveCart_run. simpl. by rewrite lookup_insert_ne.
    + simpl. by rewrite lookup_delete_ne.
  - destruct (run_op_stray now o ls Hstray) as [->|(ls1 & Hrun & _)]; [done|].
    destruct o as [p q|pid q|pid|]; simpl in *.
    + by rewrite (addItem_stray _ _ _ _ Hstray) in Hrun.
    + by rewrite (updateQuantity_stray _ _ _ _ Hstray) in Hrun.
    + by rewrite (removeItem_stray _ _ _ Hstray) in Hrun.
    + by rewrite lookup_delete_ne.
Qed.

(** X6.  The cart owns one record: whatever sequence of operations runs,
    every other key of [localStorage] holds afterwards what it held
    before. *)
Theorem cart_ops_touch_only_their_key
    (ops : list (Z * op)) (ls : localStorage) (k : string) :
  k ≠ KEY →
  (run_ops ops ls).1 !! k = ls !! k.
Proof.
  intros Hk. revert ls. induction ops as [|[now o] ops IH]; intros ls; [done|].
  pose proof (run_op_other_keys now o ls k Hk) as Hsame.
  unfold run_ops in *. simpl. rewrite bind_eq.
  destruct (run_op now o ls) as [ls1 [[]|e]]; simpl in Hsame; [|done].
  by rewrite IH.
Qed.

Lemma cart_ops_touch_only_their_key_witness :
  let ls : localStorage := <["theme" := Garbled]> ∅ in
  let ops := [(1, AddItem candle None); (2, Clear); (3, AddItem candle (Some 3))] in
  "theme" ≠ KEY
  ∧ (run_ops ops ls).1 !! "theme" = ls !! "theme".
Proof.
  intros ls ops.
  assert (Hk : "theme" ≠ KEY) by discriminate.
  split; [exact Hk|].
  exact (cart_ops_touch_only_their_key ops ls "theme" Hk).
Defined.

(** X7.  [clear] empties the cart whatever it held: the cart read back is
    the empty cart, its count and total are 0, and the operation is
    idempotent. *)
Theorem clear_empties_the_cart (now : Z) (ls : localStorage) :
  ∃ ls',
    clear ls = (ls', Normal tt)
    ∧ getCart now ls' = (ls', Normal (Stored (empty_cart now)))
    ∧ getCount now ls' = (ls', Normal 0)
    ∧ getTotal now ls' = (ls', Normal 0)
    ∧ clear ls' = (ls', Normal tt).
Proof.
  exists (delete KEY ls). split; [done|].
  pose proof (cleared_record ls) as Hrec.
  rewrite getCount_run, getTotal_run, getCart_run by done.
  unfold parsed, lines. rewrite lookup_delete_eq. repeat (split; [done|]).
  unfold clear, modify. by rewrite delete_delete_eq.
Qed.

(** *** Escaping attribute values *)

Lemma append_assoc (s1 s2 s3 : string) : (s1 +:+ s2) +:+ s3 = s1 +:+ (s2 +:+ s3).
Proof.
  induction s1 as [|a s1 IH]; [done|].
  change (String a ((s1 +:+ s2) +:+ s3) = String a (s1 +:+ (s2 +:+ s3))).
  by f_equal.
Qed.

Lemma replace_all_app c rep s1 s2 :
  replace_all c rep (s1 +:+ s2) = replace_all c rep s1 +:+ replace_all c rep s2.
Proof.
  induction s1 as [|a s1 IH]; [done|].
  change (replace_all c rep (String a (s1 +:+ s2))
          = replace_all c rep (String a s1) +:+ replace_all c rep s2).
  simpl. by rewrite IH, append_assoc.
Qed.

Lemma five_passes_app s1 s2 : five_passes (s1 +:+ s2) = five_passes s1 +:+ five_passes s2.
Proof. unfold five_passes. by rewrite !replace_all_app. Qed.

Lemma five_passes_char a : five_passes (String a EmptyString) = escape_char a.
Proof. by destruct a as [[] [] [] [] [] [] [] []]. Qed.

Lemma five_passes_each t : five_passes t = escape_each t.
Proof.
  induction t as [|a t IH]; [done|].
  change (String a t) with (String a EmptyString +:+ t).
  by rewrite five_passes_app, five_passes_char, IH.
Qed.

Lemma occurs_app P s1 s2 : occurs P (s1 +:+ s2) = occurs P s1 || occurs P s2.
Proof.
  induction s1 as [|a s1 IH]; [done|].
  change (occurs P (String a (s1 +:+ s2)) = occurs P (String a s1) || occurs P s2).
  simpl. by rewrite IH, orb_assoc.
Qed.

Lemma escape_char_safe a : occurs breaks_attribute (escape_char a) = false.
Proof. by destruct a as [[] [] [] [] [] [] [] []]. Qed.

(** X8.  [escapeAttr] works as a single pass over the text, although it is
    written as five global replacements in a row: each character is
    replaced by its entity once ([&] by [&amp;], the double quote by
    [&quot;], the apostrophe by [&#39;], [<] by [&lt;], [>] by [&gt;]), an
    ampersand written by a replacement is never escaped again, and the
    result holds no double quote, apostrophe, [<] or [>].  A missing or
    empty text gives the empty string. *)
Theorem escapeAttr_single_pass (text : option string) :
  escapeAttr text = escape_each (default "" text)
  ∧ occurs breaks_attribute (escapeAttr text) = false.
Proof.
  assert (Hsafe : ∀ t, occurs breaks_attribute (escape_each t) = false).
  { induction t as [|a t IH]; [done|]. simpl.
    by rewrite occurs_app, escape_char_safe, IH. }
  assert (Heach : escapeAttr text = escape_each (default "" text)).
  { destruct text as [t|]; [|done]. simpl.
    destruct t as [|a t]; [done|]. simpl negb. cbv iota.
    apply (five_passes_each (String a t)). }
  split; [done|]. rewrite Heach. apply Hsafe.
Qed.

Example escapeAttr_sample :
  escapeAttr (Some "Tom & Jerry's <b>") = "Tom &amp; Jerry&#39;s &lt;b&gt;".
Proof. reflexivity. Qed.

End CartMore.

(* ===================================================================== *)
(** ** More on the checkout validator and the reconciler                  *)
(* ===================================================================== *)

Module FunctionsMore.
Import Functions.
Import ValidatorProps.
Import WebhookProps.

Lemma same_documents_record c went rest w : same_documents w (record c went rest w).
Proof. by repeat split. Qed.




Lemma decrement_description productRef item ps id :
  description <$> decrement productRef item ps !! id = description <$> ps !! id.
Proof.
  unfold decrement.
  destruct (ps !! productRef) as [p|] eqn:Hp; [|done].
  destruct (negb _); [|done].
  destruct (decide (productRef = id)) as [<-|Hne].
  - by rewrite lookup_insert_eq, Hp.
  - by rewrite lookup_insert_ne.
Qed.

Lemma same_catalog_shape_trans w1 w2 w3 :
  same_catalog_shape w1 w2 → same_catalog_shape w2 w3 → same_catalog_shape w1 w3.
Proof.
  intros [H1 Hs1] [H2 Hs2]. split; [|congruence].
  intros id. by rewrite H2, H1.
Qed.

Lemma for_of_app {A} (l1 l2 : list A) (body : A → M World unit) w :
  for_of (l1 ++ l2) body w = (for_of l1 body ≫= λ _, for_of l2 body) w.
Proof.
  revert w. induction l1 as [|a l1 IH]; intros w; simpl; [done|].
  rewrite !bind_eq. destruct (body a w) as [w1 [[]|e]]; [|done].
  rewrite IH. by rewrite bind_eq.
Qed.

Lemma remote_up c rest w :
  outages w = false :: rest → remote c w = (record c true rest w, Normal tt).
Proof. unfold remote. by intros ->. Qed.

Lemma remote_down c rest w :
  outages w = true :: rest →
  remote c w = (record c false rest w, Throw "unavailable").
Proof. unfold remote. by intros ->. Qed.

Lemma orders_add_up o rest w :
  outages w = false :: rest →
  orders_add o w
  = (set_orders (λ l, l ++ [o]) (record OrdersAdd true rest w),
     Normal (length (orders w))).
Proof. unfold orders_add. run_primitive. by intros ->. Qed.

Section Checkout.

Context `{Firestore}.

(** What the validation loop preserves: it only reads the catalog. *)
Lemma validate_items_preserves (R : World → World → Prop) l acc :
  (∀ w, R w w) →
  (∀ w1 w2 w3, R w1 w2 → R w2 w3 → R w1 w3) →
  (∀ c went rest w, R w (record c went rest w)) →
  preserves R (validate_items l acc).
Proof.
  intros Hrefl Htrans Hrecord.
  revert acc. induction l as [|item l IH]; intros acc; simpl.
  { by apply preserves_ret. }
  destruct (invalid_item item); [by apply preserves_ret|].
  apply preserves_bind; [done|by apply preserves_products_get|].
  intros [product|]; [|by apply preserves_ret].
  destruct (product_problem _ _); [by apply preserves_ret|].
  apply IH.
Qed.

Lemma validate_items_same_documents l acc :
  preserves same_documents (validate_items l acc).
Proof.
  apply validate_items_preserves;
    [apply same_documents_refl|apply same_documents_trans
    |apply same_documents_record].
Qed.




Lemma validate_items_snapshot l acc w w' built :
  validate_items l acc w = (w', Normal (inr built)) →
  ∃ ois,
    orderItems built = orderItems acc ++ ois
    ∧ Forall2 (snapshot_of (products w)) l ois
    ∧ hasPhysical built = hasPhysical acc || existsb is_physical ois.
Proof.
  revert acc w. induction l as [|item l IH]; intros acc w Hrun; simpl in Hrun.
  - injection Hrun as <- <-. exists []. rewrite app_nil_r. simpl.
    by rewrite orb_false_r.
  - destruct (invalid_item item) eqn:Hinv; [done|].
    destruct (valid_item_fields _ Hinv) as (pid & q & Hpid & Hq & _ & _).
    rewrite Hpid, Hq in Hrun. simpl in Hrun. rewrite bind_eq in Hrun.
    destruct (products_get_any pid w) as (w1 & r & Hget & (Hp & _) & Hr).
    rewrite Hget in Hrun. destruct r as [[product|]|e]; try done.
    specialize (Hr _ eq_refl).
    destruct (product_problem product q); [done|].
    apply IH in Hrun as (ois & Hois & Hall & Hphys). simpl in Hois, Hphys.
    exists (order_item pid q product :: ois). split; [|split].
    + by rewrite Hois, <- app_assoc.
    + constructor; [by exists pid, q, product|by rewrite Hp in Hall].
    + rewrite Hphys. simpl. unfold is_physical at 2. simpl. by rewrite orb_assoc.
Qed.

(** An answer 200 means the whole of the request went through. *)
Lemma accepted_inversion req w w' resp :
  createCheckoutSession req w = (w', Normal resp) →
  status resp = 200 →
  ∃ l built w1,
    items req = Some l
    ∧ truthy_opt_string (successUrl req) = true
    ∧ truthy_opt_string (cancelUrl req) = true
    ∧ validate_items l (mkBuilt [] [] false) w = (w1, Normal (inr built))
    ∧ sessions w'
      = sessions w1 ++ [sessionConfig built (default "" (successUrl req))
                          (default "" (cancelUrl req))].
Proof.
  intros Hrun H200. unfold createCheckoutSession in Hrun.
  destruct (String.eqb _ "OPTIONS"); [by injection Hrun as <- <-|].
  destruct (negb _); [by injection Hrun as <- <-|].
  rewrite try_catch_eq in Hrun.
  destruct (items req) as [[|item l]|] eqn:Hitems;
    [by injection Hrun as <- <-| |by injection Hrun as <- <-].
  destruct (_ || _) eqn:Hurls; [by injection Hrun as <- <-|].
  apply orb_false_iff in Hurls as [Hs Hc].
  apply negb_false_iff in Hs, Hc.
  rewrite bind_eq in Hrun.
  destruct (validate_items _ _ w) as [w1 [[rej|built]|e]] eqn:Hval.
  { apply validate_items_rejects in Hval as [_ [msg ->]].
    by injection Hrun as <- <-. }
  2: by injection Hrun as <- <-.
  destruct (sessions_create_any
              (sessionConfig built (default "" (successUrl req))
                 (default "" (cancelUrl req))) w1) as (w2 & r & Hcreate & Hr).
  rewrite bind_eq, Hcreate in Hrun. destruct r as [n|e]; [|by injection Hrun as <- <-].
  injection Hrun as <- <-. destruct (Hr _ eq_refl) as (_ & Hs2 & _).
  by exists (item :: l), built, w1.
Qed.

(** X10.  The session of an accepted request carries, as metadata, one
    order item per requested item, in the order of the request, with the
    name, price and category of the catalog document and the quantity
    asked; it has as many line items, goes back to the two URLs of the
    request, and asks for a shipping address, in the US only, exactly when
    one of those order items is of the physical category. *)
Theorem accepted_session_snapshot
    (req : CheckoutRequest) (w w' : World) (resp : Response) :
  createCheckoutSession req w = (w', Normal resp) →
  status resp = 200 →
  ∃ l cfg,
    items req = Some l
    ∧ sessions w' = sessions w ++ [cfg]
    ∧ Forall2 (snapshot_of (products w)) l (SessionConfig.metadata_orderItems cfg)
    ∧ length (SessionConfig.line_items cfg) = length l
    ∧ Some (SessionConfig.success_url cfg) = successUrl req
    ∧ Some (SessionConfig.cancel_url cfg) = cancelUrl req
    ∧ SessionConfig.shipping_address_collection cfg
      = (if existsb is_physical (SessionConfig.metadata_orderItems cfg)
         then Some ["US"] else None).
Proof.
  intros Hrun H200.
  destruct (accepted_inversion _ _ _ _ Hrun H200)
    as (l & built & w1 & Hitems & Hs & Hc & Hval & Hsess).
  pose proof (validate_items_accepts _ _ _ _ _ Hval)
    as ((_ & _ & _ & Hsame) & new & Hnew & Hlines).
  apply validate_items_snapshot in Hval as (ois & Hois & Hall & Hphys).
  simpl in Hnew, Hois, Hphys. subst new ois.
  eexists _, _. split; [done|]. split; [by rewrite Hsess, Hsame|]. simpl.
  split; [done|]. split; [by rewrite <- (Forall2_length _ _ _ Hlines)|].
  destruct (successUrl req), (cancelUrl req); try done.
  by rewrite Hphys.
Qed.

(** *** The reconciler: orders, mails, and a rejected transaction *)

Lemma process_completed_orders session l w :
  JSON_parse (Session.metadata_orderItems session) = Normal l →
  orders (process_completed session w).1 = orders w
  ∨ ∃ b, orders (process_completed session w).1
         = orders w ++ [Order.with_digitalDelivered b (new_order session l)].
Proof.
  intros Hparse. unfold process_completed, lift. rewrite bind_eq, Hparse.
  rewrite bind_eq.
  destruct (orders_add_any (new_order session l) w) as (rest0 & [Hadd|Hadd]);
    rewrite Hadd; [by left|].
  right. set (ref := length (orders w)). set (w1 := set_orders _ _).
  assert (Hquiet : ∀ w2, early_step w1 w2 →
            orders w2 = orders w ++ [Order.with_digitalDelivered false (new_order session l)]).
  { by intros w2 (-> & _). }
  rewrite bind_eq.
  pose proof (early_step_decrement_loop l w1) as H2.
  destruct (for_of l decrement_inventory w1) as [w2 [[]|e]]; simpl in H2;
    [|exists false; by apply Hquiet].
  rewrite bind_eq.
  pose proof (early_step_mail_add (confirmation session ref l) eq_refl w2) as H3.
  destruct (mail_add _ w2) as [w3 [[]|e]]; simpl in H3;
    [|exists false; apply Hquiet; by eapply early_step_trans].
  pose proof (early_step_trans _ _ _ H2 H3) as H13.
  destruct (nonempty (List.filter is_digital l)); [|exists false; by apply Hquiet].
  rewrite bind_eq.
  pose proof (early_step_fetch_links (List.filter is_digital l) [] w3) as H4.
  destruct (fetch_links _ _ w3) as [w4 [links|e]]; simpl in H4;
    [|exists false; apply Hquiet; by eapply early_step_trans].
  pose proof (Hquiet _ (early_step_trans _ _ _ H13 H4)) as Ho4.
  destruct (nonempty links); [|by exists false].
  rewrite bind_eq.
  destruct (mail_add_any (downloads session links) w4)
    as [Hmail|(rest5 & [Hmail|Hmail])];
    rewrite Hmail; [by exists false..|].
  set (w5 := set_mail _ _).
  destruct (order_update_any ref true w5) as (rest6 & [Hupd|Hupd]); rewrite Hupd.
  - by exists false.
  - exists true. simpl. rewrite Ho4.
    rewrite alter_app_r_alt by done. fold ref. by rewrite Nat.sub_diag.
Qed.

Lemma decrement_inventory_up item productRef rest w :
  is_physical item = true →
  doc (OrderItem.productId item) = Normal productRef →
  outages w = false :: rest →
  decrement_inventory item w
  = (set_products (decrement productRef item)
       (record (RunTransaction productRef) true rest w), Normal tt).
Proof.
  unfold is_physical, decrement_inventory, runTransaction, lift.
  intros -> Hdoc Hout. by rewrite bind_eq, Hdoc, bind_eq, (remote_up _ _ _ Hout).
Qed.

Lemma decrement_inventory_down item productRef rest w :
  is_physical item = true →
  doc (OrderItem.productId item) = Normal productRef →
  outages w = true :: rest →
  decrement_inventory item w
  = (record (RunTransaction productRef) false rest w, Throw "unavailable").
Proof.
  unfold is_physical, decrement_inventory, runTransaction, lift.
  intros -> Hdoc Hout. by rewrite bind_eq, Hdoc, bind_eq, (remote_down _ _ _ Hout).
Qed.

Lemma decrement_loop_up pre rest w :
  referable (List.filter is_physical pre) →
  outages w = replicate (length (List.filter is_physical pre)) false ++ rest →
  ∃ w',
    for_of pre decrement_inventory w = (w', Normal tt)
    ∧ outages w' = rest
    ∧ products w' = apply_items pre (products w)
    ∧ orders w' = orders w ∧ mail w' = mail w.
Proof.
  revert w. induction pre as [|item pre IH]; intros w Hpaths Hout.
  { by exists w. }
  cbn [for_of]. cbn [List.filter] in Hout, Hpaths.
  rewrite bind_eq, apply_items_cons. unfold apply_item.
  fold (is_physical item).
  destruct (is_physical item) eqn:Hphys; simpl in Hout.
  - apply referable_cons in Hpaths as [[productRef Hdoc] Hpaths].
    rewrite (decrement_inventory_up _ _ _ _ Hphys Hdoc Hout), Hdoc.
    match goal with
    | |- ∃ w', for_of pre _ ?w1 = _ ∧ _ =>
        destruct (IH w1 Hpaths eq_refl) as (w' & -> & Hrest & Hp & Ho & Hm)
    end.
    by exists w'.
  - rewrite (decrement_inventory_skip _ _ Hphys). by apply IH.
Qed.

Section More.

Variable constructEvent : string → option string → string → string + Event.t.
Variable webhookSecret : string.

Local Abbreviation stripeWebhook := (stripeWebhook constructEvent webhookSecret).
Local Abbreviation deliver := (deliver constructEvent webhookSecret).

(** X11.  A delivery whose signature does not verify, whose event is not a
    [checkout.session.completed], or whose paid session carries metadata
    that does not parse, changes nothing: no document, no remote call; it
    is answered 400 in the first case and 200 in the others. *)
Theorem nothing_to_reconcile_nothing_done (req : WebhookRequest) (w : World) :
  nothing_to_reconcile constructEvent webhookSecret req →
  ∃ resp,
    stripeWebhook req w = (w, Normal resp)
    ∧ status resp
      = (if constructEvent (rawBody req) (stripe_signature req) webhookSecret
         is inl _ then 400 else 200).
Proof.
  unfold nothing_to_reconcile, Functions.stripeWebhook.
  destruct (constructEvent _ _ _) as [msg|event]; intros Hnothing.
  - by eexists.
  - rewrite bind_eq.
    destruct (String.eqb_spec (Event.type event) "checkout.session.completed")
      as [Htype|Htype].
    + destruct Hnothing as [?|Hparse]; [done|].
      unfold process_completed, lift.
      rewrite try_catch_eq, bind_eq, Hparse. by eexists.
    + by eexists.
Qed.

(** X12.  No sequence of webhook deliveries, whatever the events and the
    outages, creates or deletes a product, or changes the name, price,
    category, active flag, images or download URL of one: only inventories
    move.  Nor does it touch the payment sessions. *)
Theorem deliveries_keep_catalog_shape (reqs : list WebhookRequest) (w : World) :
  (∀ id, description <$> products (deliver reqs w) !! id
         = description <$> products w !! id)
  ∧ sessions (deliver reqs w) = sessions w.
Proof.
  apply (preserves_deliver same_catalog_shape); try done.
  - apply same_catalog_shape_trans.
  - intros productRef item w0. split; [|done].
    intros id. apply decrement_description.
Qed.

(** X13.  One delivery leaves the stored orders as they were and adds at
    most one: either the orders are unchanged, or the event is a verified
    [checkout.session.completed] whose metadata parses and exactly one
    order is appended, built from that session (its id, payment intent,
    customer, amounts, status "paid") and those order items.  This holds
    under any outages: an order once written is not taken back. *)
Theorem delivery_appends_at_most_one_order (req : WebhookRequest) (w : World) :
  orders (stripeWebhook req w).1 = orders w
  ∨ ∃ event l b,
      constructEvent (rawBody req) (stripe_signature req) webhookSecret = inr event
      ∧ Event.type event = "checkout.session.completed"
      ∧ JSON_parse (Session.metadata_orderItems (Event.object event)) = Normal l
      ∧ orders (stripeWebhook req w).1
        = orders w ++ [Order.with_digitalDelivered b
                         (new_order (Event.object event) l)].
Proof.
  unfold Functions.stripeWebhook.
  destruct (constructEvent _ _ _) as [msg|event] eqn:Hev; [by left|].
  rewrite bind_eq.
  destruct (String.eqb_spec (Event.type event) "checkout.session.completed")
    as [Htype|Htype]; [|by left].
  rewrite try_catch_eq.
  destruct (JSON_parse (Session.metadata_orderItems (Event.object event)))
    as [l|e] eqn:Hparse.
  - destruct (process_completed_orders (Event.object event) l w Hparse)
      as [Hsame|[b Hnew]].
    + left. by destruct (process_completed _ w) as [w1 [[]|?]].
    + right. exists event, l, b. repeat (split; [done|]).
      by destruct (process_completed _ w) as [w1 [[]|?]].
  - left. unfold process_completed, lift. by rewrite bind_eq, Hparse.
Qed.

(** X14.  With every call going through, the delivery of a paid session
    that has a customer e-mail and whose physical and digital items have
    product ids that are paths to documents queues the order
    confirmation, for the order it created and with the order items of
    the session, and after it, when some digital item has a download URL,
    one message with the download links; nothing else.  Both go to the
    customer's e-mail address of the session.  For a session without
    [customer_details] nothing is queued: the mail client refuses the
    undefined recipient. *)
Theorem delivery_mails
    (req : WebhookRequest) (event : Event.t) (l : list OrderItem.t) (w : World) :
  calm w →
  constructEvent (rawBody req) (stripe_signature req) webhookSecret = inr event →
  Event.type event = "checkout.session.completed" →
  JSON_parse (Session.metadata_orderItems (Event.object event)) = Normal l →
  (Session.customer_email (Event.object event) = Undefined →
   mail (stripeWebhook req w).1 = mail w)
  ∧ (Session.customer_email (Event.object event) ≠ Undefined →
     referable (List.filter is_physical l) →
     referable (List.filter is_digital l) →
     ∃ news,
       mail (stripeWebhook req w).1 = mail w ++ news
       ∧ news
         = confirmation (Event.object event) (length (orders w)) l
             :: (if nonempty (links_in (products w) l)
                 then [downloads (Event.object event) (links_in (products w) l)]
                 else [])
       ∧ Forall (λ m, Mail.to m = Session.customer_email (Event.object event)) news).
Proof.
  intros Hc Hev Htype Hparse. split.
  - intros Hto.
    destruct (process_completed_calm _ _ _ Hc Hparse)
      as (w' & r & b & Hrun & _ & _ & _ & _ & Hnone & _).
    rewrite (stripeWebhook_paid _ _ _ _ _ Hev Htype), Hrun. by apply Hnone.
  - intros Hto Hphys Hdig.
    destruct (stripeWebhook_served_calm _ _ _ _ _ _ Hc Hev Htype Hparse Hto Hphys Hdig)
      as [_ Hm].
    eexists. split; [exact Hm|]. split; [reflexivity|].
    destruct (nonempty _); repeat constructor.
Qed.

(** X15.  When the store rejects the inventory transaction of a physical
    item, the delivery stops there: the order written before stands, the
    items ahead of it have been taken off the inventory, the items after
    it are not, no mail is queued, and the delivery is still answered
    200.  (The product ids of the physical items up to that one are paths
    to documents: the loop got that far.) *)
Theorem rejected_transaction_stops_the_delivery
    (req : WebhookRequest) (event : Event.t)
    (pre : list OrderItem.t) (item : OrderItem.t) (post : list OrderItem.t)
    (rest : list bool) (w : World) :
  constructEvent (rawBody req) (stripe_signature req) webhookSecret = inr event →
  Event.type event = "checkout.session.completed" →
  JSON_parse (Session.metadata_orderItems (Event.object event))
  = Normal (pre ++ item :: post) →
  is_physical item = true →
  referable (List.filter is_physical (pre ++ [item])) →
  outages w
  = false :: replicate (length (List.filter is_physical pre)) false ++ true :: rest →
  stripeWebhook req w
  = ((stripeWebhook req w).1, Normal (mkResponse 200 Json_received))
  ∧ orders (stripeWebhook req w).1
    = orders w ++ [new_order (Event.object event) (pre ++ item :: post)]
  ∧ products (stripeWebhook req w).1 = apply_order pre (products w)
  ∧ mail (stripeWebhook req w).1 = mail w
  ∧ outages (stripeWebhook req w).1 = rest.
Proof.
  intros Hev Htype Hparse Hphys Hpaths Hout.
  rewrite List.filter_app in Hpaths. cbn [List.filter] in Hpaths.
  rewrite Hphys in Hpaths.
  apply referable_app in Hpaths as [Hpre [[productRef Hdoc] _]%referable_cons].
  unfold apply_order. rewrite (referable_reached _ Hpre).
  rewrite (stripeWebhook_paid _ _ _ _ _ Hev Htype). split; [done|]. cbn [fst].
  unfold process_completed, lift. rewrite bind_eq, Hparse.
  rewrite (bind_run _ _ _ _ _ (orders_add_up _ _ _ Hout)).
  rewrite bind_eq, for_of_app, bind_eq.
  match goal with
  | |- context [for_of pre decrement_inventory ?w1] =>
      destruct (decrement_loop_up pre (true :: rest) w1 Hpre eq_refl)
        as (w2 & -> & Hout2 & Hp2 & Ho2 & Hm2)
  end.
  cbn [for_of].
  rewrite bind_eq, (decrement_inventory_down _ _ _ _ Hphys Hdoc Hout2).
  simpl. by rewrite Ho2, Hp2, Hm2.
Qed.

(** X16.  From checkout to order: when a request was accepted and the
    paid session comes back with the metadata given to it, the order the
    reconciler writes, every call going through, lists the items of the
    request with the names, prices and categories the catalog had when
    the request was validated, whatever the catalog holds by the time of
    the delivery. *)
Theorem order_carries_checkout_snapshot
    (req : CheckoutRequest) (w w1 : World) (resp : Response)
    (cfg : SessionConfig.t)
    (delivery : WebhookRequest) (event : Event.t) (later : World) :
  createCheckoutSession req w = (w1, Normal resp) →
  status resp = 200 →
  sessions w1 = sessions w ++ [cfg] →
  constructEvent (rawBody delivery) (stripe_signature delivery) webhookSecret
  = inr event →
  Event.type event = "checkout.session.completed" →
  Session.metadata_orderItems (Event.object event)
  = MetaItems (SessionConfig.metadata_orderItems cfg) →
  calm later →
  ∃ l o,
    items req = Some l
    ∧ orders (stripeWebhook delivery later).1 = orders later ++ [o]
    ∧ Order.stripeSessionId o = Session.id (Event.object event)
    ∧ Order.status o = "paid"
    ∧ Forall2 (snapshot_of (products w)) l (Order.items o).
Proof.
  intros Hrun H200 Hcfg Hev Htype Hmeta Hcalm.
  destruct (accepted_inversion _ _ _ _ Hrun H200)
    as (l & built & w0 & Hitems & _ & _ & Hval & Hsess).
  pose proof (validate_items_accepts _ _ _ _ _ Hval) as ((_ & _ & _ & Hsame) & _).
  apply validate_items_snapshot in Hval as (ois & Hois & Hall & _).
  simpl in Hois. subst ois.
  rewrite Hsess, Hsame in Hcfg. apply app_inj_tail in Hcfg as [_ <-].
  assert (Hparse : JSON_parse (Session.metadata_orderItems (Event.object event))
                   = Normal (orderItems built)) by (by rewrite Hmeta).
  destruct (stripeWebhook_paid_calm constructEvent webhookSecret delivery event _
              later Hcalm Hev Htype Hparse) as (w' & b & Hdel & _ & _ & Ho).
  eexists l, _. split; [done|]. split; [by rewrite Hdel|]. by repeat split.
Qed.

End More.

End Checkout.

Section Samples.

#[local] Existing Instance plain_client.

(** Two answers 500: the payment provider rejects the creation of the
    session, which is the last call journalled; and the client refuses a
    product id with a slash, no call being made. *)
Example two_ways_to_500 :
  let down := mkWorld shelf [] [] [] [false; true] [] in
  (createCheckoutSession (post [want "c1" 1]) down).2
  = Normal (mkResponse 500 (Json_error "Failed to create checkout session"))
  ∧ journal (createCheckoutSession (post [want "c1" 1]) down).1
    = [mkEntry (ProductGet "c1") true; mkEntry SessionsCreate false]
  ∧ createCheckoutSession (post [want "a/b" 1]) shop
    = (shop, Normal (mkResponse 500 (Json_error "Failed to create checkout session"))).
Proof. by vm_compute. Qed.

Lemma accepted_session_snapshot_witness :
  let req := post [want "g1" 1; want "c1" 2] in
  createCheckoutSession req shop
  = ((createCheckoutSession req shop).1, Normal (res_json (Json_sessionUrl 0)))
  ∧ status (res_json (Json_sessionUrl 0)) = 200
  ∧ ∃ l cfg,
      items req = Some l
      ∧ sessions (createCheckoutSession req shop).1 = sessions shop ++ [cfg]
      ∧ Forall2 (snapshot_of (products shop)) l (SessionConfig.metadata_orderItems cfg)
      ∧ length (SessionConfig.line_items cfg) = length l
      ∧ Some (SessionConfig.success_url cfg) = successUrl req
      ∧ Some (SessionConfig.cancel_url cfg) = cancelUrl req
      ∧ SessionConfig.shipping_address_collection cfg
        = (if existsb is_physical (SessionConfig.metadata_orderItems cfg)
           then Some ["US"] else None).
Proof.
  intros req.
  assert (Hrun : createCheckoutSession req shop
                 = ((createCheckoutSession req shop).1,
                    Normal (res_json (Json_sessionUrl 0)))) by (by vm_compute).
  split; [exact Hrun|]. split; [reflexivity|].
  exact (accepted_session_snapshot req shop _ _ Hrun eq_refl).
Defined.

Lemma nothing_to_reconcile_nothing_done_witness :
  nothing_to_reconcile refuses "whsec" delivery
  ∧ ∃ resp,
      stripeWebhook refuses "whsec" delivery shop = (shop, Normal resp)
      ∧ status resp
        = (if refuses (rawBody delivery) (stripe_signature delivery) "whsec"
           is inl _ then 400 else 200).
Proof.
  assert (Hnothing : nothing_to_reconcile refuses "whsec" delivery) by exact I.
  split; [exact Hnothing|].
  exact (nothing_to_reconcile_nothing_done refuses "whsec" delivery shop Hnothing).
Defined.

Lemma delivery_mails_witness :
  let l := [bought "c1" "Candle" 1200 1 "physical"; bought "g1" "Guide" 900 1 "digital"] in
  let ev := paid "cs_7" l in
  calm shop
  ∧ accepts ev (rawBody delivery) (stripe_signature delivery) "whsec" = inr ev
  ∧ Event.type ev = "checkout.session.completed"
  ∧ JSON_parse (Session.metadata_orderItems (Event.object ev)) = Normal l
  ∧ (Session.customer_email (Event.object ev) ≠ Undefined
     ∧ referable (List.filter is_physical l)
     ∧ referable (List.filter is_digital l))
  ∧ (Session.customer_email (Event.object ev) = Undefined →
     mail (stripeWebhook (accepts ev) "whsec" delivery shop).1 = mail shop)
  ∧ (Session.customer_email (Event.object ev) ≠ Undefined →
     referable (List.filter is_physical l) →
     referable (List.filter is_digital l) →
     ∃ news,
       mail (stripeWebhook (accepts ev) "whsec" delivery shop).1 = mail shop ++ news
       ∧ news
         = confirmation (Event.object ev) (length (orders shop)) l
             :: (if nonempty (links_in (products shop) l)
                 then [downloads (Event.object ev) (links_in (products shop) l)]
                 else [])
       ∧ Forall (λ m, Mail.to m = Session.customer_email (Event.object ev)) news).
Proof.
  intros l ev. do 4 (split; [reflexivity|]).
  split.
  { split; [discriminate|].
    split; intros item Hin; apply list_elem_of_singleton in Hin; subst item;
      by eexists. }
  apply (delivery_mails (accepts ev) "whsec" delivery ev l shop); reflexivity.
Defined.

(** The mails of that delivery: the confirmation, then the links. *)
Example delivery_mails_sample :
  let l := [bought "c1" "Candle" 1200 1 "physical"; bought "g1" "Guide" 900 1 "digital"] in
  let ev := paid "cs_7" l in
  mail (stripeWebhook (accepts ev) "whsec" delivery shop).1
  = [confirmation (Event.object ev) 0 l;
     downloads (Event.object ev) [("Guide", "https://files.example/guide.pdf")]]
  ∧ referable (List.filter is_physical l)
  ∧ referable (List.filter is_digital l).
Proof.
  intros l ev. split; [by vm_compute|].
  split; intros item Hin; apply list_elem_of_singleton in Hin; subst item;
    by eexists.
Qed.

Lemma rejected_transaction_stops_the_delivery_witness :
  let pre := [bought "g1" "Guide" 900 1 "digital"; bought "c1" "Candle" 1200 1 "physical"] in
  let item := bought "c1" "Candle" 1200 1 "physical" in
  let post := [bought "c1" "Candle" 1200 5 "physical"] in
  let ev := paid "cs_9" (pre ++ item :: post) in
  let w := mkWorld shelf [] [] [] [false; false; true; false] [] in
  accepts ev (rawBody delivery) (stripe_signature delivery) "whsec" = inr ev
  ∧ Event.type ev = "checkout.session.completed"
  ∧ JSON_parse (Session.metadata_orderItems (Event.object ev))
    = Normal (pre ++ item :: post)
  ∧ is_physical item = true
  ∧ referable (List.filter is_physical (pre ++ [item]))
  ∧ outages w
    = false :: replicate (length (List.filter is_physical pre)) false
        ++ true :: [false]
  ∧ stripeWebhook (accepts ev) "whsec" delivery w
    = ((stripeWebhook (accepts ev) "whsec" delivery w).1,
       Normal (mkResponse 200 Json_received))
  ∧ orders (stripeWebhook (accepts ev) "whsec" delivery w).1
    = orders w ++ [new_order (Event.object ev) (pre ++ item :: post)]
  ∧ products (stripeWebhook (accepts ev) "whsec" delivery w).1
    = apply_order pre (products w)
  ∧ mail (stripeWebhook (accepts ev) "whsec" delivery w).1 = mail w
  ∧ outages (stripeWebhook (accepts ev) "whsec" delivery w).1 = [false].
Proof.
  intros pre item post ev w.
  assert (Hpaths : referable (List.filter is_physical (pre ++ [item]))).
  { intros i Hi. exists "c1".
    apply elem_of_cons in Hi as [->|Hi]; [done|].
    apply list_elem_of_singleton in Hi. by subst i. }
  do 4 (split; [reflexivity|]). split; [exact Hpaths|]. split; [reflexivity|].
  apply (rejected_transaction_stops_the_delivery (accepts ev) "whsec" delivery ev
           pre item post [false] w); try reflexivity.
  exact Hpaths.
Defined.

Lemma order_carries_checkout_snapshot_witness :
  let req := post [want "c1" 2] in
  let ev := paid "cs_3" [bought "c1" "Candle" 1200 2 "physical"] in
  createCheckoutSession req shop
  = ((createCheckoutSession req shop).1, Normal (res_json (Json_sessionUrl 0)))
  ∧ sessions (createCheckoutSession req shop).1 = sessions shop ++ [candle_session]
  ∧ Session.metadata_orderItems (Event.object ev)
    = MetaItems (SessionConfig.metadata_orderItems candle_session)
  ∧ calm dearer_shop
  ∧ ∃ l o,
      items req = Some l
      ∧ orders (stripeWebhook (accepts ev) "whsec" delivery dearer_shop).1
        = orders dearer_shop ++ [o]
      ∧ Order.stripeSessionId o = Session.id (Event.object ev)
      ∧ Order.status o = "paid"
      ∧ Forall2 (snapshot_of (products shop)) l (Order.items o).
Proof.
  intros req ev.
  assert (Hrun : createCheckoutSession req shop
                 = ((createCheckoutSession req shop).1,
                    Normal (res_json (Json_sessionUrl 0)))) by (by vm_compute).
  assert (Hcfg : sessions (createCheckoutSession req shop).1
                 = sessions shop ++ [candle_session]) by (by vm_compute).
  split; [exact Hrun|]. split; [exact Hcfg|].
  split; [reflexivity|]. split; [reflexivity|].
  apply (order_carries_checkout_snapshot (accepts ev) "whsec" req shop _ _
           candle_session delivery ev dearer_shop Hrun); reflexivity.
Defined.

End Samples.

End FunctionsMore.

(* ===================================================================== *)
(** ** Properties of the SMS and e-mail blasts                            *)
(* ===================================================================== *)

Module BlastProps.
Import Blast.

Section Blasts.

Variable trim : string → string.
Variable config : Config.
Variable verifyIdToken : string → bool.

Local Abbreviation sendSmsBlast := (sendSmsBlast trim config verifyIdToken).
Local Abbreviation sendEmailBlast := (sendEmailBlast trim config verifyIdToken).
Local Abbreviation sms_for := (sms_for trim config).
Local Abbreviation letter_for := (letter_for trim config).

(** X17.  A blast request that carries no bearer token, an empty one, or
    one the identity provider rejects, is turned away before anything
    happens: the store is not read, nothing is sent, and a POST is
    answered 401. *)
Theorem blasts_require_authentication (req : Request) (d : Desk) :
  unauthenticated verifyIdToken req →
  ∃ sms_resp email_resp,
    sendSmsBlast req d = (d, Normal sms_resp)
    ∧ sendEmailBlast req d = (d, Normal email_resp)
    ∧ status sms_resp = status email_resp
    ∧ (status sms_resp = 401 ∨ status sms_resp = 204 ∨ status sms_resp = 405)
    ∧ (method req = "POST" → status sms_resp = 401).
Proof.
  unfold unauthenticated, Blast.sendSmsBlast, Blast.sendEmailBlast. intros Hun.
  destruct (String.eqb_spec (method req) "OPTIONS") as [Hm|Hm].
  { eexists _, _. repeat (split; [reflexivity|]). simpl.
    split; [auto|]. rewrite Hm. discriminate. }
  destruct (String.eqb_spec (method req) "POST") as [Hp|Hp]; simpl.
  2: { eexists _, _. repeat (split; [reflexivity|]). simpl. split; [auto|done]. }
  destruct (bearer_token req) as [token|].
  2: { eexists _, _. repeat (split; [reflexivity|]). simpl. auto. }
  destruct Hun as [->|Hv]; simpl.
  { eexists _, _. repeat (split; [reflexivity|]). simpl. auto. }
  destruct (truthy_string token); simpl.
  - rewrite Hv. simpl. eexists _, _. repeat (split; [reflexivity|]). simpl. auto.
  - eexists _, _. repeat (split; [reflexivity|]). simpl. auto.
Qed.

(** *** The sending loop *)

Lemma text_outcome sms d :
  (∃ rest, messages_create sms d = (with_outages rest d, Throw "unavailable")
           ∧ outages d = true :: rest)
  ∨ (∃ rest, messages_create sms d
             = (mkDesk (subscribers d) (texts d ++ [sms]) (letters d) rest, Normal tt)
             ∧ (outages d = [] → rest = [])).
Proof.
  unfold messages_create. rewrite bind_eq. unfold await, modify.
  destruct (outages d) as [|[] rest] eqn:Hout; simpl.
  - right. exists []. by rewrite Hout.
  - left. by exists rest.
  - right. by exists rest.
Qed.

Lemma send_texts (mk : Subscriber.t → Sms.t) rs sent failed d :
  ∃ d' a b new,
    send_each (λ sub, messages_create (mk sub)) rs sent failed d
    = (d', Normal ((sent + a)%nat, (failed + b)%nat))
    ∧ (a + b)%nat = length rs
    ∧ texts d' = texts d ++ new
    ∧ length new = a
    ∧ sublist new (mk <$> rs)
    ∧ subscribers d' = subscribers d ∧ letters d' = letters d
    ∧ (outages d = [] → b = 0%nat ∧ new = mk <$> rs ∧ outages d' = []).
Proof.
  revert sent failed d. induction rs as [|sub rs IH]; intros sent failed d.
  { exists d, 0%nat, 0%nat, []. simpl. rewrite !Nat.add_0_r, app_nil_r.
    repeat split; auto. }
  simpl send_each. rewrite bind_eq, try_catch_eq, bind_eq.
  destruct (text_outcome (mk sub) d) as [(rest & -> & Hout)|(rest & -> & Hrest)].
  - destruct (IH sent (S failed) (with_outages rest d))
      as (d' & a & b & new & Hrun & Hab & Ht & Hn & Hsub & Hs & Hl & _).
    exists d', a, (S b), new. simpl in *. rewrite Hrun.
    split; [do 3 f_equal; lia|]. split; [lia|].
    split; [done|]. split; [done|].
    split; [by constructor|]. split; [done|]. split; [done|].
    intros Hnil. congruence.
  - destruct (IH (S sent) failed
                (mkDesk (subscribers d) (texts d ++ [mk sub]) (letters d) rest))
      as (d' & a & b & new & Hrun & Hab & Ht & Hn & Hsub & Hs & Hl & Hcalm).
    exists d', (S a), b, (mk sub :: new). simpl in *. rewrite Hrun.
    split; [do 3 f_equal; lia|]. split; [lia|].
    split; [by rewrite Ht, <- app_assoc|]. split; [lia|].
    split; [by constructor|]. split; [done|]. split; [done|].
    intros Hnil. destruct (Hcalm (Hrest Hnil)) as (-> & -> & ?). done.
Qed.

Lemma letter_outcome letter d :
  (∃ rest, sendMail letter d = (with_outages rest d, Throw "unavailable")
           ∧ outages d = true :: rest)
  ∨ (∃ rest, sendMail letter d
             = (mkDesk (subscribers d) (texts d) (letters d ++ [letter]) rest, Normal tt)
             ∧ (outages d = [] → rest = [])).
Proof.
  unfold sendMail. rewrite bind_eq. unfold await, modify.
  destruct (outages d) as [|[] rest] eqn:Hout; simpl.
  - right. exists []. by rewrite Hout.
  - left. by exists rest.
  - right. by exists rest.
Qed.

Lemma send_letters (mk : Subscriber.t → Letter.t) rs sent failed d :
  ∃ d' a b new,
    send_each (λ sub, sendMail (mk sub)) rs sent failed d
    = (d', Normal ((sent + a)%nat, (failed + b)%nat))
    ∧ (a + b)%nat = length rs
    ∧ letters d' = letters d ++ new
    ∧ length new = a
    ∧ sublist new (mk <$> rs)
    ∧ subscribers d' = subscribers d ∧ texts d' = texts d
    ∧ (outages d = [] → b = 0%nat ∧ new = mk <$> rs ∧ outages d' = []).
Proof.
  revert sent failed d. induction rs as [|sub rs IH]; intros sent failed d.
  { exists d, 0%nat, 0%nat, []. simpl. rewrite !Nat.add_0_r, app_nil_r.
    repeat split; auto. }
  simpl send_each. rewrite bind_eq, try_catch_eq, bind_eq.
  destruct (letter_outcome (mk sub) d) as [(rest & -> & Hout)|(rest & -> & Hrest)].
  - destruct (IH sent (S failed) (with_outages rest d))
      as (d' & a & b & new & Hrun & Hab & Ht & Hn & Hsub & Hs & Hl & _).
    exists d', a, (S b), new. simpl in *. rewrite Hrun.
    split; [do 3 f_equal; lia|]. split; [lia|].
    split; [done|]. split; [done|].
    split; [by constructor|]. split; [done|]. split; [done|].
    intros Hnil. congruence.
  - destruct (IH (S sent) failed
                (mkDesk (subscribers d) (texts d) (letters d ++ [mk sub]) rest))
      as (d' & a & b & new & Hrun & Hab & Ht & Hn & Hsub & Hs & Hl & Hcalm).
    exists d', (S a), b, (mk sub :: new). simpl in *. rewrite Hrun.
    split; [do 3 f_equal; lia|]. split; [lia|].
    split; [by rewrite Ht, <- app_assoc|]. split; [lia|].
    split; [by constructor|]. split; [done|]. split; [done|].
    intros Hnil. destruct (Hcalm (Hrest Hnil)) as (-> & -> & ?). done.
Qed.

Lemma subscribers_where_outcome keep d :
  (∃ rest, subscribers_where keep d = (with_outages rest d, Throw "unavailable"))
  ∨ (∃ rest, subscribers_where keep d
             = (with_outages rest d, Normal (List.filter keep (subscribers d)))
             ∧ (outages d = [] → rest = [])).
Proof.
  unfold subscribers_where. rewrite bind_eq. unfold await, gets.
  destruct (outages d) as [|[] rest] eqn:Hout; simpl.
  - right. exists []. split; [|done]. unfold with_outages. rewrite <- Hout.
    by destruct d.
  - left. by exists rest.
  - right. by exists rest.
Qed.

Ltac turned_away :=
  eexists _, _; (split; [reflexivity|]); simpl; unfold blast_status;
  repeat split; try done; try lia; intros ?; lia.

(** X18.  [sendSmsBlast] always answers, with one of the statuses 200, 204,
    400, 401, 405 and 500, never changes the subscribers and never sends
    an e-mail.  Unless it answers 200 it has sent no SMS.  When it answers
    200, the total it reports is the number of active, opted-in
    subscribers with a phone number that is not blank; sent and failed add
    up to the total; and the SMS handed to the provider are as many as
    reported sent, each the trimmed message to the trimmed number of such
    a subscriber, in the order of the collection. *)
Theorem sms_blast_outcome (req : Request) (d : Desk) :
  ∃ d' resp,
    sendSmsBlast req d = (d', Normal resp)
    ∧ blast_status (status resp)
    ∧ subscribers d' = subscribers d
    ∧ letters d' = letters d
    ∧ (status resp ≠ 200 → texts d' = texts d)
    ∧ (status resp = 200 →
       ∃ sent failed new,
         body resp = Json_counts sent failed (length (sms_audience trim d))
         ∧ (sent + failed)%nat = length (sms_audience trim d)
         ∧ texts d' = texts d ++ new
         ∧ length new = sent
         ∧ sublist new (sms_for (default "" (message req)) <$> sms_audience trim d)).
Proof.
  unfold Blast.sendSmsBlast.
  destruct (String.eqb _ "OPTIONS"); [turned_away|].
  destruct (negb (String.eqb _ "POST")); [turned_away|].
  destruct (bearer_token req) as [token|]; [|turned_away].
  destruct (negb (truthy_string token)); [turned_away|].
  destruct (negb (verifyIdToken token)); [turned_away|].
  destruct (blank trim (message req)); [turned_away|].
  destruct (negb (truthy_opt_string _)); [turned_away|].
  rewrite try_catch_eq, bind_eq.
  destruct (subscribers_where_outcome sms_recipient d) as [(rest & ->)|(rest & -> & _)].
  { turned_away. }
  rewrite bind_eq.
  destruct (send_texts (sms_for (default "" (message req)))
              (List.filter (λ s, negb (blank trim (Subscriber.phone s)))
                 (List.filter sms_recipient (subscribers d)))
              0%nat 0%nat (with_outages rest d))
    as (d' & a & b & new & -> & Hab & Ht & Hn & Hsub & Hs & Hl & _).
  eexists _, _. split; [reflexivity|]. simpl in *. unfold blast_status.
  split; [lia|]. split; [done|]. split; [done|]. split; [done|].
  intros _. by exists a, b, new.
Qed.

(** X19.  [sendEmailBlast] always answers, with one of the statuses 200,
    204, 400, 401, 405 and 500, never changes the subscribers and never
    sends an SMS.  Unless it answers 200 it has sent no e-mail.  When it
    answers 200, the total it reports is the number of active subscribers
    with an e-mail address that is not blank; sent and failed add up to
    the total; and the e-mails handed to the transport are as many as
    reported sent, each with the trimmed subject and the body of the
    request, to the trimmed address of such a subscriber, in the order of
    the collection. *)
Theorem email_blast_outcome (req : Request) (d : Desk) :
  ∃ d' resp,
    sendEmailBlast req d = (d', Normal resp)
    ∧ blast_status (status resp)
    ∧ subscribers d' = subscribers d
    ∧ texts d' = texts d
    ∧ (status resp ≠ 200 → letters d' = letters d)
    ∧ (status resp = 200 →
       ∃ sent failed new,
         body resp = Json_counts sent failed (length (email_audience trim d))
         ∧ (sent + failed)%nat = length (email_audience trim d)
         ∧ letters d' = letters d ++ new
         ∧ length new = sent
         ∧ sublist new
             (letter_for (default "" (subject req)) (default "" (htmlBody req))
                <$> email_audience trim d)).
Proof.
  unfold Blast.sendEmailBlast.
  destruct (String.eqb _ "OPTIONS"); [turned_away|].
  destruct (negb (String.eqb _ "POST")); [turned_away|].
  destruct (bearer_token req) as [token|]; [|turned_away].
  destruct (negb (truthy_string token)); [turned_away|].
  destruct (negb (verifyIdToken token)); [turned_away|].
  destruct (negb (truthy_opt_string (gmail_email config))); [turned_away|].
  destruct (_ || _); [turned_away|].
  rewrite try_catch_eq, bind_eq.
  destruct (subscribers_where_outcome Subscriber.active d)
    as [(rest & ->)|(rest & -> & _)].
  { turned_away. }
  rewrite bind_eq.
  destruct (send_letters
              (letter_for (default "" (subject req)) (default "" (htmlBody req)))
              (List.filter (λ s, negb (blank trim (Subscriber.email s)))
                 (List.filter Subscriber.active (subscribers d)))
              0%nat 0%nat (with_outages rest d))
    as (d' & a & b & new & -> & Hab & Ht & Hn & Hsub & Hs & Hl & _).
  eexists _, _. split; [reflexivity|]. simpl in *. unfold blast_status.
  split; [lia|]. split; [done|]. split; [done|]. split; [done|].
  intros _. by exists a, b, new.
Qed.

(** X20.  With the services up, an authenticated SMS blast with a message
    that is not blank reaches everyone: it answers 200 with as many sent
    as the total and none failed, and the provider has been handed one
    SMS per active, opted-in subscriber with a phone number, in the order
    of the collection, and nothing else. *)
Theorem sms_blast_reaches_everyone (req : Request) (token : string) (d : Desk) :
  method req = "POST" →
  bearer_token req = Some token →
  token ≠ "" →
  verifyIdToken token = true →
  blank trim (message req) = false →
  truthy_opt_string (twilio_account_sid config) = true →
  outages d = [] →
  sendSmsBlast req d
  = (mkDesk (subscribers d)
       (texts d ++ (sms_for (default "" (message req)) <$> sms_audience trim d))
       (letters d) [],
     Normal (mkResponse 200
               (Json_counts (length (sms_audience trim d)) 0
                  (length (sms_audience trim d))))).
Proof.
  intros Hm Htok Hne Hv Hmsg Hcfg Hout.
  unfold Blast.sendSmsBlast. rewrite Hm, Htok, Hv, Hmsg, Hcfg. simpl.
  assert (truthy_string token = true) as ->.
  { unfold truthy_string. by destruct (String.eqb_spec token ""). }
  simpl. rewrite try_catch_eq, bind_eq.
  destruct (subscribers_where_outcome sms_recipient d)
    as [(rest & Hq)|(rest & -> & Hrest)].
  { unfold subscribers_where in Hq. rewrite bind_eq in Hq. unfold await in Hq.
    by rewrite Hout in Hq. }
  rewrite (Hrest Hout), bind_eq.
  destruct (send_texts (sms_for (default "" (message req)))
              (List.filter (λ s, negb (blank trim (Subscriber.phone s)))
                 (List.filter sms_recipient (subscribers d)))
              0%nat 0%nat (with_outages [] d))
    as (d' & a & b & new & -> & Hab & Ht & Hn & Hsub & Hs & Hl & Hcalm).
  destruct (Hcalm eq_refl) as (-> & -> & Hout').
  simpl in *. rewrite Nat.add_0_r in Hab. subst a.
  f_equal. destruct d' as [subs txts ltrs outs]. simpl in *. by subst.
Qed.

End Blasts.

Lemma blasts_require_authentication_witness :
  let req := mkRequest "POST" (Some "Basic good-token") (Some "Hello") None None in
  let d := mkDesk readers [] [] [] in
  unauthenticated signed_in req
  ∧ ∃ sms_resp email_resp,
      sendSmsBlast trim_spaces office signed_in req d = (d, Normal sms_resp)
      ∧ sendEmailBlast trim_spaces office signed_in req d = (d, Normal email_resp)
      ∧ status sms_resp = status email_resp
      ∧ (status sms_resp = 401 ∨ status sms_resp = 204 ∨ status sms_resp = 405)
      ∧ (method req = "POST" → status sms_resp = 401).
Proof.
  intros req d.
  assert (Hun : unauthenticated signed_in req) by exact I.
  split; [exact Hun|].
  exact (blasts_require_authentication trim_spaces office signed_in req d Hun).
Defined.

Lemma sms_blast_reaches_everyone_witness :
  let d := mkDesk readers [] [] [] in
  method announce = "POST"
  ∧ bearer_token announce = Some "good-token"
  ∧ "good-token" ≠ ""
  ∧ signed_in "good-token" = true
  ∧ blank trim_spaces (message announce) = false
  ∧ truthy_opt_string (twilio_account_sid office) = true
  ∧ outages d = []
  ∧ sendSmsBlast trim_spaces office signed_in announce d
    = (mkDesk (subscribers d)
         (texts d ++ (sms_for trim_spaces office (default "" (message announce))
                        <$> sms_audience trim_spaces d))
         (letters d) [],
       Normal (mkResponse 200
                 (Json_counts (length (sms_audience trim_spaces d)) 0
                    (length (sms_audience trim_spaces d))))).
Proof.
  intros d. repeat (split; [done|]).
  apply (sms_blast_reaches_everyone trim_spaces office signed_in announce
           "good-token" d); done.
Defined.

(** A blast during which the second send is rejected: the first and third
    recipients are reached, the counts say two sent and one failed. *)
Example email_blast_with_a_failure :
  let d := mkDesk readers [] [] [false; false; true] in
  let run := sendEmailBlast trim_spaces office signed_in announce d in
  run.2 = Normal (mkResponse 200 (Json_counts 2 1 3))
  ∧ Letter.to <$> letters run.1 = ["ann@example.org"; "cy@example.org"]
  ∧ Letter.subject <$> letters run.1 = ["News"; "News"].
Proof. by vm_compute. Qed.

Example sms_blast_sample :
  let d := mkDesk readers [] [] [] in
  let run := sendSmsBlast trim_spaces office signed_in announce d in
  run.2 = Normal (mkResponse 200 (Json_counts 2 0 2))
  ∧ texts run.1
    = [Sms.mk "New class on Friday" (Some "+15559999") "+15550001";
       Sms.mk "New class on Friday" (Some "+15559999") "+15550004"].
Proof. by vm_compute. Qed.

End BlastProps.

(* ===================================================================== *)
(** ** The shop page                                                      *)
(* ===================================================================== *)

Module ShopProps.
Import Cart.
Import CartProps.
Import CartMore.
Import Shop.

Lemma on_storage_run {A} (m : M localStorage A) pg ls r :
  m (storage pg) = (ls, r) → on_storage m pg = (with_storage ls pg, r).
Proof. unfold on_storage. by intros ->. Qed.

Lemma listed_member pg pid p :
  listed pg pid = Some p → p ∈ allProducts pg ∧ Product.id (product p) = pid.
Proof.
  unfold listed. destruct (list_find _ _) as [[k p']|] eqn:Hfind; [|done].
  intros [= ->]. apply list_find_Some in Hfind as (Hk & Hid & _).
  split; [by eapply list_elem_of_lookup_2|done].
Qed.

Lemma openProductModal_run pid pg :
  openProductModal pid pg
  = match listed pg pid with
    | Some p =>
        (with_modal (Some p)
           (if negb (String.eqb (category p) "service") then Some 1 else None) pg,
         Normal tt)
    | None => (pg, Normal tt)
    end.
Proof.
  unfold openProductModal, find_product, listed. rewrite bind_eq. unfold gets.
  by destruct (snd <$> list_find _ _).
Qed.

(** One click on a quantity button of the modal of a product in stock. *)
Lemma updateModalQuantity_step delta pg shown :
  modalQuantity pg = Some shown →
  (∀ p, currentModalProduct pg = Some p → stocked p) →
  ∃ q,
    updateModalQuantity delta pg
    = (with_modal (currentModalProduct pg) (Some q) pg, Normal tt)
    ∧ 1 ≤ q ≤ 99
    ∧ (∀ p stock, currentModalProduct pg = Some p → limited p stock → q ≤ stock).
Proof.
  intros Hshown Hstock. unfold updateModalQuantity.
  rewrite bind_eq. unfold gets at 1. rewrite Hshown.
  rewrite bind_eq. unfold gets, modify.
  set (q1 := if number_add shown delta <? 1 then 1 else number_add shown delta).
  set (q2 := if 99 <? q1 then 99 else q1).
  assert (Hq2 : 1 ≤ q2 ≤ 99).
  { subst q1 q2. destruct (Z.ltb_spec (number_add shown delta) 1);
      [done|]. destruct (Z.ltb_spec 99 (number_add shown delta)); lia. }
  destruct (currentModalProduct pg) as [p|] eqn:Hcur.
  2: { exists q2. split; [done|]. split; [done|]. by intros p stock [=]. }
  specialize (Hstock p eq_refl).
  destruct (inventory p) as [stock|] eqn:Hinv.
  2: { exists q2. split; [done|]. split; [done|].
       intros p' stock [= <-] (_ & Hsome & _). congruence. }
  destruct (String.eqb_spec (category p) "physical") as [Hcat|Hcat]; simpl.
  2: { exists q2. split; [done|]. split; [done|].
       intros p' stock' [= <-] (Hphys & _). done. }
  destruct (Z.eqb_spec stock (-1)) as [Hun|Hfin]; simpl.
  { exists q2. split; [done|]. split; [done|].
    intros p' stock' [= <-] (_ & Hsome & Hne). congruence. }
  assert (Hlim : limited p stock) by done.
  pose proof (Hstock stock Hlim) as Hpos.
  destruct (Z.ltb_spec stock q2).
  - exists stock. split; [done|]. split; [lia|].
    intros p' stock' [= <-] (_ & Hsome & _). rewrite Hinv in Hsome.
    injection Hsome as <-. lia.
  - exists q2. split; [done|]. split; [done|].
    intros p' stock' [= <-] (_ & Hsome & _). rewrite Hinv in Hsome.
    injection Hsome as <-. lia.
Qed.


Lemma clicks_in_range deltas pg p shown :
  currentModalProduct pg = Some p → stocked p →
  modalQuantity pg = Some shown → 1 ≤ shown ≤ 99 →
  (∀ stock, limited p stock → shown ≤ stock) →
  ∃ q,
    for_of deltas updateModalQuantity pg = (with_modal (Some p) (Some q) pg, Normal tt)
    ∧ 1 ≤ q ≤ 99
    ∧ (∀ stock, limited p stock → q ≤ stock).
Proof.
  revert pg shown. induction deltas as [|delta deltas IH];
    intros pg shown Hcur Hstock Hshown Hrange Hle.
  { exists shown. split; [|done]. simpl. unfold mret, M_ret, ret.
    destruct pg; simpl in *. by subst. }
  simpl. rewrite bind_eq.
  destruct (updateModalQuantity_step delta pg shown Hshown) as (q & -> & Hq & Hq').
  { intros p' Hp'. rewrite Hcur in Hp'. by injection Hp' as <-. }
  rewrite Hcur.
  destruct (IH (with_modal (Some p) (Some q) pg) q eq_refl Hstock eq_refl Hq)
    as (q' & -> & Hrange' & Hle').
  { intros stock. by apply Hq'. }
  by exists q'.
Qed.

(** X21.  Once the modal of a listed product that is not a service is
    open, whatever is clicked on its quantity buttons, the quantity shown
    stays between 1 and 99, and within the inventory when the product is
    physical with a finite inventory, provided that inventory is at least
    one; the cart is not touched. *)
Theorem modal_quantity_in_range
    (pid : string) (p : Listing) (deltas : list Z) (pg : Page) :
  listed pg pid = Some p →
  category p ≠ "service" →
  stocked p →
  ∃ pg' q,
    (openProductModal pid;; for_of deltas updateModalQuantity) pg = (pg', Normal tt)
    ∧ modalQuantity pg' = Some q
    ∧ 1 ≤ q ≤ 99
    ∧ (∀ stock, limited p stock → q ≤ stock)
    ∧ currentModalProduct pg' = Some p
    ∧ storage pg' = storage pg.
Proof.
  intros Hlisted Hcat Hstock.
  rewrite bind_eq, openProductModal_run, Hlisted.
  destruct (String.eqb_spec (category p) "service") as [|_]; [done|]. simpl.
  destruct (clicks_in_range deltas (with_modal (Some p) (Some 1) pg) p 1
              eq_refl Hstock eq_refl) as (q & -> & Hq & Hle).
  { lia. }
  { intros stock Hlim. by apply Hstock. }
  by eexists _, q.
Qed.

Lemma modal_quantity_in_range_witness :
  let pg := front [reading; candle] in
  listed pg "c1" = Some candle
  ∧ category candle ≠ "service"
  ∧ stocked candle
  ∧ ∃ pg' q,
      (openProductModal "c1";; for_of [1; 1; 1; -1; 5] updateModalQuantity) pg
      = (pg', Normal tt)
      ∧ modalQuantity pg' = Some q
      ∧ 1 ≤ q ≤ 99
      ∧ (∀ stock, limited candle stock → q ≤ stock)
      ∧ currentModalProduct pg' = Some candle
      ∧ storage pg' = storage pg.
Proof.
  intros pg.
  assert (Hcat : category candle ≠ "service") by discriminate.
  assert (Hstock : stocked candle).
  { intros stock (_ & [= <-] & _). lia. }
  split; [reflexivity|]. split; [exact Hcat|]. split; [exact Hstock|].
  exact (modal_quantity_in_range "c1" candle [1; 1; 1; -1; 5] pg eq_refl Hcat Hstock).
Defined.

Lemma page_eta pg :
  mkPage (allProducts pg) (currentModalProduct pg) (modalQuantity pg) (storage pg)
    (checkout pg) (orderSuccessBanner pg) = pg.
Proof. by destruct pg. Qed.

Lemma with_storage_same pg : with_storage (storage pg) pg = pg.
Proof. apply page_eta. Qed.

Lemma modal_ok_same pg pg' :
  allProducts pg' = allProducts pg →
  currentModalProduct pg' = currentModalProduct pg →
  modalQuantity pg' = modalQuantity pg →
  modal_ok pg → modal_ok pg'.
Proof. unfold modal_ok. by intros -> -> ->. Qed.

(** A call into the cart on a record that holds no cart throws, and the
    page is as it was. *)
Lemma on_storage_stray {A} (m : M localStorage A) pg e :
  m (storage pg) = (storage pg, Throw e) → on_storage m pg = (pg, Throw e).
Proof. intros Hrun. by rewrite (on_storage_run _ _ _ _ Hrun), with_storage_same. Qed.

(** What the page relies on between two events. *)
Lemma event_keeps_quantities_positive now e pg :
  Forall stocked (allProducts pg) → modal_ok pg → lines_ok (storage pg) →
  ∃ pg',
    try_catch (handle now e) (λ _, mret tt) pg = (pg', Normal tt)
    ∧ allProducts pg' = allProducts pg
    ∧ modal_ok pg'
    ∧ lines_ok (storage pg').
Proof.
  intros Hall Hmodal Hok. pose proof Hmodal as [Hcur Hshown].
  rewrite try_catch_eq.
  destruct e as [pid| |delta| |pid| |pid q|pid]; simpl.
  - rewrite openProductModal_run.
    destruct (listed pg pid) as [p|] eqn:Hlisted; [|by exists pg].
    apply listed_member in Hlisted as [Hin _].
    eexists. split; [reflexivity|]. split; [done|]. split; [|done].
    split; simpl.
    + by intros p' [= <-].
    + destruct (negb _); [|done]. intros q [= <-]. lia.
  - eexists. split; [reflexivity|]. split; [done|]. split; [|done].
    split; simpl; [done|exact Hshown].
  - destruct (modalQuantity pg) as [shown|] eqn:Hq.
    + destruct (updateModalQuantity_step delta pg shown Hq) as (q & -> & Hrange & _).
      { intros p Hp. apply (proj1 (Forall_forall _ _) Hall). by apply Hcur. }
      eexists. split; [reflexivity|]. split; [done|]. split; [|done].
      split; simpl; [exact Hcur|]. intros q' [= <-]. lia.
    + unfold updateModalQuantity. rewrite bind_eq. unfold gets. rewrite Hq.
      by exists pg.
  - unfold addToCartFromModal. rewrite bind_eq. unfold gets at 1.
    destruct (currentModalProduct pg) as [p|] eqn:Hp; [|by exists pg].
    rewrite bind_eq. unfold gets.
    destruct (cart_record_dec (storage pg)) as [Hrec|Hstray].
    2:{ rewrite (on_storage_stray _ _ _ (addItem_stray _ _ _ _ Hstray)).
        by exists pg. }
    destruct (addItem_run now (product p) (Some (default 1 (modalQuantity pg)))
                (storage pg) Hrec) as (ls' & Hrun & Hl & _).
    rewrite (on_storage_run _ _ _ _ Hrun).
    eexists. split; [reflexivity|]. split; [done|]. split; [by apply (modal_ok_same pg)|].
    unfold lines_ok. simpl. rewrite Hl. apply added_ok; [|done]. simpl.
    destruct (modalQuantity pg) as [q|]; simpl; [by apply Hshown|lia].
  - unfold addToCartFromShop, find_product. rewrite bind_eq. unfold gets.
    destruct (snd <$> list_find _ _) as [p|]; [|by exists pg].
    destruct (cart_record_dec (storage pg)) as [Hrec|Hstray].
    2:{ rewrite (on_storage_stray _ _ _ (addItem_stray _ _ _ _ Hstray)).
        by exists pg. }
    destruct (addItem_run now (product p) (Some 1) (storage pg) Hrec)
      as (ls' & Hrun & Hl & _).
    rewrite (on_storage_run _ _ _ _ Hrun).
    eexists. split; [reflexivity|]. split; [done|]. split; [by apply (modal_ok_same pg)|].
    unfold lines_ok. simpl. rewrite Hl. by apply added_ok.
  - unfold handleCheckoutReturn. rewrite bind_eq. unfold gets.
    destruct (from_option _ _ _); [|by exists pg].
    rewrite bind_eq. unfold on_storage, clear, modify. simpl.
    eexists. split; [reflexivity|]. split; [done|]. split; [by apply (modal_ok_same pg)|].
    unfold lines_ok, lines. simpl. by rewrite lookup_delete_eq.
  - destruct (cart_record_dec (storage pg)) as [Hrec|Hstray].
    2:{ rewrite (on_storage_stray _ _ _ (updateQuantity_stray _ _ _ _ Hstray)).
        by exists pg. }
    destruct (updateQuantity_run now pid q (storage pg) Hrec) as (ls' & Hrun & Hl & _).
    rewrite (on_storage_run _ _ _ _ Hrun).
    eexists. split; [reflexivity|]. split; [done|]. split; [by apply (modal_ok_same pg)|].
    unfold lines_ok. simpl. rewrite Hl. by apply updated_ok.
  - destruct (cart_record_dec (storage pg)) as [Hrec|Hstray].
    2:{ rewrite (on_storage_stray _ _ _ (removeItem_stray _ _ _ Hstray)).
        by exists pg. }
    destruct (removeItem_run now pid (storage pg) Hrec) as (ls' & Hrun & Hl & _).
    rewrite (on_storage_run _ _ _ _ Hrun).
    eexists. split; [reflexivity|]. split; [done|]. split; [by apply (modal_ok_same pg)|].
    unfold lines_ok. simpl. rewrite Hl. by apply removed_ok.
Qed.

(** X22.  On a page none of whose limited products is out of stock,
    whatever the visitor sets off, in whatever order (opening and closing
    the modal, its quantity buttons, either add-to-bag button, the return
    from the payment page, the buttons of the cart drawer), every handler
    ends, an error it throws being confined to it, and every line of the
    persisted cart keeps a quantity of at least one. *)
Theorem shop_page_keeps_quantities_positive
    (events : list (Z * event)) (pg : Page) :
  Forall stocked (allProducts pg) →
  modal_ok pg →
  lines_ok (storage pg) →
  ∃ pg',
    dispatch events pg = (pg', Normal tt)
    ∧ lines_ok (storage pg')
    ∧ modal_ok pg'
    ∧ allProducts pg' = allProducts pg.
Proof.
  revert pg. induction events as [|[now e] events IH]; intros pg Hall Hmodal Hok.
  { by exists pg. }
  destruct (event_keeps_quantities_positive now e pg Hall Hmodal Hok)
    as (pg1 & Hrun & Hsame & Hmodal1 & Hok1).
  unfold dispatch. simpl. rewrite (bind_run _ _ _ _ _ Hrun).
  destruct (IH pg1) as (pg' & Hrest & Hok' & Hmodal' & Hsame'); try done.
  { by rewrite Hsame. }
  exists pg'. split; [exact Hrest|]. split; [done|]. split; [done|]. congruence.
Qed.

Lemma shop_page_keeps_quantities_positive_witness :
  let pg := front [reading; candle] in
  let events :=
    [(1, UpdateModalQuantity (-1)); (2, OpenProductModal "c1");
     (3, UpdateModalQuantity (-1)); (4, UpdateModalQuantity 5);
     (5, AddToCartFromModal); (6, AddToCartFromShop "r1");
     (7, DrawerUpdateQuantity "c1" 0); (8, OpenProductModal "r1");
     (9, UpdateModalQuantity 1); (10, AddToCartFromModal);
     (11, CloseProductModal); (12, AddToCartFromModal)] in
  Forall stocked (allProducts pg)
  ∧ modal_ok pg
  ∧ lines_ok (storage pg)
  ∧ ∃ pg',
      dispatch events pg = (pg', Normal tt)
      ∧ lines_ok (storage pg')
      ∧ modal_ok pg'
      ∧ allProducts pg' = allProducts pg.
Proof.
  intros pg events.
  assert (Hall : Forall stocked (allProducts pg)).
  { repeat constructor.
    - by intros stock (_ & [=] & _).
    - intros stock (_ & [= <-] & _). lia. }
  assert (Hmodal : modal_ok pg) by (by split).
  assert (Hok : lines_ok (storage pg)) by constructor.
  split; [exact Hall|]. split; [exact Hmodal|]. split; [exact Hok|].
  exact (shop_page_keeps_quantities_positive events pg Hall Hmodal Hok).
Defined.

Example shop_page_session :
  let pg :=
    (dispatch
       [(1, UpdateModalQuantity (-1)); (2, OpenProductModal "c1");
        (3, UpdateModalQuantity (-1)); (4, UpdateModalQuantity 5);
        (5, AddToCartFromModal); (6, AddToCartFromShop "r1");
        (8, OpenProductModal "r1"); (9, UpdateModalQuantity 1);
        (10, AddToCartFromModal)]
       (front [reading; candle])).1 in
  (λ i, (CartItem.productId i, CartItem.quantity i)) <$> lines (storage pg)
  = [("c1", 2); ("r1", 2)].
Proof. by vm_compute. Qed.




(** X24.  [handleCheckoutReturn] empties the cart exactly on a return with
    [checkout=success]: it then removes the cart's record and nothing
    else from storage and leaves a URL without the parameter, so that
    running it again changes nothing; on any other URL it changes
    nothing at all. *)
Theorem checkout_return_clears_once (pg : Page) :
  ∃ pg',
    handleCheckoutReturn pg = (pg', Normal tt)
    ∧ (checkout pg = Some "success" →
       storage pg' = delete KEY (storage pg)
       ∧ lines (storage pg') = []
       ∧ checkout pg' = None
       ∧ allProducts pg' = allProducts pg)
    ∧ (checkout pg ≠ Some "success" → pg' = pg)
    ∧ handleCheckoutReturn pg' = (pg', Normal tt).
Proof.
  unfold handleCheckoutReturn. rewrite bind_eq. unfold gets at 1.
  destruct (checkout pg) as [param|] eqn:Hparam; cbn [from_option].
  2: { exists pg. rewrite bind_eq. unfold gets. rewrite Hparam. done. }
  destruct (String.eqb_spec "success" param) as [<-|Hne].
  - rewrite bind_eq. unfold on_storage, clear, modify. simpl.
    eexists. split; [reflexivity|]. simpl. split; [|split; [done|]].
    + intros _. split; [done|]. split; [|done].
      unfold lines. by rewrite lookup_delete_eq.
    + by rewrite bind_eq.
  - exists pg. split; [done|]. split; [congruence|]. split; [done|].
    rewrite bind_eq. unfold gets. rewrite Hparam. cbn [from_option].
    by destruct (String.eqb_spec "success" param).
Qed.

(** X25.  The add-to-bag button of a product card adds one unit of the
    listed product to the cart, on the line of that product when it has
    one and on a new line otherwise, and the count read back is one more,
    as long as it stays within the integers a double holds exactly (no
    negative quantity, no more than 2^53 pieces); for an id that is not
    listed the handler changes nothing.  (The record of the cart is one
    the cart reads as a cart.) *)
Theorem addToCartFromShop_adds_one (now later : Z) (pid : string) (pg : Page) :
  cart_record (storage pg) →
  ∃ pg',
    addToCartFromShop now pid pg = (pg', Normal tt)
    ∧ match listed pg pid with
      | Some p =>
          lines (storage pg') = added (product p) 1 (lines (storage pg))
          ∧ pid ∈ CartItem.productId <$> lines (storage pg')
          ∧ allProducts pg' = allProducts pg
          ∧ (countable (lines (storage pg)) →
             pieces (lines (storage pg)) + 1 ≤ 2 ^ 53 →
             getCount later (storage pg')
             = (storage pg', Normal (count_of (lines (storage pg)) + 1)))
      | None => pg' = pg
      end.
Proof.
  intros Hrec.
  unfold addToCartFromShop, find_product. rewrite bind_eq. unfold gets.
  fold (listed pg pid).
  destruct (listed pg pid) as [p|] eqn:Hlisted; [|by exists pg].
  apply listed_member in Hlisted as [_ Hid].
  destruct (addItem_run now (product p) (Some 1) (storage pg) Hrec)
    as (ls' & Hrun & Hl & Hrec').
  rewrite (on_storage_run _ _ _ _ Hrun).
  eexists. split; [reflexivity|]. simpl.
  split; [done|]. split; [|split; [done|]].
  - rewrite Hl. unfold added. rewrite Hid.
    destruct (list_find _ _) as [[k existing]|] eqn:Hfind.
    + apply list_find_Some in Hfind as (Hk & Hline & _).
      rewrite list_fmap_insert. simpl. rewrite Hline.
      apply list_elem_of_lookup. exists k.
      apply list_lookup_insert_eq. rewrite length_fmap.
      by eapply lookup_lt_Some.
    + rewrite fmap_app. simpl. set_solver.
  - intros Hcount Hroom. rewrite getCount_run, Hl by done.
    by rewrite added_count by (done || lia).
Qed.

Lemma addToCartFromShop_adds_one_witness :
  let pg := front [reading; candle] in
  cart_record (storage pg)
  ∧ (countable (lines (storage pg)) ∧ pieces (lines (storage pg)) + 1 ≤ 2 ^ 53)
  ∧ ∃ pg',
      addToCartFromShop 1 "c1" pg = (pg', Normal tt)
      ∧ match listed pg "c1" with
        | Some p =>
            lines (storage pg') = added (product p) 1 (lines (storage pg))
            ∧ "c1" ∈ CartItem.productId <$> lines (storage pg')
            ∧ allProducts pg' = allProducts pg
            ∧ (countable (lines (storage pg)) →
               pieces (lines (storage pg)) + 1 ≤ 2 ^ 53 →
               getCount 2 (storage pg')
               = (storage pg', Normal (count_of (lines (storage pg)) + 1)))
        | None => pg' = pg
        end.
Proof.
  intros pg.
  assert (Hrec : cart_record (storage pg)) by done.
  split; [exact Hrec|].
  split; [split; [split; [constructor|]|]; by vm_compute|].
  exact (addToCartFromShop_adds_one 1 2 "c1" pg Hrec).
Defined.

End ShopProps.

(* ===================================================================== *)
(** ** The checkout, from the cart to the payment session                 *)
(* ===================================================================== *)

Module CheckoutProps.
Import Functions.
Import ValidatorProps.
Import FunctionsMore.
Import Checkout.

Lemma tab_eta t :
  mkTab (storage t) (cartCheckoutBtn t) (origin t) (pathname t) (href t) (alerts t)
    (network_error t) (backend t) = t.
Proof. by destruct t. Qed.

Lemma getCart_on_tab now t :
  Cart.cart_record (storage t) →
  on_storage (Cart.getCart now) t
  = (t, Normal (Cart.Stored (Cart.stored now (storage t)))).
Proof.
  intros Hrec. unfold on_storage.
  by rewrite CartProps.getCart_run, (CartProps.parsed_cart _ _ Hrec), tab_eta.
Qed.

Lemma no_lines_length now ls :
  (length (Cart.items (Cart.stored now ls)) =? 0)%nat
  = match Cart.lines ls with [] => true | _ => false end.
Proof. rewrite CartProps.stored_items. by destruct (Cart.lines ls). Qed.


Lemma fetch_online `{Firestore} req t w r :
  network_error t = None →
  createCheckoutSession req (backend t) = (w, r) →
  fetch req t = (with_backend w t, r).
Proof. unfold fetch. by intros -> ->. Qed.


Section Checkout.

Context `{Firestore}.

(** X26.  With no line in the cart, be it that the record is missing,
    empty, unreadable or holds no item, [initiateCheckout] returns at
    once: nothing is sent, the button, the location and the function's
    world are as they were.  (A record that holds a value without items
    is none of these: on it the handler throws.) *)
Theorem empty_cart_is_not_checked_out (now : Z) (t : Tab) :
  Cart.cart_record (storage t) →
  Cart.lines (storage t) = [] →
  initiateCheckout now t = (t, Normal tt).
Proof.
  intros Hrec Hnone. unfold initiateCheckout.
  rewrite (bind_run _ _ _ _ _ (getCart_on_tab now t Hrec)).
  by rewrite no_lines_length, Hnone.
Qed.

(** The checkout of a cart with lines, up to the answer of [fetch]. *)
Lemma initiateCheckout_sends now t btn :
  Cart.lines (storage t) ≠ [] →
  cartCheckoutBtn t = Some btn →
  initiateCheckout now t
  = match fetch (checkout_request (origin t) (pathname t)
                   (Cart.stored now (storage t)))
            (with_button (mkButton "Processing..." true) t) with
    | (t1, Normal response) =>
        if response_ok response then
          match response_json response with
          | Normal data =>
              match sessionUrl data with
              | Some url => (with_href (SessionUrl url) t1, Normal tt)
              | None =>
                  (with_button (mkButton (textContent btn) false)
                     (alert (apology +:+ "No checkout URL received") t1), Normal tt)
              end
          | Throw message =>
              (with_button (mkButton (textContent btn) false)
                 (alert (apology +:+ message) t1), Normal tt)
          end
        else
          (with_button (mkButton (textContent btn) false)
             (alert (apology
                     +:+ (match response_json response with
                          | Normal data =>
                              if truthy_opt_string (error data)
                              then default "" (error data) else "Checkout failed"
                          | Throw _ => "Checkout failed"
                          end)) t1), Normal tt)
    | (t1, Throw message) =>
        (with_button (mkButton (textContent btn) false)
           (alert (apology +:+ message) t1), Normal tt)
    end.
Proof.
  intros Hlines Hbtn. unfold initiateCheckout.
  rewrite (bind_run _ _ _ _ _
             (getCart_on_tab now t (CartProps.lines_cart_record _ Hlines))).
  rewrite no_lines_length. destruct (Cart.lines (storage t)) eqn:Hl; [done|].
  rewrite bind_eq. unfold gets at 1. rewrite Hbtn.
  rewrite bind_eq. unfold modify at 1.
  rewrite try_catch_eq, bind_eq. unfold gets at 1. simpl.
  rewrite bind_eq.
  destruct (fetch _ _) as [t1 [response|message]]; [|done].
  rewrite bind_eq.
  destruct (response_ok response); simpl.
  - unfold lift. rewrite bind_eq.
    destruct (response_json response) as [data|message]; [|done].
    by destruct (sessionUrl data).
  - by destruct (response_json response) as [data|message].
Qed.

(** What a POST leaves behind: a new session and the answer 200 carrying
    it, or an error message and the sessions as they were. *)
Lemma post_outcome req w :
  method req = "POST" →
  ∃ w' resp,
    createCheckoutSession req w = (w', Normal resp)
    ∧ products w' = products w ∧ orders w' = orders w ∧ mail w' = mail w
    ∧ ((∃ cfg,
          resp = res_json (Json_sessionUrl (length (sessions w)))
          ∧ sessions w' = sessions w ++ [cfg]
          ∧ Some (SessionConfig.success_url cfg) = successUrl req
          ∧ Some (SessionConfig.cancel_url cfg) = cancelUrl req)
       ∨ (∃ s msg,
            resp = mkResponse s (Json_error msg)
            ∧ (s = 400 ∨ s = 500)
            ∧ sessions w' = sessions w)).
Proof.
  intros Hm. unfold createCheckoutSession. rewrite Hm. simpl.
  rewrite try_catch_eq.
  destruct (items req) as [[|item l]|].
  1, 3: eexists w, _; (split; [reflexivity|]); do 3 (split; [done|]);
        right; eexists _, _; split; [reflexivity|]; split; [by left|done].
  destruct (_ || _) eqn:Hurls.
  { eexists w, _. split; [reflexivity|]. do 3 (split; [done|]).
    right. eexists _, _. split; [reflexivity|]. split; [by left|done]. }
  apply orb_false_iff in Hurls as [Hsu Hca]. apply negb_false_iff in Hsu, Hca.
  destruct (successUrl req) as [success|]; [|done].
  destruct (cancelUrl req) as [cancel|]; [|done].
  rewrite bind_eq.
  pose proof (validate_items_same_documents (item :: l) (mkBuilt [] [] false) w)
    as Hdocs.
  destruct (validate_items _ _ w) as [w1 [[rejection|built]|e]] eqn:Hval;
    simpl in Hdocs; destruct Hdocs as (Hp & Ho & Hma & Hs).
  - apply validate_items_rejects in Hval as [_ [msg ->]].
    eexists w1, _. split; [reflexivity|]. do 3 (split; [done|]).
    right. eexists _, _. split; [reflexivity|]. split; [by left|done].
  - rewrite bind_eq. unfold sessions_create. run_primitive.
    destruct (outages w1) as [|[] rest] eqn:Hout; simpl.
    + eexists _, _. split; [reflexivity|]. simpl. do 3 (split; [done|]).
      left. eexists. rewrite Hs. by repeat split.
    + eexists _, _. split; [reflexivity|]. simpl. do 3 (split; [done|]).
      right. eexists _, _. split; [reflexivity|]. split; [by right|done].
    + eexists _, _. split; [reflexivity|]. simpl. do 3 (split; [done|]).
      left. eexists. rewrite Hs. by repeat split.
  - eexists w1, _. split; [reflexivity|]. simpl. do 3 (split; [done|]).
    right. eexists _, _. split; [reflexivity|]. split; [by right|done].
Qed.

(** X27.  With lines in the cart and the checkout button on the page,
    [initiateCheckout] always ends, whatever the function answers and
    whether or not the request gets through, in one of two ways: the tab
    goes to the payment page of a session created just now, which comes
    back to this page with [?checkout=success] or
    [?checkout=cancelled#shop], nothing is alerted and the button stays
    disabled; or the tab stays where it is, no session has been created,
    one alert is shown and the button is enabled again under its old
    text.  Either way the cart, the catalog, the orders and the mail are
    as they were. *)
Theorem checkout_redirects_or_apologises (now : Z) (t : Tab) (btn : Button) :
  Cart.lines (storage t) ≠ [] →
  cartCheckoutBtn t = Some btn →
  ∃ t',
    initiateCheckout now t = (t', Normal tt)
    ∧ storage t' = storage t
    ∧ products (backend t') = products (backend t)
    ∧ orders (backend t') = orders (backend t)
    ∧ mail (backend t') = mail (backend t)
    ∧ ((∃ cfg,
          href t' = SessionUrl (length (sessions (backend t)))
          ∧ sessions (backend t') = sessions (backend t) ++ [cfg]
          ∧ SessionConfig.success_url cfg
            = (origin t +:+ pathname t) +:+ "?checkout=success"
          ∧ SessionConfig.cancel_url cfg
            = (origin t +:+ pathname t) +:+ "?checkout=cancelled#shop"
          ∧ alerts t' = alerts t
          ∧ cartCheckoutBtn t' = Some (mkButton "Processing..." true))
       ∨ (∃ message,
            href t' = href t
            ∧ sessions (backend t') = sessions (backend t)
            ∧ alerts t' = alerts t ++ [apology +:+ message]
            ∧ cartCheckoutBtn t' = Some (mkButton (textContent btn) false))).
Proof.
  intros Hlines Hbtn. rewrite (initiateCheckout_sends now t btn Hlines Hbtn).
  set (req := checkout_request _ _ _).
  destruct (network_error t) as [message|] eqn:Hnet.
  { unfold fetch. simpl. rewrite Hnet.
    eexists. split; [reflexivity|]. simpl. do 4 (split; [done|]).
    right. by exists message. }
  destruct (post_outcome req (backend t) eq_refl)
    as (w' & resp & Hrun & Hp & Ho & Hm & Hout).
  rewrite (fetch_online req _ w' (Normal resp)) by done.
  destruct Hout as [(cfg & -> & Hs & Hsuccess & Hcancel)
                   |(s & msg & -> & Hstatus & Hs)].
  - simpl. eexists. split; [reflexivity|]. simpl. do 4 (split; [done|]).
    left. exists cfg. simpl in Hsuccess, Hcancel.
    injection Hsuccess as Hsuccess. injection Hcancel as Hcancel. done.
  - assert (Hno : response_ok (mkResponse s (Json_error msg)) = false).
    { by destruct Hstatus as [-> | ->]. }
    rewrite Hno. simpl. eexists. split; [reflexivity|]. simpl.
    do 4 (split; [done|]). right. by eexists.
Qed.





End Checkout.

Section Samples.

#[local] Existing Instance plain_client.

Lemma empty_cart_is_not_checked_out_witness :
  let t := visitor (<[Cart.KEY := Cart.Garbled]> ∅) in
  Cart.cart_record (storage t)
  ∧ Cart.lines (storage t) = []
  ∧ initiateCheckout 3 t = (t, Normal tt).
Proof.
  intros t.
  assert (Hrec : Cart.cart_record (storage t)) by done.
  assert (Hnone : Cart.lines (storage t) = []) by reflexivity.
  split; [exact Hrec|]. split; [exact Hnone|].
  exact (empty_cart_is_not_checked_out 3 t Hrec Hnone).
Defined.

(** On a record that holds a value without items the handler throws
    before anything is sent. *)
Example stray_record_checkout_throws :
  let t := visitor (<[Cart.KEY := Cart.StrayJson]> ∅) in
  initiateCheckout 3 t = (t, Throw "TypeError").
Proof. reflexivity. Qed.

Lemma checkout_redirects_or_apologises_witness :
  let t := visitor basket in
  let btn := mkButton "Checkout" false in
  Cart.lines (storage t) ≠ []
  ∧ cartCheckoutBtn t = Some btn
  ∧ ∃ t',
      initiateCheckout 9 t = (t', Normal tt)
      ∧ storage t' = storage t
      ∧ products (backend t') = products (backend t)
      ∧ orders (backend t') = orders (backend t)
      ∧ mail (backend t') = mail (backend t)
      ∧ ((∃ cfg,
            href t' = SessionUrl (length (sessions (backend t)))
            ∧ sessions (backend t') = sessions (backend t) ++ [cfg]
            ∧ SessionConfig.success_url cfg
              = (origin t +:+ pathname t) +:+ "?checkout=success"
            ∧ SessionConfig.cancel_url cfg
              = (origin t +:+ pathname t) +:+ "?checkout=cancelled#shop"
            ∧ alerts t' = alerts t
            ∧ cartCheckoutBtn t' = Some (mkButton "Processing..." true))
         ∨ (∃ message,
              href t' = href t
              ∧ sessions (backend t') = sessions (backend t)
              ∧ alerts t' = alerts t ++ [apology +:+ message]
              ∧ cartCheckoutBtn t' = Some (mkButton (textContent btn) false))).
Proof.
  intros t btn.
  assert (Hlines : Cart.lines (storage t) ≠ []) by (by vm_compute).
  split; [exact Hlines|]. split; [reflexivity|].
  exact (checkout_redirects_or_apologises 9 t btn Hlines eq_refl).
Defined.


(** The cart page a stale price ends on: the session bills the catalog
    price of the candle, 1200, not the 100 kept in the cart. *)
Example stale_cart_price_is_not_billed :
  let t' := (initiateCheckout 9 (visitor basket)).1 in
  href t' = SessionUrl 0
  ∧ (LineItem.unit_amount <$>
       concat (SessionConfig.line_items <$> sessions (backend t')))
    = [1200; 900]
  ∧ Cart.CartItem.price <$> Cart.lines (storage t') = [100; 900].
Proof. by vm_compute. Qed.


End Samples.

End CheckoutProps.
